(** * Document comparison engine (COMPARE_PDF job of app/workers/worker.py)

    A shallow embedding of the compare branch of [worker_loop] together with
    the parts of Python it runs on: [str.strip], [str.splitlines],
    [str.join], list slicing, and [difflib.SequenceMatcher] (constructed as
    [SequenceMatcher(None, a, b)], i.e. no junk predicate and the default
    [autojunk=True]).

    Conventions.
    - A Python [str] is a list of Unicode code points ([N]).
    - Python indices that are never negative are [nat].
    - A Python [dict] is a [gmap]; a Python [set] is a [gset].

    After the comparison come the page jobs of the same [worker_loop]
    (MERGE, SPLIT, ROTATE, DELETE, EXTRACT, REORDER, PDF_TO_TEXT,
    SPLIT_BY_RANGE), [merge_highlight_into_pdf], the download names of
    app/utils/output_names.py, the job ids of app/security/validators.py
    and the routes of app/api/routes/jobs.py and download.py, with the
    parts of Python they run on: [os.path.splitext], [str.lower],
    [str.split], [str.strip(chars)], [urllib.parse.quote] and the fragment
    of [re] the job-id pattern is written in. *)

From stdpp Require Import base numbers list sorting gmap strings pretty.
From Stdlib Require Import Lia.

Open Scope nat_scope.

(* ===================================================================== *)
(** ** Python strings *)
(* ===================================================================== *)

Module PyStr.

Abbreviation str := (list N).

(** A string literal, for examples: the code points of an ASCII string. *)
Definition py (s : string) : str :=
  (λ c : Ascii.ascii, N.of_nat (Ascii.nat_of_ascii c)) <$> String.list_ascii_of_string s.

(** [str.isspace] on one code point: the characters [str.strip] removes. *)
Definition is_space (c : N) : bool :=
  ((9 <=? c) && (c <=? 13) || (28 <=? c) && (c <=? 32) || (c =? 133) ||
   (c =? 160) || (c =? 5760) || (8192 <=? c) && (c <=? 8202) ||
   (c =? 8232) || (c =? 8233) || (c =? 8239) || (c =? 8287) ||
   (c =? 12288))%N.

(** The line boundaries of [str.splitlines]. *)
Definition is_linebreak (c : N) : bool :=
  ((10 <=? c) && (c <=? 13) || (28 <=? c) && (c <=? 30) || (c =? 133) ||
   (c =? 8232) || (c =? 8233))%N.

Definition CR : N := 13%N.
Definition LF : N := 10%N.

Fixpoint lstrip (s : str) : str :=
  match s with
  | [] => []
  | c :: s' => if is_space c then lstrip s' else s
  end.

Definition rstrip (s : str) : str := reverse (lstrip (reverse s)).

(** [s.strip()] *)
Definition strip (s : str) : str := rstrip (lstrip s).

(** Truth value of a string: [if s:] holds when [s] is not empty. *)
Definition truthy (s : str) : bool :=
  match s with [] => false | _ => true end.

(** [s.splitlines()]: lines without their terminators; ["\r\n"] is one
    terminator; no empty last line after a final terminator. *)
Fixpoint splitlines (s : str) : list str :=
  match s with
  | [] => []
  | c :: s' =>
    if is_linebreak c then
      [] :: (if (c =? CR)%N
             then match s' with
                  | c' :: s'' => if (c' =? LF)%N then splitlines s''
                                 else splitlines s'
                  | [] => splitlines s'
                  end
             else splitlines s')
    else
      match splitlines s' with
      | [] => [[c]]
      | l :: ls => (c :: l) :: ls
      end
  end.

(** [sep.join(l)] *)
Fixpoint join (sep : str) (l : list str) : str :=
  match l with
  | [] => []
  | x :: l' => match l' with [] => x | _ => x ++ sep ++ join sep l' end
  end.

(** [str(n)] for a non-negative integer. *)
Definition str_of_nat (n : nat) : str := py (pretty n).

End PyStr.

Import PyStr.

(** [l[i1:i2]] for [0 <= i1], [0 <= i2]. *)
Definition slice {A} (l : list A) (i1 i2 : nat) : list A :=
  take (i2 - i1) (drop i1 l).

(* ===================================================================== *)
(** ** difflib.SequenceMatcher(None, a, b) *)
(* ===================================================================== *)

Module Difflib.

(** The tags of [get_opcodes]: ['replace'], ['delete'], ['insert'],
    ['equal']. *)
Inductive tag := Replace | Delete | Insert | Equal.

(** An opcode [(tag, i1, i2, j1, j2)]. *)
Record opcode := Opcode
  { op_tag : tag; op_i1 : nat; op_i2 : nat; op_j1 : nat; op_j2 : nat }.

(** [Match(a, b, size)] *)
Abbreviation block := (nat * nat * nat)%type.

(** A queue entry [(alo, ahi, blo, bhi)] of [get_matching_blocks]. *)
Abbreviation window := (nat * nat * nat * nat)%type.

(** The constructor's default [autojunk=True]. *)
Definition autojunk : bool := true.

(** [enumerate(l)] *)
Definition enumerate {A} (l : list A) : list (nat * A) := imap pair l.

(** [j2len.get(j-1, 0)]: for [j = 0] the key is [-1], which no dictionary
    of the matcher holds. *)
Definition j2lenget (j2len : gmap nat nat) (j : nat) : nat :=
  match j with
  | 0 => 0
  | S j' => default 0 (j2len !! j')
  end.

(** Tuples compare lexicographically ([matching_blocks.sort()]). *)
Definition block_le (x y : block) : Prop :=
  let '(i1, j1, k1) := x in
  let '(i2, j2, k2) := y in
  i1 < i2 ∨ (i1 = i2 ∧ (j1 < j2 ∨ (j1 = j2 ∧ k1 ≤ k2))).

#[global] Instance block_le_dec : RelDecision block_le.
Proof. intros [[i1 j1] k1] [[i2 j2] k2]; simpl; apply _. Defined.

Section SequenceMatcher.
Context `{Countable T}.

(** [a[i] == b[j]]; an index out of range never compares equal (the loops
    test the bounds first). *)
Definition elt_eq (x y : option T) : bool :=
  match x, y with
  | Some u, Some v => bool_decide (u = v)
  | _, _ => false
  end.

(** *** [__chain_b] *)

(** [indices = b2j.setdefault(elt, []); indices.append(i)] *)
Definition chain_step (b2j : gmap T (list nat)) (ie : nat * T)
    : gmap T (list nat) :=
  <[ie.2 := default [] (b2j !! ie.2) ++ [ie.1]]> b2j.

Definition b2j_all (b : list T) : gmap T (list nat) :=
  foldl chain_step ∅ (enumerate b).

(** [isjunk] is [None]: no element is junk and nothing is purged for it. *)
Definition bjunk : gset T := ∅.

Definition isbjunk (x : option T) : bool :=
  match x with
  | Some e => bool_decide (e ∈ bjunk)
  | None => false
  end.

Definition ntest (b : list T) : nat := length b / 100 + 1.

(** The popular elements: with [autojunk] and [len(b) >= 200], those that
    occur more than [n // 100 + 1] times in [b]. *)
Definition bpopular (b : list T) : gset T :=
  if autojunk && bool_decide (200 ≤ length b)
  then dom (filter (λ kv, ntest b < length kv.2) (b2j_all b))
  else ∅.

(** [b2j] after the purge of the popular elements. *)
Definition chain_b (b : list T) : gmap T (list nat) :=
  filter (λ kv, kv.1 ∉ bpopular b) (b2j_all b).

(** *** [find_longest_match] *)

Variables a b : list T.
Variable b2j : gmap T (list nat).

(** [b2j.get(a[i], nothing)] *)
Definition b2j_get (x : option T) : list nat :=
  match x with
  | Some e => default [] (b2j !! e)
  | None => []
  end.

(** The loop [for j in b2j.get(a[i], nothing)] with its [continue] and
    [break].  [i-k+1] is written [i+1-k]: [k <= i+1] there, and the
    subtraction of [nat] must not truncate. *)
Fixpoint flm_row (blo bhi i : nat) (j2len : gmap nat nat) (js : list nat)
    (newj2len : gmap nat nat) (best : block) : gmap nat nat * block :=
  match js with
  | [] => (newj2len, best)
  | j :: js' =>
    if decide (j < blo) then flm_row blo bhi i j2len js' newj2len best
    else if decide (bhi ≤ j) then (newj2len, best)
    else
      let k := j2lenget j2len j + 1 in
      flm_row blo bhi i j2len js' (<[j := k]> newj2len)
        (if decide (best.2 < k) then (i + 1 - k, j + 1 - k, k) else best)
  end.

(** The loop [for i in range(alo, ahi)]. *)
Definition flm_scan (alo ahi blo bhi : nat) : gmap nat nat * block :=
  foldl (λ st i, flm_row blo bhi i st.1 (b2j_get (a !! i)) ∅ st.2)
        (∅, (alo, blo, 0)) (seq alo (ahi - alo)).

(** The two loops that extend the block downwards; [junk] says which of
    the two: [false] for the one guarded by [not isbjunk(b[bestj-1])],
    [true] for the one guarded by [isbjunk(b[bestj-1])]. *)
Fixpoint extend_lo (junk : bool) (alo blo besti bestj bestsize : nat)
    {struct besti} : block :=
  match besti, bestj with
  | S i', S j' =>
    if bool_decide (alo < besti) && bool_decide (blo < bestj) &&
       eqb (isbjunk (b !! j')) junk && elt_eq (a !! i') (b !! j')
    then extend_lo junk alo blo i' j' (S bestsize)
    else (besti, bestj, bestsize)
  | _, _ => (besti, bestj, bestsize)
  end.

(** The two loops that extend the block upwards.  [n] counts the
    iterations left before [besti+bestsize < ahi] fails; it is
    [ahi - (besti+bestsize)] at the call. *)
Fixpoint extend_hi (junk : bool) (n bhi besti bestj bestsize : nat)
    {struct n} : block :=
  match n with
  | 0 => (besti, bestj, bestsize)
  | S n' =>
    if bool_decide (bestj + bestsize < bhi) &&
       eqb (isbjunk (b !! (bestj + bestsize))) junk &&
       elt_eq (a !! (besti + bestsize)) (b !! (bestj + bestsize))
    then extend_hi junk n' bhi besti bestj (S bestsize)
    else (besti, bestj, bestsize)
  end.

Definition extend (junk : bool) (alo ahi blo bhi : nat) (m : block)
    : block :=
  let '(besti, bestj, bestsize) := extend_lo junk alo blo m.1.1 m.1.2 m.2 in
  extend_hi junk (ahi - (besti + bestsize)) bhi besti bestj bestsize.

Definition find_longest_match (alo ahi blo bhi : nat) : block :=
  extend true alo ahi blo bhi
    (extend false alo ahi blo bhi (flm_scan alo ahi blo bhi).2).

(** *** [get_matching_blocks] *)

(** The windows [queue.append]ed after a block [(i, j, k)] was found in
    [(alo, ahi, blo, bhi)].  The Python list is used as a stack
    ([append]/[pop]); here its top is the head of the list. *)
Definition push_windows (w : window) (m : block) (queue : list window)
    : list window :=
  let '(alo, ahi, blo, bhi) := w in
  let '(i, j, k) := m in
  let queue :=
    if bool_decide (alo < i) && bool_decide (blo < j)
    then (alo, i, blo, j) :: queue else queue in
  if bool_decide (i + k < ahi) && bool_decide (j + k < bhi)
  then (i + k, ahi, j + k, bhi) :: queue else queue.

(** [while queue: ...], at most [fuel] iterations; [None] when the loop
    has not finished by then. *)
Fixpoint blocks_loop (fuel : nat) (queue : list window)
    (matching_blocks : list block) : option (list block) :=
  match queue with
  | [] => Some matching_blocks
  | (alo, ahi, blo, bhi) :: queue' =>
    match fuel with
    | 0 => None
    | S fuel' =>
      let x := find_longest_match alo ahi blo bhi in
      if bool_decide (0 < x.2)
      then blocks_loop fuel' (push_windows (alo, ahi, blo, bhi) x queue')
             (matching_blocks ++ [x])
      else blocks_loop fuel' queue' matching_blocks
    end
  end.

(** One step of the loop that collapses adjacent equal blocks; the state
    is [(i1, j1, k1)] and [non_adjacent]. *)
Definition collapse_step (st : block * list block) (m : block)
    : block * list block :=
  let '((i1, j1, k1), non_adjacent) := st in
  let '(i2, j2, k2) := m in
  if bool_decide (i1 + k1 = i2) && bool_decide (j1 + k1 = j2)
  then ((i1, j1, k1 + k2), non_adjacent)
  else ((i2, j2, k2),
        if bool_decide (0 < k1) then non_adjacent ++ [(i1, j1, k1)]
        else non_adjacent).

Definition collapse (matching_blocks : list block) : list block :=
  let '((i1, j1, k1), non_adjacent) :=
    foldl collapse_step ((0, 0, 0), []) matching_blocks in
  if bool_decide (0 < k1) then non_adjacent ++ [(i1, j1, k1)]
  else non_adjacent.

(** *** [get_opcodes] *)

(** One step of [for ai, bj, size in self.get_matching_blocks()]; the
    state is [(i, j)] and [answer]. *)
Definition opcode_step (st : nat * nat * list opcode) (m : block)
    : nat * nat * list opcode :=
  let '(i, j, answer) := st in
  let '(ai, bj, size) := m in
  let answer :=
    if bool_decide (i < ai) && bool_decide (j < bj)
    then answer ++ [Opcode Replace i ai j bj]
    else if bool_decide (i < ai) then answer ++ [Opcode Delete i ai j bj]
    else if bool_decide (j < bj) then answer ++ [Opcode Insert i ai j bj]
    else answer in
  (ai + size, bj + size,
   if bool_decide (0 < size)
   then answer ++ [Opcode Equal ai (ai + size) bj (bj + size)]
   else answer).

Definition opcodes_of_blocks (blocks : list block) : list opcode :=
  (foldl opcode_step (0, 0, []) blocks).2.

End SequenceMatcher.

(** The number of iterations granted to the queue loop of
    [get_matching_blocks]; [blocks_loop_total] shows it is enough. *)
Definition blocks_fuel {T} (a : list T) : nat := 2 * length a + 1.

Section Matcher.
Context `{Countable T}.
Variables a b : list T.

(** The queue loop of [get_matching_blocks], from
    [queue = [(0, la, 0, lb)]] and [matching_blocks = []]. *)
Definition raw_blocks : option (list block) :=
  blocks_loop a b (chain_b b) (blocks_fuel a)
    [(0, length a, 0, length b)] [].

(** [get_matching_blocks()]: the blocks found, sorted, collapsed, and
    followed by the sentinel [(la, lb, 0)].  The queue loop always
    finishes ([blocks_loop_total]): the default is never taken. *)
Definition get_matching_blocks : list block :=
  collapse (merge_sort block_le (default [] raw_blocks))
    ++ [(length a, length b, 0)].

(** [SequenceMatcher(None, a, b).get_opcodes()] *)
Definition get_opcodes : list opcode :=
  opcodes_of_blocks get_matching_blocks.

End Matcher.

End Difflib.

Import Difflib.

(* ===================================================================== *)
(** ** The COMPARE_PDF branch of [worker_loop] *)
(* ===================================================================== *)

Module Compare.

(** ["\n"] *)
Definition NL : str := [LF].

(** The ["type"] of a change: ["add"] or ["remove"]. *)
Inductive change_type := Add | Remove.

(** [{"page": page_num, "type": ..., "text": blob}] *)
Record change := Change
  { c_page : nat; c_type : change_type; c_text : str }.

(** *** Extraction of the page texts *)

(** [extract_text_per_page]: the argument lists, per page, what
    [page.extract_text()] returned ([None] is possible);
    [(page.extract_text() or "").strip()]. *)
Definition extract_text_per_page (pages : list (option str)) : list str :=
  (λ t, strip (default [] t)) <$> pages.

(** *** The line pass (worker.py, lines 912-935) *)

(** [texts[i] if i < len(texts) else ""] *)
Definition text_at (texts : list str) (i : nat) : str :=
  if bool_decide (i < length texts) then default [] (texts !! i) else [].

(** [t.splitlines() if t else []] *)
Definition lines_of (t : str) : list str :=
  if truthy t then splitlines t else [].

(** [if blob.strip(): changes.append({...})] *)
Definition append_change (changes : list change) (page_num : nat)
    (ty : change_type) (blob : str) : list change :=
  if truthy (strip blob) then changes ++ [Change page_num ty blob]
  else changes.

(** The body of [for tag, i1, i2, j1, j2 in matcher.get_opcodes()]. *)
Definition line_opcode_step (page_num : nat) (lines1 lines2 : list str)
    (changes : list change) (op : opcode) : list change :=
  match op_tag op with
  | Replace =>
    let old_blob := join NL (slice lines1 (op_i1 op) (op_i2 op)) in
    let new_blob := join NL (slice lines2 (op_j1 op) (op_j2 op)) in
    let changes := append_change changes page_num Remove old_blob in
    append_change changes page_num Add new_blob
  | Delete =>
    let blob := join NL (slice lines1 (op_i1 op) (op_i2 op)) in
    append_change changes page_num Remove blob
  | Insert =>
    let blob := join NL (slice lines2 (op_j1 op) (op_j2 op)) in
    append_change changes page_num Add blob
  | Equal => changes
  end.

(** The body of [for i in range(max_pages)]. *)
Definition line_page_step (texts1 texts2 : list str)
    (changes : list change) (i : nat) : list change :=
  let page_num := i + 1 in
  let t1 := text_at texts1 i in
  let t2 := text_at texts2 i in
  let lines1 := lines_of t1 in
  let lines2 := lines_of t2 in
  foldl (line_opcode_step page_num lines1 lines2) changes
        (get_opcodes lines1 lines2).

Definition max_pages (texts1 texts2 : list str) : nat :=
  length texts1 `max` length texts2.

(** [changes] after the loop over the pages. *)
Definition line_diff (texts1 texts2 : list str) : list change :=
  foldl (line_page_step texts1 texts2) []
        (seq 0 (max_pages texts1 texts2)).

(** *** The report (lines 937-953) *)

(** [report["summary"]] *)
Record summary := Summary { s_total : nat; s_by_page : gmap str nat }.

(** [report] *)
Record report := Report { r_changes : list change; r_summary : summary }.

(** [p = str(c["page"]); by_page[p] = by_page.get(p, 0) + 1] *)
Definition by_page_step (by_page : gmap str nat) (c : change)
    : gmap str nat :=
  let p := str_of_nat (c_page c) in
  <[p := default 0 (by_page !! p) + 1]> by_page.

Definition build_report (changes : list change) : report :=
  Report changes
    (Summary (length changes) (foldl by_page_step ∅ changes)).

(** The text written to report.txt for one change:
    [f"Page {c['page']} — {label}:\n{c['text']}\n\n"]. *)
Definition txt_block (c : change) : str :=
  let label :=
    match c_type c with Remove => py "Removed" | Add => py "Added" end in
  py "Page " ++ str_of_nat (c_page c) ++ [32; 8212; 32]%N ++ label
    ++ py ":" ++ NL ++ c_text c ++ NL ++ NL.

(** The writes to report.txt, in order. *)
Definition report_txt_writes (changes : list change) : list str :=
  [py "Compare PDF " ++ [8212; 32]%N ++ py "Change report" ++ NL;
   py "Total changes: " ++ str_of_nat (length changes) ++ NL ++ NL]
  ++ (txt_block <$> changes).

(** *** The word pass (lines 993-1015) *)

Section Words.
(** The type of the page coordinates (Python floats); the pass only
    copies them. *)
Context {coord : Type}.

(** A rectangle [(x0, top, x1, bottom)]. *)
Definition bbox : Type := coord * coord * coord * coord.

(** A word as [page.extract_words()] returns it: a dictionary with
    ["text"], ["x0"], ["top"], ["x1"], ["bottom"].  The text is read with
    [w.get("text", "")], hence optional here. *)
Record word := Word
  { w_text : option str;
    w_x0 : coord; w_top : coord; w_x1 : coord; w_bottom : coord }.

(** [{"red": [...], "green": [...]}] *)
Record highlights := Highlights { red : list bbox; green : list bbox }.

(** [w.get("text", "")] *)
Definition word_text (w : word) : str := default [] (w_text w).

(** [(float(w["x0"]), float(w["top"]), float(w["x1"]), float(w["bottom"]))] *)
Definition word_rect (w : word) : bbox :=
  (w_x0 w, w_top w, w_x1 w, w_bottom w).

Definition add_red (r : bbox) (h : highlights) : highlights :=
  Highlights (red h ++ [r]) (green h).

Definition add_green (r : bbox) (h : highlights) : highlights :=
  Highlights (red h) (green h ++ [r]).

(** [for k in range(lo, hi): w = words[k]; r = ...; hl[i][color].append(r)].
    [words[k]] is in range for the opcodes of the matcher
    ([opcode_bounds]). *)
Definition mark_range (add : bbox → highlights → highlights)
    (words : list word) (i lo hi : nat) (hl : list highlights)
    : list highlights :=
  foldl (λ hl k,
           match words !! k with
           | Some w => alter (add (word_rect w)) i hl
           | None => hl
           end)
        hl (seq lo (hi - lo)).

(** The body of [for tag, i1, i2, j1, j2 in matcher.get_opcodes()]; the
    state is [(left_highlights, right_highlights)]. *)
Definition word_opcode_step (i : nat) (words_left words_right : list word)
    (st : list highlights * list highlights) (op : opcode)
    : list highlights * list highlights :=
  let '(left_highlights, right_highlights) := st in
  let left_highlights :=
    match op_tag op with
    | Delete | Replace =>
      if bool_decide (op_i1 op < op_i2 op)
      then mark_range add_red words_left i (op_i1 op) (op_i2 op)
             left_highlights
      else left_highlights
    | _ => left_highlights
    end in
  let right_highlights :=
    match op_tag op with
    | Insert | Replace =>
      if bool_decide (op_j1 op < op_j2 op)
      then mark_range add_green words_right i (op_j1 op) (op_j2 op)
             right_highlights
      else right_highlights
    | _ => right_highlights
    end in
  (left_highlights, right_highlights).

(** [(page.extract_words() or []) if page else []] for
    [page = pages[i] if i < len(pages) else None]. *)
Definition words_at (pages : list (list word)) (i : nat) : list word :=
  if bool_decide (i < length pages) then default [] (pages !! i) else [].

(** The body of [for i in range(max_pages)]. *)
Definition word_page_step (pages1 pages2 : list (list word))
    (st : list highlights * list highlights) (i : nat)
    : list highlights * list highlights :=
  let words_left := words_at pages1 i in
  let words_right := words_at pages2 i in
  let texts_left := word_text <$> words_left in
  let texts_right := word_text <$> words_right in
  foldl (word_opcode_step i words_left words_right) st
        (get_opcodes texts_left texts_right).

(** [(left_highlights, right_highlights)] after the loop;
    [max_pages] comes from the line pass. *)
Definition word_diff (max_pages : nat) (pages1 pages2 : list (list word))
    : list highlights * list highlights :=
  foldl (word_page_step pages1 pages2)
        (replicate max_pages (Highlights [] []),
         replicate max_pages (Highlights [] []))
        (seq 0 max_pages).

End Words.

Arguments word : clear implicits.
Arguments highlights : clear implicits.
Arguments bbox : clear implicits.

(** A word with the given text and rectangle, for examples. *)
Definition mk_word {coord} (t : str) (r : bbox coord) : word coord :=
  Word (Some t) r.1.1.1 r.1.1.2 r.1.2 r.2.

End Compare.

Import Compare.

(* ===================================================================== *)
(** ** The job around the comparison: files, status, routes *)
(* ===================================================================== *)

Module Orchestrator.

(** [JobStatus] (app/models/job.py) *)
Inductive job_status := PENDING | PROCESSING | COMPLETED | FAILED.

#[global] Instance job_status_eq_dec : EqDecision job_status.
Proof. solve_decision. Defined.

(** The two input documents: [job.input_paths[0]] and
    [job.input_paths[1]]. *)
Inductive side := Left | Right.

(** What was raised inside the [try] of [worker_loop]. *)
Inductive exn :=
  | TextExtraction (s : side)
  | WordExtraction (s : side)
  | Rendering (s : side).

(** An HTTP answer of a route: the payload, or [HTTPException(code)]. *)
Inductive response (A : Type) :=
  | Served (x : A)
  | HttpError (code : nat).
Arguments Served {A} x.
Arguments HttpError {A} code.


Section Job.
Context {coord : Type}.

(** What a file of the job directory holds. *)
Inductive content :=
  | FReport (r : report)
  | FText (writes : list str)
  | FPdf (s : side) (hl : list (highlights coord))
  | FZip (entries : list str).

(** The job directory: file name to content. *)
Abbreviation files := (gmap str content).

(** The fields of [Job] the comparison touches.  [job.output_path] is
    [compare_result.zip] from the creation of the job on
    (app/api/routes/compare.py) and the branch assigns the same path
    again; [j_params] holds the entries ["left_pdf"], ["right_pdf"] and
    ["report_path"] of [job.params]. *)
Record job := Job
  { j_status : job_status;
    j_output_path : str;
    j_params : gmap str str }.

(** The outcome of the calls to the external collaborators: pdfplumber's
    text and words per page ([None] when the call raises), and whether
    [merge_highlight_into_pdf] succeeds. *)
Record env := Env
  { pdf_text : side → option (list (option str));
    pdf_words : side → option (list (list (word coord)));
    render_ok : side → bool }.

(** A computation inside the [try]: it reads and writes the directory and
    the job, and ends with a value or an exception; what was written
    before an exception stays written. *)
Definition M (A : Type) : Type := files * job → (exn + A) * (files * job).

Definition ret {A} (x : A) : M A := λ st, (inr x, st).

Definition bind {A B} (m : M A) (f : A → M B) : M B :=
  λ st, match m st with
        | (inl e, st') => (inl e, st')
        | (inr x, st') => f x st'
        end.

Definition raise {A} (e : exn) : M A := λ st, (inl e, st).

#[global] Instance M_ret : MRet M := @ret.
#[global] Instance M_bind : MBind M := λ A B f m, bind m f.

(** [with open(path, "w") as f: ...] *)
Definition write_file (path : str) (c : content) : M unit :=
  λ '(fs, j), (inr (), (<[path := c]> fs, j)).


Definition set_output_path (path : str) : M unit :=
  λ '(fs, j), (inr (), (fs, Job (j_status j) path (j_params j))).



(** [merge_highlight_into_pdf(input_path, output_path, page_highlights)] *)
Definition merge_highlight_into_pdf (e : env) (s : side) (path : str)
    (hl : list (highlights coord)) : M unit :=
  if render_ok e s then write_file path (FPdf s hl)
  else raise (Rendering s).


Definition set_status (s : job_status) (j : job) : job :=
  Job s (j_output_path j) (j_params j).




(** [GET /download/{job_id}] (app/api/routes/download.py):
    [FileResponse(job.output_path)] for a completed job. *)
Definition download (fs : files) (j : job) : response (option content) :=
  if decide (j_status j = COMPLETED)
  then Served (fs !! j_output_path j)
  else HttpError 400.

End Job.

Arguments content : clear implicits.
Arguments job : clear implicits.
Arguments env : clear implicits.



End Orchestrator.

Import Orchestrator.

(* ===================================================================== *)
(** ** The specification's own descriptions, for comparison *)
(* ===================================================================== *)

Module Spec.

(** *** Coverage of a sequence by index ranges *)

(** [tiles lo hi rs]: the half-open ranges [rs], in order, cover
    [[lo, hi)] with no gap and no overlap. *)
Fixpoint tiles (lo hi : nat) (rs : list (nat * nat)) : Prop :=
  match rs with
  | [] => lo = hi
  | (x, y) :: rs' => x = lo ∧ x ≤ y ∧ tiles y hi rs'
  end.

Definition left_ranges (ops : list opcode) : list (nat * nat) :=
  (λ op, (op_i1 op, op_i2 op)) <$> ops.

Definition right_ranges (ops : list opcode) : list (nat * nat) :=
  (λ op, (op_j1 op, op_j2 op)) <$> ops.

(** *** Matching blocks *)

Section Blocks.
Context {T : Type}.
Variables a b : list T.

(** [a[i:i+k] == b[j:j+k]], all indices in range. *)
Definition is_match (m : block) : Prop :=
  ∀ t, t < m.2 →
    ∃ e, a !! (m.1.1 + t) = Some e ∧ b !! (m.1.2 + t) = Some e.

(** A matching block inside the window. *)
Definition is_block (alo ahi blo bhi : nat) (m : block) : Prop :=
  alo ≤ m.1.1 ∧ m.1.1 + m.2 ≤ ahi ∧ blo ≤ m.1.2 ∧ m.1.2 + m.2 ≤ bhi ∧
  is_match m.

(** The longest matching block of the window; among the longest, the one
    that starts earliest in [a]; among those, the one that starts earliest
    in [b]; [(alo, blo, 0)] when nothing matches. *)
Definition best_block (alo ahi blo bhi : nat) (m : block) : Prop :=
  is_block alo ahi blo bhi m ∧
  (m.2 = 0 → m.1.1 = alo ∧ m.1.2 = blo) ∧
  ∀ m', is_block alo ahi blo bhi m' →
    m'.2 ≤ m.2 ∧
    (m'.2 = m.2 → 0 < m.2 →
     m.1.1 < m'.1.1 ∨ (m.1.1 = m'.1.1 ∧ m.1.2 ≤ m'.1.2)).

End Blocks.

(** *** The aligner as section 4.1 words it *)

Section Aligner.
Context `{EqDecision T}.
Variables a b : list T.

(** The number of leading positions at which two sequences agree. *)
Fixpoint common_prefix (l1 l2 : list T) : nat :=
  match l1, l2 with
  | x :: l1', y :: l2' =>
    if decide (x = y) then S (common_prefix l1' l2') else 0
  | _, _ => 0
  end.

(** The length of the longest matching block that starts at [(i, j)] and
    stays inside the window. *)
Definition block_len (ahi bhi i j : nat) : nat :=
  common_prefix (slice a i ahi) (slice b j bhi).

(** The starts [(i, j)] of a window, earliest in [left] first and, among
    those, earliest in [right] first. *)
Definition starts (alo ahi blo bhi : nat) : list (nat * nat) :=
  i ← seq alo (ahi - alo); j ← seq blo (bhi - blo); [(i, j)].

(** The longest contiguous matching block of a window, ties broken by
    the earliest start in [left], then the earliest start in [right];
    size 0 when nothing matches. *)
Definition longest_block (alo ahi blo bhi : nat) : block :=
  foldl (λ best ij,
           let k := block_len ahi bhi ij.1 ij.2 in
           if decide (best.2 < k) then (ij.1, ij.2, k) else best)
        (alo, blo, 0) (starts alo ahi blo bhi).

(** The recursion on the unmatched windows; [n] bounds its depth. *)
Fixpoint align (n alo ahi blo bhi : nat) : list opcode :=
  match n with
  | 0 => []
  | S n' =>
    let '(i, j, k) := longest_block alo ahi blo bhi in
    if decide (0 < k) then
      align n' alo i blo j ++ [Opcode Equal i (i + k) j (j + k)]
        ++ align n' (i + k) ahi (j + k) bhi
    else if decide (alo < ahi ∧ blo < bhi) then
      [Opcode Replace alo ahi blo bhi]
    else if decide (alo < ahi) then [Opcode Delete alo ahi blo bhi]
    else if decide (blo < bhi) then [Opcode Insert alo ahi blo bhi]
    else []
  end.

(** The edit script of section 4.1.  The depth never exceeds
    [length a + 1] ([align_fuel]). *)
Definition spec_opcodes : list opcode :=
  align (S (length a)) 0 (length a) 0 (length b).

End Aligner.

(** *** The line diff stage as section 4.2 words it *)

(** Page [p]'s text split on line breaks; the empty list when the page is
    absent. *)
Definition spec_lines (texts : list str) (p : nat) : list str :=
  match texts !! p with
  | Some t => splitlines t
  | None => []
  end.

(** A change with the joined lines, emitted only if the joined text is
    non-empty after trimming. *)
Definition spec_emit (page : nat) (ty : change_type) (ls : list str)
    : list change :=
  if decide (strip (join NL ls) = []) then []
  else [Change page ty (join NL ls)].

Definition spec_opcode_changes (page : nat) (linesA linesB : list str)
    (op : opcode) : list change :=
  match op_tag op with
  | Replace =>
    spec_emit page Remove (slice linesA (op_i1 op) (op_i2 op))
      ++ spec_emit page Add (slice linesB (op_j1 op) (op_j2 op))
  | Delete => spec_emit page Remove (slice linesA (op_i1 op) (op_i2 op))
  | Insert => spec_emit page Add (slice linesB (op_j1 op) (op_j2 op))
  | Equal => []
  end.

Definition spec_page_changes (textsA textsB : list str) (p : nat)
    : list change :=
  let linesA := spec_lines textsA p in
  let linesB := spec_lines textsB p in
  op ← get_opcodes linesA linesB;
  spec_opcode_changes (p + 1) linesA linesB op.

Definition spec_line_diff (textsA textsB : list str) : list change :=
  p ← seq 0 (length textsA `max` length textsB);
  spec_page_changes textsA textsB p.

(** *** The word diff stage as section 4.3 words it *)

Section Words.
Context {coord : Type}.

(** The rectangles of the words in the left ranges of the [Delete] and
    [Replace] opcodes. *)
Definition spec_red (words : list (word coord)) (ops : list opcode)
    : list (bbox coord) :=
  op ← ops;
  match op_tag op with
  | Delete | Replace => word_rect <$> slice words (op_i1 op) (op_i2 op)
  | _ => []
  end.

(** The rectangles of the words in the right ranges of the [Insert] and
    [Replace] opcodes. *)
Definition spec_green (words : list (word coord)) (ops : list opcode)
    : list (bbox coord) :=
  op ← ops;
  match op_tag op with
  | Insert | Replace => word_rect <$> slice words (op_j1 op) (op_j2 op)
  | _ => []
  end.

End Words.

(** *** The report as section 4.4 words it *)

(** The number of changes on page [p]. *)
Definition changes_on_page (p : nat) (changes : list change) : nat :=
  length (filter (λ c, c_page c = p) changes).

(** The sum of the values of [by_page]. *)
Definition sum_values (m : gmap str nat) : nat :=
  map_fold (λ _ v acc, v + acc) 0 m.

(** *** Page texts up to surrounding whitespace *)

(** Two extracted page texts that differ only in leading or trailing
    whitespace ([None] counts as the empty text). *)
Definition same_up_to_padding (t t' : option str) : Prop :=
  ∃ core l r l' r' : str,
    Forall (λ c, is_space c = true) l ∧ Forall (λ c, is_space c = true) r ∧
    Forall (λ c, is_space c = true) l' ∧ Forall (λ c, is_space c = true) r' ∧
    default [] t = l ++ core ++ r ∧ default [] t' = l' ++ core ++ r'.

End Spec.

Import Spec.

(* ===================================================================== *)
(** ** Notions used in the proofs *)
(* ===================================================================== *)

Module Sem.

(** *** The scan of [find_longest_match] *)

Section Indices.
Context `{Countable T}.

(** The positions of [e] in [b], ascending: what [b2j[e]] holds before
    the purge. *)
Definition indices (e : T) (b : list T) : list nat :=
  filter (λ j, b !! j = Some e) (seq 0 (length b)).

End Indices.

Section ScanDefs.
Context `{Countable T}.
Variables (a b : list T) (pop : gset T).
Variables alo blo bhi : nat.

(** [a[i]] and [b[j]] are the same element, and it is not popular. *)
Definition elt_hit (x y : option T) : Prop :=
  match x with
  | Some e => y = Some e ∧ e ∉ pop
  | None => False
  end.

#[global] Instance elt_hit_dec x y : Decision (elt_hit x y).
Proof. destruct x; simpl; apply _. Defined.

(** The pairs [(i, j)] the inner loop of [find_longest_match] visits. *)
Definition hit (i j : nat) : Prop :=
  alo ≤ i ∧ blo ≤ j ∧ j < bhi ∧ elt_hit (a !! i) (b !! j).

#[global] Instance hit_dec i j : Decision (hit i j).
Proof. unfold hit; apply _. Defined.

(** The length of the longest run of hits that ends at [(i, j)]: the value
    [newj2len[j]] holds after row [i]. *)
Fixpoint run_len (i j : nat) {struct i} : nat :=
  if decide (hit i j)
  then S (match i, j with S i', S j' => run_len i' j' | _, _ => 0 end)
  else 0.

(** Row [i - 1], empty for [i = 0]: what [j2len] holds when row [i]
    starts. *)
Definition run_prev (i j : nat) : nat :=
  match i with 0 => 0 | S i' => run_len i' j end.

(** The update of [(besti, bestj, bestsize)] at [(i, j)]. *)
Definition upd_best (best : block) (ij : nat * nat) : block :=
  let k := run_len ij.1 ij.2 in
  if decide (best.2 < k) then (ij.1 + 1 - k, ij.2 + 1 - k, k) else best.

End ScanDefs.

(** The candidates of the scan, in the order it visits them. *)
Definition cands {T} (b : list T) (lo n : nat) : list (nat * nat) :=
  i ← seq lo n; (λ j, (i, j)) <$> seq 0 (length b).

(** Pairs in the order of the scan: by row, then by column. *)
Definition lex_lt (p q : nat * nat) : Prop :=
  p.1 < q.1 ∨ (p.1 = q.1 ∧ p.2 < q.2).

(** The pairs of a rectangle, by row, then by column. *)
Definition grid (lo n lo' n' : nat) : list (nat * nat) :=
  i ← seq lo n; (λ j, (i, j)) <$> seq lo' n'.

(** The block stays in its window; an empty block is [(alo, blo, 0)]. *)
Definition in_window (alo ahi blo bhi : nat) (m : block) : Prop :=
  alo ≤ m.1.1 ∧ blo ≤ m.1.2 ∧
  (0 < m.2 → m.1.1 + m.2 ≤ ahi ∧ m.1.2 + m.2 ≤ bhi) ∧
  (m.2 = 0 → m.1.1 = alo ∧ m.1.2 = blo).

Section Guard.
Context `{Countable T}.
Variables a b : list T.

(** The guard of an extension loop at [(i, j)]. *)
Definition ext_guard (junk : bool) (i j : nat) : bool :=
  eqb (isbjunk (b !! j)) junk && elt_eq (a !! i) (b !! j).

End Guard.

(** *** The blocks and the opcodes *)

(** Blocks that follow one another without overlap, from [(i0, j0)] up to
    [(i1, j1)], in both sequences. *)
Fixpoint chain (i0 j0 : nat) (l : list block) (i1 j1 : nat) : Prop :=
  match l with
  | [] => i0 ≤ i1 ∧ j0 ≤ j1
  | (i, j, k) :: l' =>
    i0 ≤ i ∧ j0 ≤ j ∧ 0 < k ∧ chain (i + k) (j + k) l' i1 j1
  end.

(** The opcode for the gap between [(i, j)] and the next block at
    [(ai, bj)]. *)
Definition gap_op (i j ai bj : nat) : list opcode :=
  if bool_decide (i < ai) && bool_decide (j < bj)
  then [Opcode Replace i ai j bj]
  else if bool_decide (i < ai) then [Opcode Delete i ai j bj]
  else if bool_decide (j < bj) then [Opcode Insert i ai j bj]
  else [].

(** [get_opcodes] as a recursion on the blocks. *)
Fixpoint ops_from (i j : nat) (blocks : list block) : list opcode :=
  match blocks with
  | [] => []
  | (ai, bj, size) :: rest =>
    gap_op i j ai bj
      ++ (if bool_decide (0 < size)
          then [Opcode Equal ai (ai + size) bj (bj + size)] else [])
      ++ ops_from (ai + size) (bj + size) rest
  end.

Definition opt_block (m : block) : list block :=
  if bool_decide (0 < m.2) then [m] else [].

(** The collapse of adjacent blocks as a recursion on the blocks. *)
Fixpoint collapse_from (cur : block) (l : list block) : list block :=
  match l with
  | [] => opt_block cur
  | m :: l' =>
    if bool_decide (cur.1.1 + cur.2 = m.1.1) &&
       bool_decide (cur.1.2 + cur.2 = m.1.2)
    then collapse_from (cur.1.1, cur.1.2, cur.2 + m.2) l'
    else opt_block cur ++ collapse_from m l'
  end.

Section Inorder.
Context `{Countable T}.
Variables (a b : list T) (b2j : gmap T (list nat)).

(** The blocks of a window in the order of the indices: those before the
    longest block, the block, those after it. *)
Fixpoint inorder (n alo ahi blo bhi : nat) : list block :=
  match n with
  | 0 => []
  | S n' =>
    let '(i, j, k) := find_longest_match a b b2j alo ahi blo bhi in
    if bool_decide (0 < k) then
      (if bool_decide (alo < i) && bool_decide (blo < j)
       then inorder n' alo i blo j else [])
      ++ (i, j, k)
      :: (if bool_decide (i + k < ahi) && bool_decide (j + k < bhi)
          then inorder n' (i + k) ahi (j + k) bhi else [])
    else []
  end.

Definition inorder_w (w : window) : list block :=
  let '(alo, ahi, blo, bhi) := w in inorder (S (ahi - alo)) alo ahi blo bhi.

End Inorder.

(** The measure that decreases along the queue loop. *)
Definition weight (w : window) : nat := 2 * (w.1.1.2 - w.1.1.1) + 1.

Section AllBlocks.
Context `{Countable T}.
Variables a b : list T.

(** The blocks of the whole input, in the order of the indices. *)
Definition all_blocks : list block :=
  inorder a b (chain_b b) (S (length a)) 0 (length a) 0 (length b).

End AllBlocks.

(** Two blocks are adjacent when the second starts where the first ends,
    in both sequences. *)
Definition adj (m1 m2 : block) : Prop :=
  m1.1.1 + m1.2 = m2.1.1 ∧ m1.1.2 + m1.2 = m2.1.2.

Fixpoint no_adj (l : list block) : Prop :=
  match l with
  | [] => True
  | m1 :: l' =>
    match l' with [] => True | m2 :: _ => ¬ adj m1 m2 end ∧ no_adj l'
  end.

(** *** The word pass *)

Section WordPass.
Context {coord : Type}.
Implicit Types (h : highlights coord) (hl : list (highlights coord)).
Implicit Types (words : list (word coord)) (rs : list (bbox coord)).
Implicit Types pages : list (list (word coord)).

(** Rectangles appended to the red list ([c = true]) or to the green list
    ([c = false]). *)
Definition add_rects (c : bool) rs h : highlights coord :=
  if c then Highlights (red h ++ rs) (green h)
  else Highlights (red h) (green h ++ rs).

Definition add_rect (c : bool) : bbox coord → highlights coord → highlights coord :=
  if c then add_red else add_green.

(** What [hl[i]] becomes, entry by entry. *)
Definition at_page (i : nat) (f : highlights coord → highlights coord) hl
    (hl' : list (highlights coord)) : Prop :=
  ∀ idx, hl' !! idx = if decide (idx = i) then f <$> hl !! idx else hl !! idx.

Definition rect_at words (k : nat) : list (bbox coord) :=
  match words !! k with Some w => [word_rect w] | None => [] end.

(** The rectangles one opcode contributes on the left and on the right. *)
Definition op_red words (op : opcode) : list (bbox coord) :=
  match op_tag op with
  | Delete | Replace => word_rect <$> slice words (op_i1 op) (op_i2 op)
  | _ => []
  end.

Definition op_green words (op : opcode) : list (bbox coord) :=
  match op_tag op with
  | Insert | Replace => word_rect <$> slice words (op_j1 op) (op_j2 op)
  | _ => []
  end.

(** The opcodes of the word pass on page [i]: from the texts alone. *)
Definition word_opcodes (pages1 pages2 : list (list (word coord))) (i : nat)
    : list opcode :=
  get_opcodes (word_text <$> words_at pages1 i)
              (word_text <$> words_at pages2 i).

Definition page_red pages1 pages2 i : list (bbox coord) :=
  spec_red (words_at pages1 i) (word_opcodes pages1 pages2 i).

Definition page_green pages1 pages2 i : list (bbox coord) :=
  spec_green (words_at pages2 i) (word_opcodes pages1 pages2 i).

End WordPass.

End Sem.

Import Sem.

(* ===================================================================== *)
(** ** More of Python: [os.path.splitext], [str.lower], [str.split],
       [urllib.parse.quote] *)
(* ===================================================================== *)

Module PyLib.

Import Stdlib.Strings.Ascii.

(** What is left to the interpreter: the platform of [os.path], and the
    Unicode tables behind [str.isalnum] and [str.lower] beyond ASCII
    ([uni_lower s i] is what the character at index [i] of [s] becomes). *)
Class Runtime := {
  os_nt : bool;
  uni_alnum : N → bool;
  uni_lower : str → nat → str }.

(** [ord(c)] of an ASCII character. *)
Definition ord (c : Ascii.ascii) : N := N.of_nat (Ascii.nat_of_ascii c).
Arguments ord c%_char.

Definition is_ascii (c : N) : bool := (c <? 128)%N.

Definition ascii_alnum (c : N) : bool :=
  ((48 <=? c) && (c <=? 57) || (65 <=? c) && (c <=? 90) ||
   (97 <=? c) && (c <=? 122))%N.

(** [s.rfind(c)] for a one-character [c]: the highest index, or -1. *)
Fixpoint rfind (c : N) (s : str) : Z :=
  match s with
  | [] => -1
  | x :: s' =>
    let r := rfind c s' in
    if (0 <=? r)%Z then (r + 1)%Z
    else if (x =? c)%N then 0%Z else (-1)%Z
  end.

(** [s.split(sep)] for a one-character [sep]; the result is never empty. *)
Fixpoint split (sep : N) (s : str) : list str :=
  match s with
  | [] => [[]]
  | c :: s' =>
    if (c =? sep)%N then [] :: split sep s'
    else match split sep s' with
         | [] => [[c]]
         | x :: xs => (c :: x) :: xs
         end
  end.

(** [s.strip(chars)] *)
Fixpoint lstrip_chars (chars s : str) : str :=
  match s with
  | [] => []
  | c :: s' => if bool_decide (c ∈ chars) then lstrip_chars chars s' else s
  end.

Definition rstrip_chars (chars s : str) : str :=
  reverse (lstrip_chars chars (reverse s)).

Definition strip_chars (chars s : str) : str :=
  rstrip_chars chars (lstrip_chars chars s).

(** [enumerate(l, start)] *)
Definition enumerate_from {A} (start : nat) (l : list A) : list (nat * A) :=
  imap (λ i x, (start + i, x)) l.

(** [l[k]] for a Python integer [k]: a negative [k] counts from the end;
    [None] is [IndexError]. *)
Definition py_index {A} (l : list A) (k : Z) : option A :=
  if (0 <=? k)%Z then l !! Z.to_nat k
  else if (- Z.of_nat (length l) <=? k)%Z
       then l !! Z.to_nat (Z.of_nat (length l) + k)
       else None.

(** [range(a, b)] *)
Definition range (a b : Z) : list Z := seqZ a (b - a).

(** [s.endswith(suffix)] *)
Definition endswith (s suffix : str) : bool :=
  bool_decide (drop (length s - length suffix) s = suffix).

Section Runtime.
Context `{Runtime}.

(** [str.isalnum] on one code point. *)
Definition is_alnum (c : N) : bool :=
  if is_ascii c then ascii_alnum c else uni_alnum c.

(** [\w] of [re] on a [str] pattern. *)
Definition is_word (c : N) : bool := is_alnum c || (c =? ord "_")%N.

Definition ascii_lower (c : N) : N :=
  if ((65 <=? c) && (c <=? 90))%N then (c + 32)%N else c.

(** [s.lower()] *)
Definition lower (s : str) : str :=
  mjoin (imap (λ i c, if is_ascii c then [ascii_lower c] else uni_lower s i)
              s).

(** [genericpath._splitext(p, sep, altsep, ".")] as [posixpath] and
    [ntpath] call it: the extension starts at the last dot of the last
    component, unless that component has only dots before it. *)
Definition splitext (p : str) : str * str :=
  let sepIndex :=
    if os_nt then Z.max (rfind (ord "\") p) (rfind (ord "/") p)
    else rfind (ord "/") p in
  let dotIndex := rfind (ord ".") p in
  if bool_decide (sepIndex < dotIndex)%Z &&
     existsb (λ k, bool_decide (p !! Z.to_nat k ≠ Some (ord ".")))
             (seqZ (sepIndex + 1) (dotIndex - (sepIndex + 1)))
  then (take (Z.to_nat dotIndex) p, drop (Z.to_nat dotIndex) p)
  else (p, []).

End Runtime.

(** [c.encode("utf-8")] for one code point; surrogates cannot be
    encoded. *)
Definition utf8 (c : N) : option (list N) :=
  if (c <? 128)%N then Some [c]
  else if (c <? 2048)%N then Some [192 + c / 64; 128 + c mod 64]%N
  else if ((55296 <=? c) && (c <=? 57343))%N then None
  else if (c <? 65536)%N then
    Some [224 + c / 4096; 128 + (c / 64) mod 64; 128 + c mod 64]%N
  else if (c <? 1114112)%N then
    Some [240 + c / 262144; 128 + (c / 4096) mod 64;
          128 + (c / 64) mod 64; 128 + c mod 64]%N
  else None.

Definition encode_utf8 (s : str) : option (list N) :=
  mjoin <$> mapM utf8 s.

(** [_ALWAYS_SAFE] of [urllib.parse] *)
Definition always_safe (b : N) : bool :=
  ascii_alnum b || bool_decide (b ∈ py "_.-~").

Definition hex_digit (n : N) : N :=
  if (n <? 10)%N then (48 + n)%N else (55 + n)%N.

(** [_Quoter(safe).__missing__(b)]:
    [chr(b) if b in self.safe else '%{:02X}'.format(b)] *)
Definition quoter (safe : str) (b : N) : str :=
  if always_safe b || bool_decide (b ∈ safe) then [b]
  else [ord "%"; hex_digit (b / 16); hex_digit (b mod 16)].

(** [quote_from_bytes(bs, safe)]; the early returns for an empty [bs] and
    for a [bs] of safe bytes give what the general case gives. *)
Definition quote_from_bytes (bs : list N) (safe : str) : str :=
  mjoin (quoter safe <$> bs).

(** [quote(string)] with the default [safe='/'], [encoding='utf-8'],
    [errors='strict']; [None] when the encoding raises
    [UnicodeEncodeError]. *)
Definition quote (s : str) : option str :=
  match s with
  | [] => Some []
  | _ => bs ← encode_utf8 s; Some (quote_from_bytes bs (py "/"))
  end.

End PyLib.

(* ===================================================================== *)
(** ** Jobs (app/models/job.py) *)
(* ===================================================================== *)

Module Jobs.

(** [JobType] *)
Inductive JobType :=
  | MERGE | SPLIT | SPLIT_BY_RANGE | DELETE | EXTRACT | REORDER
  | COMPRESS | REPAIR | OCR
  | IMG_TO_PDF | PDF_TO_IMG | PDF_TO_PDFA | PDF_TO_TEXT | HTML_TO_PDF
  | OFFICE_TO_PDF | PDF_TO_OFFICE
  | ROTATE | CROP | ADD_PAGE_NUMBERS | ADD_WATERMARK | ADD_STAMP | FLATTEN
  | REMOVE_BLANKS | EDIT_PDF_EXTRACT | EDIT_PDF_REPLACE | EDIT_PDF_PREPARE
  | PROTECT | UNLOCK | REDACT | SIGN_PDF | SANITIZE | COMPARE_PDF
  | EXTRACT_IMAGES.

#[global] Instance JobType_eq_dec : EqDecision JobType.
Proof. solve_decision. Defined.

(** What was raised inside the [try] of [worker_loop].  [job.error] is
    [str(e)]; of that text the embedding keeps which exception it was and,
    for the [ValueError]s of the branches, which check raised it. *)
Inductive exn :=
  | BadPages            (* "Page number(s) ... do not exist. ..." *)
  | BadOrder            (* "Order must list each page exactly once ..." *)
  | BadRange (a b : Z)  (* "Range a-b is invalid. ..." *)
  | Unsupported         (* "Unsupported job type: ..." *)
  | KeyError
  | IndexError
  | LibraryError.       (* raised by pypdf, zipfile or open *)

#[global] Instance exn_eq_dec : EqDecision exn.
Proof. solve_decision. Defined.

(** The entries of [job.params] the branches below read; an absent key is
    [None]. *)
Record params := Params
  { p_pages : option (list Z);
    p_angle : option Z;
    p_order : option (list Z);
    p_ranges : option (list (Z * Z));
    p_format : option str;
    p_input_filenames : option (list (option str)) }.

(** [{}] *)
Definition no_params : params := Params None None None None None None.

(** [Job], without [created_at]. *)
Record job := Job
  { job_id : str;
    job_type : JobType;
    status : job_status;
    input_paths : list str;
    output_path : str;
    job_params : option params;
    error : option exn;
    output_filename : option str }.

Definition set_status (s : job_status) (j : job) : job :=
  Job (job_id j) (job_type j) s (input_paths j) (output_path j)
      (job_params j) (error j) (output_filename j).

Definition set_output_path (p : str) (j : job) : job :=
  Job (job_id j) (job_type j) (status j) (input_paths j) p
      (job_params j) (error j) (output_filename j).

Definition set_error (e : exn) (j : job) : job :=
  Job (job_id j) (job_type j) (status j) (input_paths j) (output_path j)
      (job_params j) (Some e) (output_filename j).

Definition set_output_filename (n : str) (j : job) : job :=
  Job (job_id j) (job_type j) (status j) (input_paths j) (output_path j)
      (job_params j) (error j) (Some n).

End Jobs.

(* ===================================================================== *)
(** ** Download names (app/utils/output_names.py) *)
(* ===================================================================== *)

Module OutputNames.

Import Stdlib.Strings.Ascii PyLib Jobs.

Section Names.
Context `{Runtime}.

(** [re.sub(r'[^\w\s\-_.]', "_", base)] *)
Definition sub_unsafe (base : str) : str :=
  (λ c, if is_word c || is_space c || bool_decide (c ∈ py "-_.") then c
        else ord "_") <$> base.

(** [re.sub(r'[\s]+', "_", base)]: every run of whitespace becomes one
    underscore; [in_run] tells that the character before was
    whitespace. *)
Fixpoint sub_spaces (in_run : bool) (s : str) : str :=
  match s with
  | [] => []
  | c :: s' =>
    if is_space c then
      if in_run then sub_spaces true s' else ord "_" :: sub_spaces true s'
    else c :: sub_spaces false s'
  end.

(** [_safe_basename(name, max_len)] *)
Definition safe_basename (name : option str) (max_len : nat) : str :=
  match name with
  | None => py "document"
  | Some name =>
    if negb (truthy name) || negb (truthy (strip name)) then py "document"
    else
      let base := (splitext (strip name)).1 in
      let base := sub_unsafe base in
      let base := strip_chars (py "._") (sub_spaces false base) in
      if truthy base then take max_len base else py "document"
  end.

(** [JOB_SUFFIX.get(job_type)] *)
Definition JOB_SUFFIX (t : JobType) : option str :=
  match t with
  | MERGE => Some (py "_merge")
  | SPLIT => Some (py "_split")
  | SPLIT_BY_RANGE => Some (py "_split_ranges")
  | DELETE => Some (py "_delete")
  | EXTRACT => Some (py "_extract")
  | REORDER => Some (py "_reorder")
  | COMPRESS => Some (py "_compress")
  | REPAIR => Some (py "_repaired")
  | OCR => Some (py "_ocr")
  | IMG_TO_PDF => Some (py "_images")
  | PDF_TO_IMG => Some (py "_images")
  | PDF_TO_PDFA => Some (py "_pdfa")
  | PDF_TO_TEXT => Some (py "_text")
  | HTML_TO_PDF => Some (py "_pdf")
  | OFFICE_TO_PDF => Some (py "_pdf")
  | ROTATE => Some (py "_rotate")
  | CROP => Some (py "_crop")
  | ADD_PAGE_NUMBERS => Some (py "_numbered")
  | ADD_WATERMARK => Some (py "_watermark")
  | ADD_STAMP => Some (py "_stamp")
  | FLATTEN => Some (py "_flatten")
  | REMOVE_BLANKS => Some (py "_no_blanks")
  | PROTECT => Some (py "_protected")
  | UNLOCK => Some (py "_unlocked")
  | REDACT => Some (py "_redacted")
  | SIGN_PDF => Some (py "_signed")
  | SANITIZE => Some (py "_sanitized")
  | COMPARE_PDF => Some (py "_compare")
  | EXTRACT_IMAGES => Some (py "_images")
  | PDF_TO_OFFICE | EDIT_PDF_EXTRACT | EDIT_PDF_REPLACE
  | EDIT_PDF_PREPARE => None
  end.

Definition ZIP_OUTPUT_TYPES : list JobType :=
  [SPLIT; SPLIT_BY_RANGE; PDF_TO_IMG; EXTRACT_IMAGES; COMPARE_PDF].

(** The extension [make_output_filename] settles on. *)
Definition output_ext (job_type : JobType) (output_path : str) : str :=
  let ext := lower (splitext output_path).2 in
  let ext := if negb (truthy ext) &&
                bool_decide (job_type ∈ ZIP_OUTPUT_TYPES)
             then py ".zip" else ext in
  if negb (truthy ext) then py ".pdf" else ext.

(** [make_output_filename(job_type, input_filenames, output_path)] *)
Definition make_output_filename (job_type : JobType)
    (input_filenames : option (list (option str))) (output_path : str)
    : str :=
  let names := default [] input_filenames in
  let base := match names with
              | name :: _ => safe_basename name 80
              | [] => py "document"
              end in
  let suffix := default [] (JOB_SUFFIX job_type) in
  let ext := output_ext job_type output_path in
  base ++ suffix ++ ext.

End Names.

End OutputNames.

(* ===================================================================== *)
(** ** Validation (app/security/validators.py) *)
(* ===================================================================== *)

Module Validators.

Import Stdlib.Strings.Ascii PyLib.

(** The fragment of [re] that [UUID_PATTERN] is written in: a sequence of
    items [set{n}], a set being a list of character ranges. *)
Definition charset : Type := list (N * N).

Definition in_charset (cs : charset) (c : N) : bool :=
  existsb (λ r : N * N, (r.1 <=? c) && (c <=? r.2))%N cs.

Definition hex : charset := [(ord "0", ord "9"); (ord "a", ord "f")].
Definition dash : charset := [(ord "-", ord "-")].

(** [^[0-9a-f]{8}-[0-9a-f]{4}-[4][0-9a-f]{3}-[89ab][0-9a-f]{3}-[0-9a-f]{12}$] *)
Definition UUID_PATTERN : list (charset * nat) :=
  [(hex, 8); (dash, 1); (hex, 4); (dash, 1);
   ([(ord "4", ord "4")], 1); (hex, 3); (dash, 1);
   ([(ord "8", ord "9"); (ord "a", ord "b")], 1); (hex, 3); (dash, 1);
   (hex, 12)].

(** One character against a set under [re.IGNORECASE]: its lower case is
    looked up in the set.  No character outside ASCII has its lower case
    among the characters of [UUID_PATTERN]. *)
Definition match_char (cs : charset) (c : N) : bool :=
  is_ascii c && in_charset cs (ascii_lower c).

(** [set{n}] at the start of [s]: the rest of [s], if it matches. *)
Fixpoint match_repeat (cs : charset) (n : nat) (s : str) : option str :=
  match n with
  | 0 => Some s
  | S n' =>
    match s with
    | c :: s' => if match_char cs c then match_repeat cs n' s' else None
    | [] => None
    end
  end.

Fixpoint match_items (p : list (charset * nat)) (s : str) : option str :=
  match p with
  | [] => Some s
  | (cs, n) :: p' => s' ← match_repeat cs n s; match_items p' s'
  end.

(** [pattern.match(s)] for a pattern [^items$]: [$] holds at the end of
    [s] and before a line feed that ends [s]. *)
Definition re_match (p : list (charset * nat)) (s : str) : bool :=
  match match_items p s with
  | Some rest => bool_decide (rest = [] ∨ rest = [LF])
  | None => false
  end.

(** [validate_job_id(job_id)]: [true] when it returns, [false] when it
    raises [ValueError]. *)
Definition validate_job_id (job_id : str) : bool :=
  negb (negb (truthy job_id) || negb (re_match UUID_PATTERN (strip job_id))).

Definition MAX_FILE_SIZE : Z := 25 * 1024 * 1024.
Definition MAX_PAGE_NUMBER : Z := 50000.

(** [validate_file_size(size)] with the default [max_size] *)
Definition validate_file_size (size : Z) : bool :=
  negb (bool_decide (size ≤ 0)%Z) && negb (bool_decide (MAX_FILE_SIZE < size)%Z).

(** [validate_page_numbers(page_list, allow_empty=False)] with the default
    bounds *)
Definition validate_page_numbers (page_list : list Z) : bool :=
  match page_list with
  | [] => false
  | _ =>
    match filter (λ p, ¬ (1 ≤ p ∧ p ≤ MAX_PAGE_NUMBER))%Z page_list with
    | [] => true
    | _ => false
    end
  end.

End Validators.

(* ===================================================================== *)
(** ** The page branches of [worker_loop] (app/workers/worker.py) *)
(* ===================================================================== *)

Module Worker.

Import Stdlib.Strings.Ascii PyLib Jobs OutputNames.

Section Worker.
Context `{Runtime} {page : Type}.

(** What a file of the job directory holds: the pages of a PDF, the
    entries of a ZIP archive (name and pages of each member), or text. *)
Inductive file :=
  | Pdf (pages : list page)
  | Zip (entries : list (str * list page))
  | Text (s : str).

(** The job directory: [os.path.join(os.path.dirname(job.output_path),
    name)] is the file [name] of it, and so are the paths the routes give
    the job. *)
Abbreviation files := (gmap str file).

(** A computation inside the [try]: it reads and writes the directory and
    the job, and ends with a value or an exception. *)
Definition W (A : Type) : Type := files * job → (exn + A) * (files * job).

Definition ret {A} (x : A) : W A := λ st, (inr x, st).

Definition bind {A B} (m : W A) (f : A → W B) : W B :=
  λ st, match m st with
        | (inl e, st') => (inl e, st')
        | (inr x, st') => f x st'
        end.

Definition raise {A} (e : exn) : W A := λ st, (inl e, st).

#[global] Instance W_ret : MRet W := @ret.
#[global] Instance W_bind : MBind W := λ A B f m, bind m f.

(** [for x in l: acc = f(acc, x)] *)
Fixpoint foldM {A B} (f : B → A → W B) (acc : B) (l : list A) : W B :=
  match l with
  | [] => mret acc
  | x :: l' => acc' ← f acc x; foldM f acc' l'
  end.

Definition get_job : W job := λ st, (inr st.2, st).

Definition modify_job (f : job → job) : W unit :=
  λ st, (inr (), (st.1, f st.2)).

(** A lookup that raises [e] when there is nothing. *)
Definition lift {A} (e : exn) (o : option A) : W A :=
  match o with
  | Some x => mret x
  | None => raise e
  end.

(** [with open(path, "wb") as f: writer.write(f)]; the file system is
    taken not to fail. *)
Definition write_file (path : str) (c : file) : W unit :=
  λ st, (inr (), (<[path := c]> st.1, st.2)).

(** [PdfReader(path)] with its [pages]. *)
Definition PdfReader (path : str) : W (list page) :=
  λ st, match st.1 !! path with
        | Some (Pdf pages) => (inr pages, st)
        | _ => (inl LibraryError, st)
        end.

(** [job.input_paths[i]] *)
Definition input_path (i : nat) : W str :=
  j ← get_job; lift IndexError (input_paths j !! i).

(** The libraries around the branches: [page.rotate(angle)] of pypdf
    ([None] when it raises), [page.extract_text()] of pdfplumber and of
    pypdf, whether pdfplumber can be imported, and the branches that only
    drive external tools. *)
Record env := Env
  { rotate : Z → page → option page;
    plumber_text : page → option str;
    pypdf_text : page → option str;
    has_pdfplumber : bool;
    external : JobType → W unit }.

(** [bad = [p for p in pages if p < 1 or p > n]; if bad: raise
    ValueError(...)] *)
Definition check_pages (n : nat) (pages : list Z) : W unit :=
  match filter (λ p, p < 1 ∨ Z.of_nat n < p)%Z pages with
  | [] => mret ()
  | _ => raise BadPages
  end.

(** [with zipfile.ZipFile(zip_path, "w") as zipf:
       for fp in split_files: zipf.write(fp, arcname=os.path.basename(fp))] *)
Definition zip_files (zip_path : str) (split_files : list str) : W unit :=
  write_file zip_path (Zip []);;
  entries ← foldM (λ entries fp,
                     pages ← PdfReader fp;
                     mret (entries ++ [(fp, pages)]))
                  [] split_files;
  write_file zip_path (Zip entries).

(** MERGE, lines 94-98 *)
Definition merge_branch : W unit :=
  j ← get_job;
  writer ← foldM (λ writer path,
                    pages ← PdfReader path;
                    mret (writer ++ pages))
                 [] (input_paths j);
  write_file (output_path j) (Pdf writer).

Definition split_page_name (i : nat) : str :=
  py "split_page_" ++ str_of_nat i ++ py ".pdf".

Definition split_output_zip : str := py "split_output.zip".

(** SPLIT, lines 102-118 *)
Definition split_branch : W unit :=
  path ← input_path 0;
  reader ← PdfReader path;
  let zip_path := split_output_zip in
  split_files ← foldM (λ split_files ip,
                         let out_path := split_page_name ip.1 in
                         write_file out_path (Pdf [ip.2]);;
                         mret (split_files ++ [out_path]))
                      [] (enumerate_from 1 reader);
  zip_files zip_path split_files;;
  modify_job (set_output_path zip_path).

(** ROTATE, lines 121-137 *)
Definition rotate_branch (e : env) (params : params) : W unit :=
  path ← input_path 0;
  reader ← PdfReader path;
  let n := length reader in
  pages ← lift KeyError (p_pages params);
  let pages_to_rotate : gset Z := list_to_set pages in
  check_pages n (elements pages_to_rotate);;
  angle ← lift KeyError (p_angle params);
  writer ← foldM (λ writer ip,
                    page ← (if decide (Z.of_nat ip.1 ∈ pages_to_rotate)
                            then lift LibraryError (rotate e angle ip.2)
                            else mret ip.2);
                    mret (writer ++ [page]))
                 [] (enumerate_from 1 reader);
  j ← get_job;
  write_file (output_path j) (Pdf writer).

(** DELETE, lines 140-154 *)
Definition delete_branch (params : params) : W unit :=
  path ← input_path 0;
  reader ← PdfReader path;
  let n := length reader in
  pages ← lift KeyError (p_pages params);
  let delete_pages : gset Z := list_to_set pages in
  check_pages n (elements delete_pages);;
  let writer :=
    foldl (λ writer ip,
             if decide (Z.of_nat ip.1 ∉ delete_pages)
             then writer ++ [ip.2] else writer)
          [] (enumerate_from 1 reader) in
  j ← get_job;
  write_file (output_path j) (Pdf writer).

(** [for i in page_list: writer.add_page(reader.pages[i - 1])] *)
Definition add_pages (reader : list page) (writer : list page)
    (page_list : list Z) : W (list page) :=
  foldM (λ writer i,
           page ← lift IndexError (py_index reader (i - 1));
           mret (writer ++ [page]))
        writer page_list.

(** EXTRACT, lines 157-170 *)
Definition extract_branch (params : params) : W unit :=
  path ← input_path 0;
  reader ← PdfReader path;
  page_list ← lift KeyError (p_pages params);
  let n := length reader in
  check_pages n page_list;;
  writer ← add_pages reader [] page_list;
  j ← get_job;
  write_file (output_path j) (Pdf writer).

(** REORDER, lines 173-190 *)
Definition reorder_branch (params : params) : W unit :=
  path ← input_path 0;
  reader ← PdfReader path;
  order ← lift KeyError (p_order params);
  let n := length reader in
  check_pages n order;;
  (if bool_decide (length order ≠ n) ||
      bool_decide (list_to_set order ≠@{gset Z}
                   list_to_set (range 1 (Z.of_nat n + 1)))
   then raise BadOrder else mret ());;
  writer ← add_pages reader [] order;
  j ← get_job;
  write_file (output_path j) (Pdf writer).

Definition split_name (idx : nat) : str :=
  py "split_" ++ str_of_nat idx ++ py ".pdf".

(** [for a, b in params["ranges"]:
       if a < 1 or b > n or a > b: raise ValueError(...)] *)
Fixpoint check_ranges (n : nat) (ranges : list (Z * Z)) : W unit :=
  match ranges with
  | [] => mret ()
  | (a, b) :: ranges' =>
    if bool_decide (a < 1 ∨ Z.of_nat n < b ∨ b < a)%Z
    then raise (BadRange a b)
    else check_ranges n ranges'
  end.

(** SPLIT_BY_RANGE, lines 548-571 *)
Definition split_by_range_branch (params : params) : W unit :=
  path ← input_path 0;
  reader ← PdfReader path;
  let zip_path := split_output_zip in
  let n := length reader in
  ranges ← lift KeyError (p_ranges params);
  check_ranges n ranges;;
  split_files ← foldM (λ split_files iab,
                         w ← add_pages reader []
                               (range iab.2.1 (iab.2.2 + 1));
                         let out_path := split_name iab.1 in
                         write_file out_path (Pdf w);;
                         mret (split_files ++ [out_path]))
                      [] (enumerate_from 1 ranges);
  zip_files zip_path split_files;;
  modify_job (set_output_path zip_path).

(** [f"---\n## Page {k}\n\n{t}"] *)
Definition markdown_part (k : nat) (t : str) : str :=
  py "---" ++ [LF] ++ py "## Page " ++ str_of_nat k ++ [LF; LF] ++ t.

(** The loop over [pdf.pages] of pdfplumber, lines 526-532 *)
Definition text_parts_pdfplumber (e : env) (fmt : str)
    (pages : list page) : list str :=
  foldl (λ parts page,
           let t := default [] (plumber_text e page) in
           if bool_decide (fmt = py "markdown")
           then parts ++ [markdown_part (length parts + 1) t]
           else parts ++ [t])
        [] pages.

(** The loop over [reader.pages] of pypdf, lines 537-543 *)
Definition text_parts_pypdf (e : env) (fmt : str)
    (pages : list page) : list str :=
  foldl (λ parts ip,
           let t := default [] (pypdf_text e ip.2) in
           if bool_decide (fmt = py "markdown")
           then parts ++ [markdown_part (ip.1 + 1) t]
           else parts ++ [t])
        [] (enumerate_from 0 pages).

(** PDF_TO_TEXT, lines 520-545: with pdfplumber, and without it
    ([except ImportError]) with pypdf. *)
Definition pdf_to_text_branch (e : env) (params : params) : W unit :=
  let fmt := default (py "text") (p_format params) in
  path ← input_path 0;
  pages ← PdfReader path;
  let parts := if has_pdfplumber e then text_parts_pdfplumber e fmt pages
               else text_parts_pypdf e fmt pages in
  j ← get_job;
  write_file (output_path j) (Text (join [LF; LF] parts)).

(** The [if]/[elif] chain over [job.job_type]: the three EDIT_PDF types
    have no branch and reach the final [else]. *)
Definition branch (e : env) (params : params) (t : JobType) : W unit :=
  match t with
  | MERGE => merge_branch
  | SPLIT => split_branch
  | ROTATE => rotate_branch e params
  | DELETE => delete_branch params
  | EXTRACT => extract_branch params
  | REORDER => reorder_branch params
  | PDF_TO_TEXT => pdf_to_text_branch e params
  | SPLIT_BY_RANGE => split_by_range_branch params
  | EDIT_PDF_EXTRACT | EDIT_PDF_REPLACE | EDIT_PDF_PREPARE =>
    raise Unsupported
  | _ => external e t
  end.

(** The body of the [try], lines 90-1202 *)
Definition worker_body (e : env) : W unit :=
  modify_job (set_status PROCESSING);;
  j ← get_job;
  let params := default no_params (job_params j) in
  branch e params (job_type j);;
  j ← get_job;
  let input_filenames :=
    p_input_filenames (default no_params (job_params j)) in
  modify_job (set_output_filename
                (make_output_filename (job_type j) input_filenames
                                      (output_path j)));;
  modify_job (set_status COMPLETED).

(** One turn of [worker_loop] on the job taken from the queue:
    [try: ... except Exception as e: job.status = FAILED;
     job.error = str(e)]. *)
Definition worker_turn (e : env) (st : files * job) : files * job :=
  match worker_body e st with
  | (inr _, st') => st'
  | (inl x, st') => (st'.1, set_error x (set_status FAILED st'.2))
  end.

End Worker.

Arguments file : clear implicits.
Arguments env : clear implicits.

End Worker.

(* ===================================================================== *)
(** ** The routes that answer for a job (app/api/routes/jobs.py,
       app/api/routes/download.py) *)
(* ===================================================================== *)

Module Routes.

Import Stdlib.Strings.Ascii PyLib Jobs OutputNames Validators.

(** [JOB_STORE] *)
Abbreviation store := (gmap str job).

(** [GET /jobs/{job_id}] *)
Definition job_status_route (JOB_STORE : store) (job_id : str)
    : response job :=
  if negb (validate_job_id job_id) then HttpError 404
  else match JOB_STORE !! job_id with
       | None => HttpError 404
       | Some job => Served job
       end.

Definition MEDIA_TYPES : gmap str str :=
  list_to_map
  [(py ".pdf", py "application/pdf");
   (py ".zip", py "application/zip");
   (py ".txt", py "text/plain");
   (py ".json", py "application/json");
   (py ".docx",
    py "application/vnd.openxmlformats-officedocument.wordprocessingml.document");
   (py ".xlsx",
    py "application/vnd.openxmlformats-officedocument.spreadsheetml.sheet");
   (py ".pptx",
    py "application/vnd.openxmlformats-officedocument.presentationml.presentation")].

(** [MEDIA_TYPES.get(ext, "application/octet-stream")] *)
Definition media_type_get (ext : str) : str :=
  default (py "application/octet-stream")
          (MEDIA_TYPES !! ext).

(** What [FileResponse] is built from. *)
Record file_response := FileResponse
  { fr_path : str;
    fr_filename : str;
    fr_media_type : str;
    fr_content_disposition : str }.

Section Download.
Context `{Runtime}.

(** ["." + filename.split(".")[-1].lower() if "." in filename else ".pdf"] *)
Definition download_ext (filename : str) : str :=
  if bool_decide (ord "." ∈ filename)
  then ord "." :: lower (default [] (last (split (ord ".") filename)))
  else py ".pdf".

(** [f'{disposition}; filename="{quote(filename)}"'] *)
Definition content_disposition (disposition filename : str) : option str :=
  q ← quote filename;
  Some (disposition ++ py "; filename=" ++ [34%N] ++ q ++ [34%N]).

(** [_get_completed_job_response(job_id, disposition)]; an exception of
    [quote] is not caught and is answered with status 500. *)
Definition get_completed_job_response (JOB_STORE : store) (job_id : str)
    (disposition : str) : response file_response :=
  if negb (validate_job_id job_id) then HttpError 404
  else
    match JOB_STORE !! job_id with
    | Some job =>
      if decide (status job = COMPLETED) then
        let filename := match output_filename job with
                        | Some (c :: s) => c :: s
                        | _ => py "result.pdf"
                        end in
        let ext := download_ext filename in
        let media_type := media_type_get ext in
        match content_disposition disposition filename with
        | Some content_disp =>
          Served (FileResponse (output_path job) filename media_type
                               content_disp)
        | None => HttpError 500
        end
      else HttpError 400
    | None => HttpError 400
    end.

(** [GET /download/{job_id}] *)
Definition download (JOB_STORE : store) (job_id : str)
    : response file_response :=
  get_completed_job_response JOB_STORE job_id (py "attachment").

(** [GET /preview/{job_id}] *)
Definition preview (JOB_STORE : store) (job_id : str)
    : response file_response :=
  get_completed_job_response JOB_STORE job_id (py "inline").

End Download.

End Routes.

(* ===================================================================== *)
(** ** The annotated documents: [merge_highlight_into_pdf], lines 958-991 *)
(* ===================================================================== *)

Module Render.

Section Render.
Context {coord page : Type}.

(** [c.setFillColorRGB(1, 0, 0, alpha=0.35)] and
    [c.setFillColorRGB(0, 0.7, 0, alpha=0.35)] *)
Inductive fill := FillRed | FillGreen.

(** [c.rect(x, y, width, height, fill=1, stroke=0)] in a fill colour. *)
Record rect := Rect
  { r_fill : fill; r_x : coord; r_y : coord;
    r_width : coord; r_height : coord }.

(** What the body leaves to Python and the libraries: the subtraction of
    floats, [max(0.5, x)], [float(page.mediabox.height)], and
    [page.merge_page(overlay)] for the overlay the rectangles were drawn
    on. *)
Record lib := Lib
  { fsub : coord → coord → coord;
    at_least_half : coord → coord;
    height : page → coord;
    merge_page : page → list rect → page }.

(** [y = h - bottom;
     c.rect(x0, y, max(0.5, x1 - x0), max(0.5, bottom - top), ...)] *)
Definition draw (l : lib) (h : coord) (c : fill) (r : bbox coord) : rect :=
  match r with
  | (x0, top, x1, bottom) =>
    Rect c x0 (fsub l h bottom) (at_least_half l (fsub l x1 x0))
         (at_least_half l (fsub l bottom top))
  end.

(** [merge_highlight_into_pdf(input_path, output_path, page_highlights)]
    on the pages of the reader: the pages the writer ends with.  An entry
    of [page_highlights] is a dict of two keys and so never false. *)
Definition merge_highlight_into_pdf (l : lib) (reader : list page)
    (page_highlights : list (highlights coord)) : list page :=
  foldl (λ writer ip,
           match page_highlights !! ip.1 with
           | None => writer ++ [ip.2]
           | Some hl =>
             let red_rects := red hl in
             let green_rects := green hl in
             match red_rects, green_rects with
             | [], [] => writer ++ [ip.2]
             | _, _ =>
               let h := height l ip.2 in
               writer ++ [merge_page l ip.2
                            ((draw l h FillRed <$> red_rects) ++
                             (draw l h FillGreen <$> green_rects))]
             end
           end)
        [] (enumerate reader).

(** The page as it is written: unchanged without rectangles, and else
    with the red rectangles and then the green ones drawn over it. *)
Definition overlaid (l : lib) (pg : page) (reds greens : list (bbox coord))
    : page :=
  match reds, greens with
  | [], [] => pg
  | _, _ => merge_page l pg ((draw l (height l pg) FillRed <$> reds) ++
                             (draw l (height l pg) FillGreen <$> greens))
  end.

End Render.

Arguments rect : clear implicits.
Arguments lib : clear implicits.

End Render.

(* ===================================================================== *)
(** ** Notions used in the statements about names, jobs and routes *)
(* ===================================================================== *)

Module Notions.

Import Stdlib.Strings.Ascii PyLib Jobs OutputNames Validators Worker Routes.

(** The characters a base name is made of: never whitespace; a word
    character, a hyphen or a dot. *)
Definition name_char `{Runtime} (c : N) : Prop :=
  is_space c = false ∧ (is_word c = true ∨ c = ord "-" ∨ c = ord ".").

(** The characters [quote] leaves or produces. *)
Definition url_char (c : N) : Prop :=
  ascii_alnum c = true ∨ c ∈ py "_.-~/%".

(** The characters a version-4 UUID admits at each of its 36 positions,
    in either case. *)
Definition uuid4_shape : list str :=
  let hex := py "0123456789abcdefABCDEF" in
  let dash := py "-" in
  replicate 8 hex ++ [dash] ++ replicate 4 hex ++ [dash] ++
  [py "4"] ++ replicate 3 hex ++ [dash] ++
  [py "89abAB"] ++ replicate 3 hex ++ [dash] ++ replicate 12 hex.

(** The sets of an item list of [re], one per character to match. *)
Definition expand (p : list (charset * nat)) : list charset :=
  p ≫= λ it, replicate it.2 it.1.

Section Jobs.
Context `{Runtime} {page : Type}.

(** [params[key]] *)
Definition param {A} (key : params → option A) (j : job) : option A :=
  key (default no_params (job_params j)).

(** The pages of the document at [job.input_paths[0]]. *)
Definition input_pdf (st : gmap str (file page) * job)
    : option (list page) :=
  path ← input_paths st.2 !! 0;
  match st.1 !! path with
  | Some (Pdf pages) => Some pages
  | _ => None
  end.

(** The job as a turn of the worker leaves it when the branch has raised
    nothing: completed, with its download name. *)
Definition completed (j : job) : job :=
  Job (job_id j) (job_type j) COMPLETED (input_paths j) (output_path j)
      (job_params j) (error j)
      (Some (make_output_filename (job_type j)
               (param p_input_filenames j) (output_path j))).

(** The job as a turn of the worker leaves it when [x] was raised. *)
Definition failed (x : exn) (j : job) : job :=
  Job (job_id j) (job_type j) FAILED (input_paths j) (output_path j)
      (job_params j) (Some x) (output_filename j).

(** The pages whose number, counted from 1, is not in [req]. *)
Definition kept_pages (ps : list page) (req : list Z) : list page :=
  (filter (λ ip, Z.of_nat ip.1 ∉ req) (enumerate_from 1 ps)).*2.

(** The pages of the document at [path], if there is one. *)
Definition pdf_at (fs : gmap str (file page)) (path : str)
    : option (list page) :=
  match fs !! path with
  | Some (Pdf pages) => Some pages
  | _ => None
  end.

(** [out] holds the pages numbered [req], in that order. *)
Definition pages_numbered (ps : list page) (req : list Z)
    (out : list page) : Prop :=
  Forall2 (λ q pg, (1 ≤ q)%Z ∧ ps !! Z.to_nat (q - 1) = Some pg) req out.

(** The pages of the document at [job.output_path]. *)
Definition output_pdf (st : gmap str (file page) * job)
    : option (list page) :=
  match st.1 !! output_path st.2 with
  | Some (Pdf pages) => Some pages
  | _ => None
  end.

(** [q] is the number of a page of a document of [n] pages. *)
Definition page_number (n : nat) (q : Z) : Prop :=
  (1 ≤ q ≤ Z.of_nat n)%Z.

(** The pages numbered [a] to [b], both included. *)
Definition pages_between (ps : list page) (a b : Z) : list page :=
  slice ps (Z.to_nat (a - 1)) (Z.to_nat b).

(** [ab] is a range of pages of a document of [n] pages. *)
Definition page_range (n : nat) (ab : Z * Z) : Prop :=
  (1 ≤ ab.1 ∧ ab.1 ≤ ab.2 ∧ ab.2 ≤ Z.of_nat n)%Z.

(** The ranges follow one another from [lo] to [hi], without gap or
    overlap. *)
Fixpoint consecutive (lo : Z) (ranges : list (Z * Z)) (hi : Z) : Prop :=
  match ranges with
  | [] => lo = (hi + 1)%Z
  | ab :: ranges' =>
    ab.1 = lo ∧ (ab.1 ≤ ab.2)%Z ∧ consecutive (ab.2 + 1) ranges' hi
  end.

(** The parts SPLIT writes: every page as a document of its own. *)
Definition split_parts (ps : list page) : list (str * list page) :=
  imap (λ i pg, (split_page_name (S i), [pg])) ps.

(** The parts SPLIT_BY_RANGE writes: the pages of every range. *)
Definition range_parts (ps : list page) (ranges : list (Z * Z))
    : list (str * list page) :=
  imap (λ i ab, (split_name (S i), pages_between ps ab.1 ab.2)) ranges.

(** The files after the parts have been written, one after the other. *)
Definition with_parts (parts : list (str * list page))
    (fs : gmap str (file page)) : gmap str (file page) :=
  foldl (λ fs nd, <[nd.1 := Pdf nd.2]> fs) fs parts.

#[global] Instance page_number_dec (n : nat) (q : Z) :
  Decision (page_number n q).
Proof. unfold page_number. apply _. Defined.

#[global] Instance page_range_dec (n : nat) (ab : Z * Z) :
  Decision (page_range n ab).
Proof. unfold page_range. apply _. Defined.

(** The page numbers a job asks for: [params["pages"]], and
    [params["order"]] for REORDER. *)
Definition requested (j : job) : option (list Z) :=
  match job_type j with
  | ROTATE | DELETE | EXTRACT => param p_pages j
  | REORDER => param p_order j
  | _ => None
  end.

(** The text of page [k] (counted from 0) in the output of PDF_TO_TEXT,
    [t] being what the library extracts from the page. *)
Definition text_part (fmt : str) (k : nat) (t : option str) : str :=
  if bool_decide (fmt = py "markdown")
  then markdown_part (S k) (default [] t)
  else default [] t.

End Jobs.

(** The job types whose branch is embedded above. *)
Definition page_jobs : list JobType :=
  [MERGE; SPLIT; ROTATE; DELETE; EXTRACT; REORDER; PDF_TO_TEXT;
   SPLIT_BY_RANGE].

(** The job types the edit routes create and [worker_loop] has no branch
    for. *)
Definition edit_jobs : list JobType :=
  [EDIT_PDF_EXTRACT; EDIT_PDF_REPLACE; EDIT_PDF_PREPARE].

End Notions.

(* ===================================================================== *)
(** ** A job directory for the examples *)
(* ===================================================================== *)

Module Examples.

Import Stdlib.Strings.Ascii PyLib Jobs OutputNames Validators Worker.

(** POSIX paths, nothing beyond ASCII in the tables. *)
Definition posix_ascii : Runtime :=
  Build_Runtime false (λ _, false) (λ _ _, []).

(** A page is a number; to rotate it adds the angle; its text is its
    number. *)
Definition libs : env nat :=
  Env (λ angle pg, Some (pg + Z.to_nat angle))
      (λ pg, Some (str_of_nat pg)) (λ pg, Some (str_of_nat pg)) true
      (λ _, raise LibraryError).

(** A document of four pages. *)
Definition doc : list nat := [10; 20; 30; 40].

(** The directory of a job of one input. *)
Definition dir : gmap str (file nat) := {[ py "input.pdf" := Pdf doc ]}.

Definition uuid : str := py "123e4567-e89b-42d3-a456-426614174000".

(** The job as [create_single_file_pdf_job] makes it. *)
Definition job_of (t : JobType) (output_filename : string) (p : params)
    : job :=
  Job uuid t PENDING [py "input.pdf"] (py output_filename) (Some p)
      None None.

Definition with_pages (pages : list Z) : params :=
  Params (Some pages) None None None None (Some [Some (py "a.pdf")]).

Definition with_order (order : list Z) : params :=
  Params None None (Some order) None None (Some [Some (py "a.pdf")]).

Definition with_ranges (ranges : list (Z * Z)) : params :=
  Params None None None (Some ranges) None (Some [Some (py "a.pdf")]).

Definition with_angle (pages : list Z) (angle : Z) : params :=
  Params (Some pages) (Some angle) None None None
         (Some [Some (py "a.pdf")]).


End Examples.

(* ===================================================================== *)
(** ** Lemmas *)
(* ===================================================================== *)

(** *** The index of the right sequence *)

Lemma filter_ext_elem_of {A} (P Q : A → Prop) `{∀ x, Decision (P x)}
    `{∀ x, Decision (Q x)} (l : list A) :
  (∀ x, x ∈ l → (P x ↔ Q x)) → filter P l = filter Q l.
Proof.
  induction l as [|x l IH]; intros HPQ; [done|].
  rewrite !filter_cons.
  rewrite IH by (intros y Hy; apply HPQ; by right).
  pose proof (HPQ x (list_elem_of_here _ _)) as Hx.
  destruct (decide (P x)) as [HP|HP], (decide (Q x)) as [HQ|HQ];
    try done; exfalso; tauto.
Qed.

Section ChainB.
Context `{Countable T}.
Implicit Types (b : list T) (e : T).

Lemma chain_step_lookup (m : gmap T (list nat)) n x e :
  default [] (chain_step m (n, x) !! e) =
  default [] (m !! e) ++ (if decide (x = e) then [n] else []).
Proof.
  unfold chain_step; simpl. destruct (decide (x = e)) as [->|Hne].
  - by rewrite lookup_insert_eq.
  - rewrite lookup_insert_ne by done. by rewrite app_nil_r.
Qed.

Lemma indices_snoc b x e :
  indices e (b ++ [x]) =
  indices e b ++ (if decide (x = e) then [length b] else []).
Proof.
  unfold indices. rewrite length_app; simpl.
  rewrite Nat.add_1_r, seq_S, filter_app; simpl. f_equal.
  - apply filter_ext_elem_of; intros j Hj.
    apply elem_of_seq in Hj. rewrite lookup_app_l by lia. done.
  - rewrite filter_cons, filter_nil.
    rewrite lookup_app_r, Nat.sub_diag by lia; simpl.
    destruct (decide (x = e)) as [->|Hne].
    + rewrite decide_True; done.
    + rewrite decide_False; [done|]. congruence.
Qed.

Lemma b2j_all_lookup b e : default [] (b2j_all b !! e) = indices e b.
Proof.
  unfold b2j_all, enumerate.
  induction b as [|x b IH] using rev_ind; [done|].
  rewrite imap_app, foldl_app; simpl.
  rewrite Nat.add_0_r, chain_step_lookup, IH. by rewrite indices_snoc.
Qed.

Lemma elem_of_bpopular b e :
  e ∈ bpopular b ↔ 200 ≤ length b ∧ ntest b < length (indices e b).
Proof.
  unfold bpopular, autojunk; simpl. case_bool_decide as Hn.
  - rewrite elem_of_dom. unfold is_Some.
    setoid_rewrite map_lookup_filter_Some; simpl.
    rewrite <- b2j_all_lookup. split.
    + intros (l & Hl & Hlen). rewrite Hl; simpl. done.
    + intros [_ Hlen]. destruct (b2j_all b !! e) as [l|] eqn:Hl; simpl in *.
      * eauto.
      * lia.
  - rewrite elem_of_empty. lia.
Qed.

Lemma chain_b_lookup b e :
  default [] (chain_b b !! e) =
  if decide (e ∈ bpopular b) then [] else indices e b.
Proof.
  unfold chain_b. rewrite <- b2j_all_lookup.
  destruct (b2j_all b !! e) as [l|] eqn:Hl; simpl.
  - destruct (decide (e ∈ bpopular b)) as [Hp|Hp].
    + rewrite map_lookup_filter_None_2; [done|]. right. intros l' Hl'. simpl. tauto.
    + erewrite map_lookup_filter_Some_2; eauto.
  - rewrite map_lookup_filter_None_2; [|by left]. simpl. by destruct (decide _).
Qed.

Lemma bpopular_short b : length b < 200 → bpopular b = ∅.
Proof.
  intros Hlt. unfold bpopular, autojunk; simpl.
  rewrite bool_decide_eq_false_2; [done|lia].
Qed.

End ChainB.

(** *** The scan, row by row *)

(** A loop that keeps the first strictly better candidate ends with the
    start value or with the first candidate of maximal score. *)
Lemma foldl_first_max {X} (f : X → nat) (mk : X → block) (l : list X)
    (init : block) :
  (∀ x, (mk x).2 = f x) →
  let r := foldl (λ best x, if decide (best.2 < f x) then mk x else best)
                 init l in
  (r = init ∧ ∀ x, x ∈ l → f x ≤ init.2) ∨
  (∃ l1 x l2, l = l1 ++ x :: l2 ∧ r = mk x ∧ init.2 < f x ∧
     (∀ y, y ∈ l1 → f y < f x) ∧ (∀ y, y ∈ l2 → f y ≤ f x)).
Proof.
  intros Hmk. revert init. induction l as [|x l IH]; intros init; simpl.
  - left. split; [done|]. intros x Hx. by apply elem_of_nil in Hx.
  - destruct (decide (init.2 < f x)) as [Hlt|Hge].
    + destruct (IH (mk x)) as [[Hr Hall]|(l1 & x' & l2 & -> & Hr & Hx' & H1 & H2)].
      * right. exists [], x, l. rewrite Hmk in Hall.
        split_and!; [done|done|done| |done].
        intros y Hy. by apply elem_of_nil in Hy.
      * right. exists (x :: l1), x', l2. rewrite Hmk in Hx'.
        split_and!; [done|done|lia| |done].
        intros y [->|Hy]%elem_of_cons; [done|by apply H1].
    + destruct (IH init) as [[Hr Hall]|(l1 & x' & l2 & -> & Hr & Hx' & H1 & H2)].
      * left. split; [done|].
        intros y [->|Hy]%elem_of_cons; [lia|by apply Hall].
      * right. exists (x :: l1), x', l2.
        split_and!; [done|done|done| |done].
        intros y [->|Hy]%elem_of_cons; [lia|by apply H1].
Qed.

Lemma filter_none {A} (P : A → Prop) `{∀ x, Decision (P x)} (l : list A) :
  (∀ x, x ∈ l → ¬ P x) → filter P l = [].
Proof.
  induction l as [|x l IH]; intros HP; [done|].
  rewrite filter_cons_False by (apply HP; left).
  apply IH. intros y Hy. apply HP. by right.
Qed.

Lemma foldl_filter_skip {A B} (f : B → A → B) (P : A → Prop)
    `{∀ x, Decision (P x)} (l : list A) (acc : B) :
  (∀ acc x, ¬ P x → f acc x = acc) →
  foldl f acc (filter P l) = foldl f acc l.
Proof.
  intros Hskip. revert acc. induction l as [|x l IH]; intros acc; [done|].
  rewrite filter_cons. destruct (decide (P x)) as [HP|HP]; simpl.
  - apply IH.
  - rewrite Hskip by done. apply IH.
Qed.

Lemma foldl_bind {A B C} (f : C → B → C) (g : A → list B) (l : list A)
    (acc : C) :
  foldl f acc (l ≫= g) = foldl (λ acc x, foldl f acc (g x)) acc l.
Proof.
  revert acc. induction l as [|x l IH]; intros acc; [done|].
  rewrite bind_cons, foldl_app. apply IH.
Qed.

Section Scan.
Context `{Countable T}.
Variables (a b : list T) (b2j : gmap T (list nat)) (pop : gset T).
Hypothesis Hb2j : ∀ e,
  default [] (b2j !! e) = if decide (e ∈ pop) then [] else indices e b.
Variables alo blo bhi : nat.

#[local] Abbreviation hit := (hit a b pop alo blo bhi).
#[local] Abbreviation run_len := (run_len a b pop alo blo bhi).
#[local] Abbreviation run_prev := (run_prev a b pop alo blo bhi).
#[local] Abbreviation upd_best := (upd_best a b pop alo blo bhi).
#[local] Abbreviation cands := (cands b).

Lemma hit_intro i j :
  alo ≤ i → blo ≤ j → j < bhi → elt_hit pop (a !! i) (b !! j) → hit i j.
Proof. intros. red. auto. Qed.

Lemma run_len_unfold i j :
  run_len i j =
  if decide (hit i j)
  then S (match j with 0 => 0 | S j' => run_prev i j' end) else 0.
Proof. destruct i, j; simpl; done. Qed.

Lemma run_len_miss i j : ¬ hit i j → run_len i j = 0.
Proof. intros Hn. rewrite run_len_unfold. by rewrite decide_False. Qed.

Lemma run_len_pos i j : 0 < run_len i j → hit i j.
Proof.
  intros Hpos. destruct (decide (hit i j)) as [|Hn]; [done|].
  rewrite run_len_miss in Hpos by done. lia.
Qed.

Lemma run_len_bound i j :
  run_len i j ≤ i + 1 - alo ∧ run_len i j ≤ j + 1 - blo.
Proof.
  revert j. induction i as [|i IH]; intros j.
  - simpl. destruct (decide (hit 0 j)) as [(?&?&?&?)|]; [|lia].
    destruct j; lia.
  - simpl. destruct (decide (hit (S i) j)) as [(?&?&?&?)|]; [|lia].
    destruct j as [|j]; [lia|].
    destruct (IH j) as [Hb1 Hb2].
    destruct (decide (hit i j)) as [(?&?&?&?)|Hn].
    + lia.
    + rewrite run_len_miss in * by done. lia.
Qed.

Lemma run_prev_lo i j : i ≤ alo → run_prev i j = 0.
Proof.
  intros Hi. destruct i as [|i]; [done|]. simpl.
  apply run_len_miss. intros Hh. destruct Hh as (?&_). lia.
Qed.

Lemma b2j_get_filter i :
  b2j_get b2j (a !! i) =
  filter (λ j, elt_hit pop (a !! i) (b !! j)) (seq 0 (length b)).
Proof.
  unfold b2j_get. destruct (a !! i) as [e|]; simpl.
  - rewrite Hb2j. destruct (decide (e ∈ pop)) as [Hp|Hp].
    + symmetry. apply filter_none. intros j _ [_ ?]. done.
    + unfold indices. apply filter_ext_elem_of. intros j _. tauto.
  - symmetry. apply filter_none. intros j _ [].
Qed.

(** The inner loop over an ascending stretch of [b2j[a[i]]]. *)
Lemma flm_row_spec i j2len :
  alo ≤ i →
  (∀ j, default 0 (j2len !! j) = run_prev i j) →
  ∀ n s newj2len best,
  flm_row blo bhi i j2len
    (filter (λ j, elt_hit pop (a !! i) (b !! j)) (seq s n)) newj2len best
  = (foldl (λ m j, <[j := run_len i j]> m) newj2len
       (filter (hit i) (seq s n)),
     foldl upd_best best ((λ j, (i, j)) <$> filter (hit i) (seq s n))).
Proof.
  intros Hi Hprev n. induction n as [|n IH]; intros s newj2len best.
  - done.
  - rewrite <- cons_seq. rewrite !filter_cons.
    destruct (decide (elt_hit pop (a !! i) (b !! s))) as [He|He].
    + simpl. destruct (decide (s < blo)) as [Hlo|Hlo].
      { rewrite decide_False by (intros Hh; destruct Hh as (?&?&?&?); lia). apply IH. }
      destruct (decide (bhi ≤ s)) as [Hhi|Hhi].
      { rewrite decide_False by (intros Hh; destruct Hh as (?&?&?&?); lia).
        rewrite filter_none; [done|].
        intros j Hj Hh. destruct Hh as (?&?&?&?). apply elem_of_seq in Hj. lia. }
      assert (hit i s) as Hh by (apply hit_intro; [done|lia|lia|done]).
      destruct (decide (hit i s)) as [_|?]; [|done].
      simpl. rewrite IH. unfold upd_best at 2; simpl.
      assert (j2lenget j2len s + 1 = run_len i s) as ->; [|done].
      rewrite run_len_unfold.
      destruct (decide (hit i s)) as [_|?]; [|done].
      unfold j2lenget. destruct s as [|s']; [lia|]. rewrite Hprev. lia.
    + destruct (decide (hit i s)) as [Hh|_];
        [destruct Hh as (?&?&?&?); done|]. apply IH.
Qed.

Lemma foldl_insert_lookup i (l : list nat) (m : gmap nat nat) j :
  foldl (λ m j, <[j := run_len i j]> m) m l !! j =
  if decide (j ∈ l) then Some (run_len i j) else m !! j.
Proof.
  revert m. induction l as [|x l IH]; intros m; cbn [foldl].
  - destruct (decide (j ∈ [])) as [Hin|_]; [|done].
    by apply elem_of_nil in Hin.
  - rewrite IH. destruct (decide (j ∈ l)) as [Hin|Hin].
    + destruct (decide (j ∈ x :: l)) as [_|Hn]; [done|].
      exfalso. apply Hn. by right.
    + destruct (decide (j = x)) as [->|Hne].
      * destruct (decide (x ∈ x :: l)) as [_|Hn];
          [by rewrite lookup_insert_eq|]. exfalso. apply Hn. left.
      * destruct (decide (j ∈ x :: l)) as [[?|?]%elem_of_cons|_]; [done..|].
        by rewrite lookup_insert_ne.
Qed.

Lemma upd_best_miss best i j : ¬ hit i j → upd_best best (i, j) = best.
Proof.
  intros Hn. unfold upd_best; simpl. rewrite run_len_miss by done.
  rewrite decide_False; [done|lia].
Qed.

(** One row of the scan. *)
Lemma flm_row_full i j2len best :
  alo ≤ i →
  (∀ j, default 0 (j2len !! j) = run_prev i j) →
  ∃ newj2len,
    flm_row blo bhi i j2len (b2j_get b2j (a !! i)) ∅ best
    = (newj2len,
       foldl upd_best best ((λ j, (i, j)) <$> seq 0 (length b))) ∧
    ∀ j, default 0 (newj2len !! j) = run_prev (S i) j.
Proof.
  intros Hi Hprev. rewrite b2j_get_filter, flm_row_spec by done.
  eexists; split.
  - f_equal. rewrite !foldl_fmap.
    apply (foldl_filter_skip (λ acc j, upd_best acc (i, j))).
    intros acc j Hn. by apply upd_best_miss.
  - intros j. simpl. rewrite foldl_insert_lookup, lookup_empty.
    destruct (decide (j ∈ _)) as [Hin|Hin]; simpl; [done|].
    symmetry. apply run_len_miss. intros Hhit. apply Hin.
    apply list_elem_of_filter. split; [done|].
    apply elem_of_seq. destruct Hhit as (?&?&?&Hm).
    destruct (a !! i); simpl in Hm; [|done].
    destruct Hm as [Hm _]. apply lookup_lt_Some in Hm. lia.
Qed.

Lemma flm_scan_rows n init :
  ∃ j2len,
    foldl (λ st i, flm_row blo bhi i st.1 (b2j_get b2j (a !! i)) ∅ st.2)
          (∅, init) (seq alo n)
    = (j2len, foldl upd_best init (cands alo n)) ∧
    ∀ j, default 0 (j2len !! j) = run_prev (alo + n) j.
Proof.
  induction n as [|n (j2len & IH & Hprev)].
  - exists ∅. split; [done|]. intros j. rewrite lookup_empty; simpl.
    rewrite Nat.add_0_r. symmetry. by apply run_prev_lo.
  - rewrite seq_S, foldl_app, IH; simpl.
    destruct (flm_row_full (alo + n) j2len
                (foldl upd_best init (cands alo n))) as (m & Hrow & Hm);
      [lia|done|].
    exists m. split.
    + rewrite Hrow. f_equal. unfold cands.
      rewrite seq_S, bind_app, foldl_app. simpl. by rewrite app_nil_r.
    + intros j. rewrite Hm. by rewrite Nat.add_succ_r.
Qed.

Lemma flm_scan_eq ahi :
  (flm_scan a b2j alo ahi blo bhi).2
  = foldl upd_best (alo, blo, 0) (cands alo (ahi - alo)).
Proof.
  unfold flm_scan.
  destruct (flm_scan_rows (ahi - alo) (alo, blo, 0)) as (j2len & -> & _).
  done.
Qed.

End Scan.

(** *** The block found stays in its window *)

Lemma block_eq (i j k i' j' k' : nat) :
  i = i' → j = j' → k = k' → (i, j, k) = (i', j', k').
Proof. by intros -> -> ->. Qed.

Lemma elem_of_grid lo n lo' n' i j :
  (i, j) ∈ grid lo n lo' n' ↔ (lo ≤ i < lo + n) ∧ (lo' ≤ j < lo' + n').
Proof.
  unfold grid. rewrite list_elem_of_bind. split.
  - intros (i' & Hj & Hi). apply list_elem_of_fmap in Hj as (j' & [= -> ->] & Hj).
    apply elem_of_seq in Hi, Hj. lia.
  - intros [Hi Hj]. exists i. split.
    + apply list_elem_of_fmap. exists j. split; [done|]. apply elem_of_seq. lia.
    + apply elem_of_seq. lia.
Qed.

Lemma row_sorted i s n :
  StronglySorted lex_lt ((λ j, (i, j)) <$> seq s n).
Proof.
  revert s. induction n as [|n IH]; intros s; simpl; constructor.
  - apply IH.
  - apply Forall_forall. intros [i' j'] Hin.
    apply list_elem_of_fmap in Hin as (j'' & [= -> ->] & Hj).
    apply elem_of_seq in Hj. right. simpl. lia.
Qed.

Lemma grid_sorted lo n lo' n' : StronglySorted lex_lt (grid lo n lo' n').
Proof.
  revert lo. induction n as [|n IH]; intros lo.
  - constructor.
  - unfold grid. rewrite <- cons_seq, bind_cons.
    apply StronglySorted_app_2; [|apply row_sorted|apply IH].
    intros [i1 j1] [i2 j2] Hin1 Hin2.
    apply list_elem_of_fmap in Hin1 as (j' & [= -> ->] & Hj).
    apply (elem_of_grid (S lo) n) in Hin2. left; simpl. lia.
Qed.

Lemma grid_before lo n lo' n' l1 x l2 y :
  grid lo n lo' n' = l1 ++ x :: l2 → y ∈ grid lo n lo' n' → lex_lt y x →
  y ∈ l1.
Proof.
  intros Heq Hy Hlt. pose proof (grid_sorted lo n lo' n') as Hs.
  rewrite Heq in Hs, Hy.
  apply elem_of_app in Hy as [Hy|Hy]; [done|]. exfalso.
  apply StronglySorted_app_1_r in Hs.
  apply StronglySorted_cons in Hs as [Hall _].
  apply elem_of_cons in Hy as [->|Hy].
  - destruct Hlt as [?|[? ?]]; lia.
  - rewrite Forall_forall in Hall. specialize (Hall _ Hy).
    destruct Hlt as [?|[? ?]], Hall as [?|[? ?]]; lia.
Qed.

Lemma cands_grid {T} (b : list T) lo n :
  cands b lo n = grid lo n 0 (length b).
Proof. done. Qed.

Section Flm.
Context `{Countable T}.
Variables (a b : list T) (b2j : gmap T (list nat)) (pop : gset T).
Hypothesis Hb2j : ∀ e,
  default [] (b2j !! e) = if decide (e ∈ pop) then [] else indices e b.
Variables alo ahi blo bhi : nat.

#[local] Abbreviation hit := (hit a b pop alo blo bhi).
#[local] Abbreviation run_len := (run_len a b pop alo blo bhi).
#[local] Abbreviation in_window := (in_window alo ahi blo bhi).
#[local] Abbreviation ext_guard := (ext_guard a b).

Lemma run_len_out i j : length b ≤ j → run_len i j = 0.
Proof.
  intros Hj. apply run_len_miss. intros Hh. destruct Hh as (?&?&?&Hm).
  rewrite (lookup_ge_None_2 b j) in Hm by done.
  destruct (a !! i); simpl in Hm; [|done]. by destruct Hm.
Qed.

(** What the scan leaves in [(besti, bestj, bestsize)]: the start value
    when no pair of the window hits, else the first pair, in the order of
    the scan, at which the longest run ends. *)
Lemma flm_scan_cases :
  let r := (flm_scan a b2j alo ahi blo bhi).2 in
  (r = (alo, blo, 0) ∧ ∀ i j, alo ≤ i < ahi → run_len i j = 0) ∨
  (∃ i j, alo ≤ i < ahi ∧ j < length b ∧ 0 < run_len i j ∧
     r = (i + 1 - run_len i j, j + 1 - run_len i j, run_len i j) ∧
     (∀ i' j', alo ≤ i' < ahi → run_len i' j' ≤ run_len i j) ∧
     (∀ i' j', alo ≤ i' → lex_lt (i', j') (i, j) →
               run_len i' j' < run_len i j)).
Proof.
  intros r. subst r. rewrite (flm_scan_eq a b b2j pop Hb2j), cands_grid.
  destruct (foldl_first_max (λ ij, run_len ij.1 ij.2)
              (λ ij, (ij.1 + 1 - run_len ij.1 ij.2,
                      ij.2 + 1 - run_len ij.1 ij.2, run_len ij.1 ij.2))
              (grid alo (ahi - alo) 0 (length b)) (alo, blo, 0))
    as [[Hr Hall]|(l1 & [i j] & l2 & Hl & Hr & Hpos & Hbefore & Hafter)];
    [done| |].
  - left. split; [exact Hr|]. intros i j Hi.
    destruct (decide (j < length b)) as [Hj|Hj].
    + specialize (Hall (i, j)). simpl in Hall.
      assert (run_len i j ≤ 0); [|lia]. apply Hall.
      apply elem_of_grid. lia.
    + apply run_len_out. lia.
  - right. simpl in *. exists i, j.
    assert ((i, j) ∈ grid alo (ahi - alo) 0 (length b)) as Hin.
    { rewrite Hl. apply elem_of_app. right. left. }
    apply elem_of_grid in Hin.
    split_and!; [lia|lia|lia|done|exact Hr| |].
    + intros i' j' Hi'.
      destruct (decide (j' < length b)) as [Hj'|Hj'];
        [|rewrite run_len_out; lia].
      assert ((i', j') ∈ grid alo (ahi - alo) 0 (length b)) as Hin'
        by (apply elem_of_grid; lia).
      rewrite Hl in Hin'. apply elem_of_app in Hin' as [Hin'|Hin'].
      { specialize (Hbefore _ Hin'). simpl in Hbefore. lia. }
      apply elem_of_cons in Hin' as [[= -> ->]|Hin']; [done|].
      by specialize (Hafter _ Hin').
    + intros i' j' Hi' Hlt.
      destruct (decide (j' < length b)) as [Hj'|Hj'];
        [|rewrite run_len_out; lia].
      assert ((i', j') ∈ grid alo (ahi - alo) 0 (length b)) as Hin'.
      { apply elem_of_grid. destruct Hlt as [?|[? ?]]; simpl in *; lia. }
      pose proof (grid_before _ _ _ _ _ _ _ _ Hl Hin' Hlt) as Hl1.
      by specialize (Hbefore _ Hl1).
Qed.

Lemma flm_scan_in_window : in_window (flm_scan a b2j alo ahi blo bhi).2.
Proof.
  destruct flm_scan_cases as [[-> _]|(i & j & Hi & Hj & Hpos & -> & _)].
  - red; simpl. lia.
  - pose proof (run_len_bound a b pop alo blo bhi i j) as [Hb1 Hb2].
    apply run_len_pos in Hpos as Hh. destruct Hh as (?&?&?&_).
    red; simpl. lia.
Qed.

Lemma extend_lo_spec junk i j k :
  ∃ d, extend_lo a b junk alo blo i j k = (i - d, j - d, k + d) ∧
       d ≤ i - alo ∧ d ≤ j - blo ∧
       (∀ t, t < d → ext_guard junk (i - 1 - t) (j - 1 - t) = true) ∧
       (alo < i - d → blo < j - d →
        ext_guard junk (i - d - 1) (j - d - 1) = false).
Proof.
  revert j k. induction i as [|i IH]; intros j k.
  - exists 0. cbn [extend_lo].
    split_and!; [apply block_eq; lia|lia|lia| |lia].
    intros t Ht; lia.
  - destruct j as [|j].
    { exists 0. cbn [extend_lo].
      split_and!; [apply block_eq; lia|lia|lia| |lia].
      intros t Ht; lia. }
    cbn [extend_lo].
    destruct (bool_decide (alo < S i) && bool_decide (blo < S j) &&
              eqb (isbjunk (b !! j)) junk && elt_eq (a !! i) (b !! j))
      eqn:Hg.
    + apply andb_prop in Hg as [Hg Hg4]. apply andb_prop in Hg as [Hg Hg3].
      apply andb_prop in Hg as [Hg1%bool_decide_eq_true Hg2%bool_decide_eq_true].
      destruct (IH j (S k)) as (d & -> & Hd1 & Hd2 & Hd3 & Hd4).
      exists (S d). split_and!.
      * apply block_eq; lia.
      * lia.
      * lia.
      * intros t Ht. destruct t as [|t].
        -- replace (S i - 1 - 0) with i by lia.
           replace (S j - 1 - 0) with j by lia.
           unfold ext_guard. by rewrite Hg3, Hg4.
        -- replace (S i - 1 - S t) with (i - 1 - t) by lia.
           replace (S j - 1 - S t) with (j - 1 - t) by lia.
           apply Hd3. lia.
      * intros Hi Hj. replace (S i - S d - 1) with (i - d - 1) by lia.
        replace (S j - S d - 1) with (j - d - 1) by lia.
        apply Hd4; lia.
    + exists 0. split_and!; [apply block_eq; lia|lia|lia| |].
      * intros t Ht; lia.
      * intros Hi Hj. replace (S i - 0 - 1) with i by lia.
        replace (S j - 0 - 1) with j by lia.
        rewrite !andb_false_iff in Hg. unfold ext_guard.
        rewrite andb_false_iff.
        destruct Hg as [[[Hg|Hg]|Hg]|Hg]; [| |by left|by right].
        -- apply bool_decide_eq_false in Hg. lia.
        -- apply bool_decide_eq_false in Hg. lia.
Qed.

Lemma extend_hi_spec junk n i j k :
  ∃ d, extend_hi a b junk n bhi i j k = (i, j, k + d) ∧
       d ≤ n ∧ (0 < d → j + k + d ≤ bhi) ∧
       (∀ t, t < d → ext_guard junk (i + k + t) (j + k + t) = true) ∧
       (d < n → j + k + d < bhi →
        ext_guard junk (i + k + d) (j + k + d) = false).
Proof.
  revert k. induction n as [|n IH]; intros k.
  - exists 0. cbn [extend_hi].
    split_and!; [apply block_eq; lia|lia|lia| |lia].
    intros t Ht; lia.
  - cbn [extend_hi].
    destruct (bool_decide (j + k < bhi) &&
              eqb (isbjunk (b !! (j + k))) junk &&
              elt_eq (a !! (i + k)) (b !! (j + k))) eqn:Hg.
    + apply andb_prop in Hg as [Hg Hg3].
      apply andb_prop in Hg as [Hg1%bool_decide_eq_true Hg2].
      destruct (IH (S k)) as (d & -> & Hd1 & Hd2 & Hd3 & Hd4).
      exists (S d). split_and!.
      * apply block_eq; lia.
      * lia.
      * lia.
      * intros t Ht. destruct t as [|t].
        -- rewrite !Nat.add_0_r. unfold ext_guard. by rewrite Hg2, Hg3.
        -- replace (i + k + S t) with (i + S k + t) by lia.
           replace (j + k + S t) with (j + S k + t) by lia.
           apply Hd3. lia.
      * intros Hn Hj. replace (i + k + S d) with (i + S k + d) by lia.
        replace (j + k + S d) with (j + S k + d) by lia.
        apply Hd4; lia.
    + exists 0. split_and!; [apply block_eq; lia|lia|lia| |].
      * intros t Ht; lia.
      * intros _ Hj. rewrite !Nat.add_0_r.
        rewrite !andb_false_iff in Hg. unfold ext_guard.
        rewrite andb_false_iff.
        destruct Hg as [[Hg|Hg]|Hg]; [|by left|by right].
        apply bool_decide_eq_false in Hg. lia.
Qed.

Lemma extend_in_window junk m :
  in_window m → in_window (extend a b junk alo ahi blo bhi m).
Proof.
  destruct m as [[i j] k]. unfold in_window, extend; simpl.
  intros (Hi & Hj & Hk & Hz).
  destruct (extend_lo_spec junk i j k) as (d & -> & Hd1 & Hd2 & _).
  destruct (extend_hi_spec junk (ahi - (i - d + (k + d))) (i - d) (j - d)
              (k + d)) as (d' & -> & Hd1' & Hd2' & _).
  simpl. lia.
Qed.

Lemma flm_in_window :
  in_window (find_longest_match a b b2j alo ahi blo bhi).
Proof.
  unfold find_longest_match. do 2 apply extend_in_window.
  apply flm_scan_in_window.
Qed.

End Flm.

(** *** Blocks, chains and tiles *)

(** ** Order on blocks *)

#[global] Instance block_le_trans : Transitive block_le.
Proof. intros [[??]?] [[??]?] [[??]?]; unfold block_le; lia. Qed.
#[global] Instance block_le_total : Total block_le.
Proof. intros [[??]?] [[??]?]; unfold block_le; lia. Qed.
#[global] Instance block_le_antisymm : AntiSymm (=) block_le.
Proof.
  intros [[i1 j1] k1] [[i2 j2] k2]; unfold block_le; intros.
  apply block_eq; lia.
Qed.

(** ** Loops as recursions *)

Lemma collapse_step_foldl l cur na :
  let '(cur', na') := foldl collapse_step (cur, na) l in
  na' ++ opt_block cur' = na ++ collapse_from cur l.
Proof.
  revert cur na. induction l as [|m l IH]; intros cur na.
  - done.
  - cbn [foldl collapse_from]. destruct cur as [[i1 j1] k1], m as [[i2 j2] k2].
    cbn [collapse_step fst snd].
    destruct (bool_decide (i1 + k1 = i2) && bool_decide (j1 + k1 = j2)).
    + apply IH.
    + specialize (IH (i2, j2, k2)
        (if bool_decide (0 < k1) then na ++ [(i1, j1, k1)] else na)).
      destruct (foldl _ _ l) as [cur' na']. rewrite IH.
      unfold opt_block; simpl.
      destruct (bool_decide (0 < k1)); by rewrite <- ?app_assoc.
Qed.

Lemma collapse_eq l : collapse l = collapse_from (0, 0, 0) l.
Proof.
  unfold collapse. pose proof (collapse_step_foldl l (0, 0, 0) []) as Hf.
  destruct (foldl _ _ l) as [[[i1 j1] k1] na]. simpl in Hf. rewrite <- Hf.
  unfold opt_block; simpl. destruct (bool_decide (0 < k1)); [done|].
  by rewrite app_nil_r.
Qed.

Lemma opcode_step_foldl blocks i j answer :
  (foldl opcode_step (i, j, answer) blocks).2
  = answer ++ ops_from i j blocks.
Proof.
  revert i j answer. induction blocks as [|[[ai bj] size] rest IH];
    intros i j answer.
  - simpl. by rewrite app_nil_r.
  - cbn [foldl ops_from opcode_step]. rewrite IH. unfold gap_op.
    destruct (bool_decide (i < ai)), (bool_decide (j < bj)),
      (bool_decide (0 < size)); simpl; by rewrite <- ?app_assoc.
Qed.

Lemma opcodes_of_blocks_eq blocks :
  opcodes_of_blocks blocks = ops_from 0 0 blocks.
Proof. unfold opcodes_of_blocks. by rewrite opcode_step_foldl. Qed.

(** ** Chains *)

Lemma chain_weaken i0 j0 i0' j0' l i1 j1 :
  i0' ≤ i0 → j0' ≤ j0 → chain i0 j0 l i1 j1 → chain i0' j0' l i1 j1.
Proof.
  destruct l as [|[[i j] k] l]; simpl; [lia|].
  intros ? ? (?&?&?&?). split_and!; [lia..|done].
Qed.

Lemma chain_app i0 j0 l1 i j l2 i1 j1 :
  chain i0 j0 l1 i j → chain i j l2 i1 j1 → chain i0 j0 (l1 ++ l2) i1 j1.
Proof.
  revert i0 j0. induction l1 as [|[[i' j'] k'] l1 IH]; intros i0 j0; simpl.
  - intros [? ?]. by apply chain_weaken.
  - intros (?&?&?&?) ?. split_and!; [done..|]. by apply IH.
Qed.

Lemma chain_le i0 j0 l i1 j1 : chain i0 j0 l i1 j1 → i0 ≤ i1 ∧ j0 ≤ j1.
Proof.
  revert i0 j0. induction l as [|[[i j] k] l IH]; intros i0 j0; simpl.
  - done.
  - intros (?&?&?&Hc). apply IH in Hc. lia.
Qed.

Lemma chain_lower i0 j0 l i1 j1 :
  chain i0 j0 l i1 j1 → Forall (λ m, i0 ≤ m.1.1 ∧ j0 ≤ m.1.2) l.
Proof.
  revert i0 j0. induction l as [|[[i j] k] l IH]; intros i0 j0; simpl.
  - constructor.
  - intros (?&?&?&Hc). constructor; [done|].
    apply IH in Hc. eapply Forall_impl; [exact Hc|]. simpl. lia.
Qed.

Lemma chain_sorted i0 j0 l i1 j1 :
  chain i0 j0 l i1 j1 → StronglySorted block_le l.
Proof.
  revert i0 j0. induction l as [|[[i j] k] l IH]; intros i0 j0; simpl.
  - constructor.
  - intros (?&?&?&Hc). constructor; [by eapply IH|].
    apply chain_lower in Hc. eapply Forall_impl; [exact Hc|].
    intros [[i' j'] k']; simpl. lia.
Qed.

Lemma collapse_from_chain l cur i0 j0 i1 j1 :
  chain i0 j0 (opt_block cur ++ l) i1 j1 →
  chain i0 j0 (collapse_from cur l) i1 j1.
Proof.
  revert cur i0 j0. induction l as [|[[i2 j2] k2] l IH];
    intros [[ic jc] kc] i0 j0.
  - simpl. by rewrite app_nil_r.
  - cbn [collapse_from fst snd]. unfold opt_block; cbn [fst snd].
    case_bool_decide as Hk; cbn [app].
    + destruct (bool_decide (ic + kc = i2) && bool_decide (jc + kc = j2))
        eqn:Hadj.
      * apply andb_prop in Hadj
          as [<-%bool_decide_eq_true <-%bool_decide_eq_true].
        intros (?&?&?&?&?&?&Hc). apply IH. unfold opt_block; simpl.
        rewrite bool_decide_eq_true_2 by lia. simpl.
        split_and!; [lia..|].
        by rewrite <- !Nat.add_assoc in Hc.
      * simpl. intros (?&?&?&Hc). split_and!; [done..|].
        apply IH. unfold opt_block; simpl.
        destruct Hc as (?&?&?&?). rewrite bool_decide_eq_true_2 by lia.
        simpl. done.
    + destruct (bool_decide (ic + kc = i2) && bool_decide (jc + kc = j2))
        eqn:Hadj.
      * apply andb_prop in Hadj
          as [<-%bool_decide_eq_true <-%bool_decide_eq_true].
        assert (kc = 0) as -> by lia. simpl.
        intros (?&?&?&Hc). apply IH. unfold opt_block; simpl.
        rewrite bool_decide_eq_true_2 by lia. simpl.
        rewrite !Nat.add_0_r in *. done.
      * simpl. intros (?&?&?&Hc). apply IH. unfold opt_block; simpl.
        rewrite bool_decide_eq_true_2 by lia. simpl. done.
Qed.

Lemma collapse_chain l i1 j1 :
  chain 0 0 l i1 j1 → chain 0 0 (collapse l) i1 j1.
Proof. intros Hc. rewrite collapse_eq. by apply collapse_from_chain. Qed.

(** ** Tiling *)

Lemma tiles_app lo mid hi r1 r2 :
  tiles lo mid r1 → tiles mid hi r2 → tiles lo hi (r1 ++ r2).
Proof.
  revert lo. induction r1 as [|[x y] r1 IH]; intros lo; simpl.
  - by intros ->.
  - intros (?&?&?) ?. split_and!; [done..|]. by apply IH.
Qed.

Lemma tiles_le lo hi rs : tiles lo hi rs → lo ≤ hi.
Proof.
  revert lo. induction rs as [|[x y] rs IH]; intros lo; simpl.
  - lia.
  - intros (?&?&Ht). apply IH in Ht. lia.
Qed.

Lemma gap_op_tiles i j ai bj :
  i ≤ ai → j ≤ bj →
  tiles i ai (left_ranges (gap_op i j ai bj)) ∧
  tiles j bj (right_ranges (gap_op i j ai bj)).
Proof.
  intros Hi Hj. unfold gap_op.
  repeat case_bool_decide; simpl; lia.
Qed.

Lemma ops_from_tiles l i j la lb :
  chain i j l la lb →
  tiles i la (left_ranges (ops_from i j (l ++ [(la, lb, 0)]))) ∧
  tiles j lb (right_ranges (ops_from i j (l ++ [(la, lb, 0)]))).
Proof.
  revert i j. induction l as [|[[ai bj] size] l IH]; intros i j.
  - simpl. intros [Hi Hj]. rewrite !app_nil_r.
    by apply gap_op_tiles.
  - cbn [chain app ops_from]. intros (Hi & Hj & Hk & Hc).
    destruct (IH _ _ Hc) as [IH1 IH2].
    destruct (gap_op_tiles i j ai bj Hi Hj) as [G1 G2].
    rewrite bool_decide_eq_true_2 by done.
    unfold left_ranges, right_ranges in *. rewrite !fmap_app.
    split.
    + eapply tiles_app; [exact G1|]. simpl. split_and!; [done|lia|done].
    + eapply tiles_app; [exact G2|]. simpl. split_and!; [done|lia|done].
Qed.

Lemma slice_app {A} (l : list A) x y z :
  x ≤ y → y ≤ z → slice l x y ++ slice l y z = slice l x z.
Proof.
  intros Hxy Hyz. unfold slice.
  replace (drop y l) with (drop (y - x) (drop x l))
    by (rewrite drop_drop; f_equal; lia).
  rewrite take_take_drop. f_equal. lia.
Qed.

Lemma slice_full {A} (l : list A) : slice l 0 (length l) = l.
Proof. unfold slice. rewrite drop_0, Nat.sub_0_r. by apply take_ge. Qed.

Lemma slice_empty {A} (l : list A) x : slice l x x = [].
Proof. unfold slice. by rewrite Nat.sub_diag. Qed.

Lemma slice_length {A} (l : list A) x y :
  x ≤ y → y ≤ length l → length (slice l x y) = y - x.
Proof.
  intros Hxy Hy. unfold slice. rewrite length_take, length_drop. lia.
Qed.

(** Ranges that tile [[lo, hi)] cut the sequence into consecutive pieces. *)
Lemma tiles_concat {A} (l : list A) lo hi rs :
  tiles lo hi rs →
  concat ((λ r, slice l r.1 r.2) <$> rs) = slice l lo hi.
Proof.
  revert lo. induction rs as [|[x y] rs IH]; intros lo.
  - simpl. intros ->. by rewrite slice_empty.
  - rewrite fmap_cons. cbn [concat tiles fst snd].
    intros (-> & Hxy & Ht). rewrite (IH _ Ht).
    apply slice_app; [done|]. by eapply tiles_le.
Qed.

Section InorderFacts.
Context `{Countable T}.
Variables (a b : list T) (b2j : gmap T (list nat)) (pop : gset T).
Hypothesis Hb2j : ∀ e,
  default [] (b2j !! e) = if decide (e ∈ pop) then [] else indices e b.

#[local] Abbreviation flm := (find_longest_match a b b2j).
#[local] Abbreviation inorder := (inorder a b b2j).
#[local] Abbreviation inorder_w := (inorder_w a b b2j).

Lemma flm_bounds alo ahi blo bhi i j k :
  flm alo ahi blo bhi = (i, j, k) →
  alo ≤ i ∧ blo ≤ j ∧ (0 < k → i + k ≤ ahi ∧ j + k ≤ bhi) ∧
  (k = 0 → i = alo ∧ j = blo).
Proof.
  intros Hm.
  pose proof (flm_in_window a b b2j pop Hb2j alo ahi blo bhi) as Hw.
  rewrite Hm in Hw. exact Hw.
Qed.

(** More fuel than the window is long changes nothing. *)
Lemma inorder_fuel n m alo ahi blo bhi :
  ahi - alo < n → ahi - alo < m →
  inorder n alo ahi blo bhi = inorder m alo ahi blo bhi.
Proof.
  revert m alo ahi blo bhi. induction n as [|n IH];
    intros m alo ahi blo bhi Hn Hm; [lia|].
  destruct m as [|m]; [lia|]. cbn [Sem.inorder].
  destruct (flm alo ahi blo bhi) as [[i j] k] eqn:Hflm.
  apply flm_bounds in Hflm as (Hi & Hj & Hk & _).
  case_bool_decide as Hpos; [|done]. specialize (Hk Hpos).
  f_equal; [|f_equal].
  - destruct (bool_decide (alo < i) && bool_decide (blo < j)); [|done].
    apply IH; lia.
  - destruct (bool_decide (i + k < ahi) && bool_decide (j + k < bhi));
      [|done].
    apply IH; lia.
Qed.

Lemma inorder_w_unfold alo ahi blo bhi :
  inorder_w (alo, ahi, blo, bhi) =
  let '(i, j, k) := flm alo ahi blo bhi in
  if bool_decide (0 < k) then
    (if bool_decide (alo < i) && bool_decide (blo < j)
     then inorder_w (alo, i, blo, j) else [])
    ++ (i, j, k)
    :: (if bool_decide (i + k < ahi) && bool_decide (j + k < bhi)
        then inorder_w (i + k, ahi, j + k, bhi) else [])
  else [].
Proof.
  unfold Sem.inorder_w at 1. cbn [Sem.inorder].
  destruct (flm alo ahi blo bhi) as [[i j] k] eqn:Hflm.
  apply flm_bounds in Hflm as (Hi & Hj & Hk & _).
  case_bool_decide as Hpos; [|done]. specialize (Hk Hpos).
  f_equal; [|f_equal].
  - destruct (bool_decide (alo < i) && bool_decide (blo < j)); [|done].
    unfold Sem.inorder_w. apply inorder_fuel; lia.
  - destruct (bool_decide (i + k < ahi) && bool_decide (j + k < bhi));
      [|done].
    unfold Sem.inorder_w. apply inorder_fuel; lia.
Qed.

Lemma inorder_chain n alo ahi blo bhi :
  alo ≤ ahi → blo ≤ bhi →
  chain alo blo (inorder n alo ahi blo bhi) ahi bhi.
Proof.
  revert alo ahi blo bhi. induction n as [|n IH];
    intros alo ahi blo bhi Ha Hb; [done|].
  cbn [Sem.inorder].
  destruct (flm alo ahi blo bhi) as [[i j] k] eqn:Hflm.
  apply flm_bounds in Hflm as (Hi & Hj & Hk & _).
  case_bool_decide as Hpos; [|done]. specialize (Hk Hpos).
  apply chain_app with i j.
  - destruct (bool_decide (alo < i) && bool_decide (blo < j)); [|done].
    by apply IH.
  - simpl. split_and!; [done..|].
    destruct (bool_decide (i + k < ahi) && bool_decide (j + k < bhi));
      [|simpl; lia].
    apply IH; lia.
Qed.

(** The queue loop finds the blocks of [inorder_w], in another order. *)
Lemma blocks_loop_spec fuel queue acc :
  sum_list (weight <$> queue) ≤ fuel →
  ∃ r, blocks_loop a b b2j fuel queue acc = Some r ∧
       r ≡ₚ acc ++ (queue ≫= inorder_w).
Proof.
  revert queue acc. induction fuel as [|fuel IH]; intros queue acc Hw.
  - destruct queue as [|[[[alo ahi] blo] bhi] queue].
    + exists acc. split; [done|]. simpl. by rewrite app_nil_r.
    + simpl in Hw. unfold weight in Hw at 1. lia.
  - destruct queue as [|[[[alo ahi] blo] bhi] queue].
    + exists acc. split; [done|]. simpl. by rewrite app_nil_r.
    + cbn [blocks_loop]. rewrite bind_cons, inorder_w_unfold.
      destruct (flm alo ahi blo bhi) as [[i j] k] eqn:Hflm.
      apply flm_bounds in Hflm as (Hi & Hj & Hk & _).
      cbn [snd]. rewrite fmap_cons in Hw. cbn [sum_list sum_list_with] in Hw.
      unfold weight at 1 in Hw; cbn [fst snd] in Hw.
      set (rest := sum_list (weight <$> queue)) in *.
      case_bool_decide as Hpos.
      * specialize (Hk Hpos). unfold push_windows.
        destruct (IH
          (if bool_decide (i + k < ahi) && bool_decide (j + k < bhi)
           then (i + k, ahi, j + k, bhi)
                :: (if bool_decide (alo < i) && bool_decide (blo < j)
                    then (alo, i, blo, j) :: queue else queue)
           else (if bool_decide (alo < i) && bool_decide (blo < j)
                 then (alo, i, blo, j) :: queue else queue))
          (acc ++ [(i, j, k)])) as (r & Hr & Hperm).
        { destruct (bool_decide (i + k < ahi) && bool_decide (j + k < bhi)),
            (bool_decide (alo < i) && bool_decide (blo < j));
            rewrite ?fmap_cons; cbn [sum_list sum_list_with]; fold rest;
            unfold weight, id in *; cbn [fst snd]; lia. }
        exists r. split; [exact Hr|]. rewrite Hperm.
        destruct (bool_decide (i + k < ahi) && bool_decide (j + k < bhi)),
          (bool_decide (alo < i) && bool_decide (blo < j));
          rewrite ?bind_cons; rewrite <- ?app_assoc; cbn [app];
          apply Permutation_app_head.
        -- rewrite <- Permutation_middle. constructor.
           apply Permutation_app_swap_app.
        -- done.
        -- by rewrite <- Permutation_middle.
        -- done.
      * destruct (IH queue acc) as (r & Hr & Hperm);
          [unfold id in *; fold rest; lia|].
        exists r. split; [exact Hr|]. by rewrite Hperm.
Qed.

Lemma raw_blocks_spec_gen :
  ∃ r, blocks_loop a b b2j (blocks_fuel a) [(0, length a, 0, length b)] []
       = Some r ∧
       r ≡ₚ inorder (S (length a)) 0 (length a) 0 (length b).
Proof.
  destruct (blocks_loop_spec (blocks_fuel a)
              [(0, length a, 0, length b)] []) as (r & Hr & Hperm).
  { unfold blocks_fuel, weight; simpl. lia. }
  exists r. split; [done|]. rewrite Hperm. simpl.
  rewrite app_nil_r, Nat.sub_0_r. done.
Qed.

End InorderFacts.

(** *** The opcodes cover both sequences *)

Section MatcherFacts.
Context `{Countable T}.
Variables a b : list T.

#[local] Abbreviation all_blocks := (all_blocks a b).

Lemma raw_blocks_spec :
  ∃ r, raw_blocks a b = Some r ∧ r ≡ₚ all_blocks.
Proof. apply (raw_blocks_spec_gen a b _ _ (chain_b_lookup b)). Qed.

Lemma all_blocks_chain : chain 0 0 all_blocks (length a) (length b).
Proof.
  apply (inorder_chain a b _ _ (chain_b_lookup b)); lia.
Qed.

Lemma sorted_blocks :
  merge_sort block_le (default [] (raw_blocks a b)) = all_blocks.
Proof.
  destruct raw_blocks_spec as (r & -> & Hperm). simpl.
  apply (StronglySorted_unique block_le).
  - apply StronglySorted_merge_sort; apply _.
  - eapply chain_sorted, all_blocks_chain.
  - by rewrite merge_sort_Permutation.
Qed.

Lemma get_matching_blocks_eq :
  get_matching_blocks a b
  = collapse all_blocks ++ [(length a, length b, 0)].
Proof. unfold get_matching_blocks. by rewrite sorted_blocks. Qed.

Lemma get_opcodes_eq :
  get_opcodes a b
  = ops_from 0 0 (collapse all_blocks ++ [(length a, length b, 0)]).
Proof.
  unfold get_opcodes. by rewrite get_matching_blocks_eq, opcodes_of_blocks_eq.
Qed.

Lemma get_opcodes_tiles :
  tiles 0 (length a) (left_ranges (get_opcodes a b)) ∧
  tiles 0 (length b) (right_ranges (get_opcodes a b)).
Proof.
  rewrite get_opcodes_eq. apply ops_from_tiles, collapse_chain.
  apply all_blocks_chain.
Qed.

End MatcherFacts.

Section Empty.
Context `{Countable T}.

Lemma all_blocks_empty_side (a b : list T) :
  a = [] ∨ b = [] → all_blocks a b = [].
Proof.
  intros Hab. unfold all_blocks. cbn [inorder].
  destruct (find_longest_match a b (chain_b b) 0 (length a) 0 (length b))
    as [[i j] k] eqn:Hflm.
  apply (flm_bounds a b _ _ (chain_b_lookup b)) in Hflm
    as (_ & _ & Hk & _).
  case_bool_decide as Hpos; [|done]. specialize (Hk Hpos).
  destruct Hab as [-> | ->]; simpl in Hk; lia.
Qed.

Lemma get_opcodes_right_empty (a : list T) :
  a ≠ [] → get_opcodes a [] = [Opcode Delete 0 (length a) 0 0].
Proof.
  intros Ha. rewrite get_opcodes_eq, all_blocks_empty_side by auto.
  destruct a; [done|]. reflexivity.
Qed.

Lemma get_opcodes_left_empty (b : list T) :
  b ≠ [] → get_opcodes [] b = [Opcode Insert 0 0 0 (length b)].
Proof.
  intros Hb. rewrite get_opcodes_eq, all_blocks_empty_side by auto.
  destruct b; [done|]. reflexivity.
Qed.

Lemma get_opcodes_both_empty : get_opcodes (@nil T) [] = [].
Proof. rewrite get_opcodes_eq, all_blocks_empty_side by auto. done. Qed.

End Empty.

(** *** The longest block *)

Section BlockFacts.
Context {T : Type}.
Variables a b : list T.

#[local] Abbreviation is_match := (is_match a b).
#[local] Abbreviation is_block := (is_block a b).
#[local] Abbreviation best_block := (best_block a b).

Lemma best_block_unique alo ahi blo bhi m1 m2 :
  best_block alo ahi blo bhi m1 → best_block alo ahi blo bhi m2 → m1 = m2.
Proof.
  destruct m1 as [[i1 j1] k1], m2 as [[i2 j2] k2].
  intros (Hb1 & Hz1 & Hm1) (Hb2 & Hz2 & Hm2).
  destruct (Hm1 _ Hb2) as [Hle1 Hlex1], (Hm2 _ Hb1) as [Hle2 Hlex2].
  simpl in *. assert (k1 = k2) as -> by lia.
  destruct (decide (k2 = 0)) as [->|Hk].
  - apply block_eq; lia.
  - apply block_eq; lia.
Qed.

Lemma is_match_extend_lo i j k :
  is_match (S i, S j, k) →
  (∃ e, a !! i = Some e ∧ b !! j = Some e) → is_match (i, j, S k).
Proof.
  intros Hm He [|t] Ht; simpl in *.
  - by rewrite !Nat.add_0_r.
  - rewrite <- !Nat.add_succ_comm. apply Hm. simpl. lia.
Qed.

Lemma is_match_extend_hi i j k :
  is_match (i, j, k) →
  (∃ e, a !! (i + k) = Some e ∧ b !! (j + k) = Some e) →
  is_match (i, j, S k).
Proof.
  intros Hm He t Ht; simpl in *.
  destruct (decide (t = k)) as [->|Hne]; [done|]. apply Hm. simpl. lia.
Qed.

End BlockFacts.

Section RunLen.
Context `{Countable T}.
Variables (a b : list T) (pop : gset T).
Variables alo blo bhi : nat.

#[local] Abbreviation hit := (hit a b pop alo blo bhi).
#[local] Abbreviation run_len := (run_len a b pop alo blo bhi).

Lemma run_len_hits i j t :
  t < run_len i j → t ≤ i ∧ t ≤ j ∧ hit (i - t) (j - t).
Proof.
  revert j t. induction i as [|i IH]; intros j t.
  - simpl. destruct (decide (hit 0 j)) as [Hh|]; [|lia].
    intros Ht. assert (t = 0) as -> by lia.
    split; [lia|split; [lia|]]. by rewrite !Nat.sub_0_r.
  - simpl. destruct (decide (hit (S i) j)) as [Hh|]; [|lia].
    destruct j as [|j].
    + intros Ht. assert (t = 0) as -> by lia.
      split; [lia|split; [lia|done]].
    + intros Ht. destruct t as [|t]; [split; [lia|split; [lia|done]]|].
      destruct (IH j t) as (?&?&?); [lia|].
      split; [lia|split; [lia|done]].
Qed.

Lemma run_len_complete m i j :
  m ≤ i + 1 → m ≤ j + 1 → (∀ t, t < m → hit (i - t) (j - t)) →
  m ≤ run_len i j.
Proof.
  revert i j. induction m as [|m IH]; intros i j Hi Hj Hh; [lia|].
  pose proof (Hh 0 ltac:(lia)) as Hh0. rewrite !Nat.sub_0_r in Hh0.
  rewrite (run_len_unfold a b pop alo blo bhi).
  destruct (decide (hit i j)) as [_|?]; [|done].
  destruct (decide (m = 0)) as [->|Hm]; [lia|].
  destruct i as [|i]; [lia|]. destruct j as [|j]; [lia|]. simpl.
  apply le_n_S, IH; [lia|lia|].
  intros t Ht. specialize (Hh (S t) ltac:(lia)). done.
Qed.

End RunLen.

Lemma elt_eq_true `{Countable T} (x y : option T) :
  elt_eq x y = true ↔ ∃ e, x = Some e ∧ y = Some e.
Proof.
  destruct x as [u|], y as [v|]; simpl.
  - rewrite bool_decide_eq_true. split.
    + intros ->. by exists v.
    + intros (e & [= ->] & [= ->]). done.
  - split; [done|]. intros (e & _ & ?). done.
  - split; [done|]. intros (e & ? & _). done.
  - split; [done|]. intros (e & ? & _). done.
Qed.

Lemma isbjunk_false `{Countable T} (x : option T) : isbjunk x = false.
Proof.
  destruct x as [e|]; [|done]. unfold isbjunk, bjunk.
  apply bool_decide_eq_false_2, not_elem_of_empty.
Qed.

Section FlmBest.
Context `{Countable T}.
Variables (a b : list T) (b2j : gmap T (list nat)) (pop : gset T).
Hypothesis Hb2j : ∀ e,
  default [] (b2j !! e) = if decide (e ∈ pop) then [] else indices e b.
Hypothesis Hpop : ∀ e, e ∉ pop.
Variables alo ahi blo bhi : nat.
Hypothesis Hwa : alo ≤ ahi.
Hypothesis Hwb : blo ≤ bhi.

#[local] Abbreviation hit := (hit a b pop alo blo bhi).
#[local] Abbreviation run_len := (run_len a b pop alo blo bhi).

Lemma hit_iff i j :
  hit i j ↔ alo ≤ i ∧ blo ≤ j ∧ j < bhi ∧
            ∃ e, a !! i = Some e ∧ b !! j = Some e.
Proof.
  unfold Sem.hit, elt_hit. destruct (a !! i) as [e|].
  - split.
    + intros (?&?&?&?&?). split_and!; [done..|]. by exists e.
    + intros (?&?&?&e'&[= <-]&?). split_and!; [done..|apply Hpop].
  - split.
    + intros (?&?&?&[]).
    + intros (?&?&?&e'&?&?). done.
Qed.

Lemma ext_guard_false i j :
  ext_guard a b false i j = true ↔
  ∃ e, a !! i = Some e ∧ b !! j = Some e.
Proof.
  unfold ext_guard. rewrite isbjunk_false. simpl. apply elt_eq_true.
Qed.

Lemma ext_guard_junk i j : ext_guard a b true i j = false.
Proof. unfold ext_guard. by rewrite isbjunk_false. Qed.

Lemma extend_junk_id m : extend a b true alo ahi blo bhi m = m.
Proof.
  destruct m as [[i j] k]. unfold extend; simpl.
  destruct (extend_lo_spec a b alo blo true i j k)
    as (d & -> & _ & _ & Hd & _).
  assert (d = 0) as ->.
  { destruct d as [|d]; [done|].
    specialize (Hd 0 ltac:(lia)). by rewrite ext_guard_junk in Hd. }
  destruct (extend_hi_spec a b bhi true (ahi - (i - 0 + (k + 0)))
              (i - 0) (j - 0) (k + 0)) as (d & -> & _ & _ & Hd' & _).
  assert (d = 0) as ->.
  { destruct d as [|d]; [done|].
    specialize (Hd' 0 ltac:(lia)). by rewrite ext_guard_junk in Hd'. }
  apply block_eq; lia.
Qed.

Lemma block_hit_run m t :
  is_block a b alo ahi blo bhi m → t < m.2 →
  t + 1 ≤ run_len (m.1.1 + t) (m.1.2 + t).
Proof.
  destruct m as [[i j] k]. intros (Hi & Hik & Hj & Hjk & Hm) Ht.
  simpl in *. apply run_len_complete; [lia|lia|].
  intros s Hs. apply hit_iff.
  split; [lia|split; [lia|split; [lia|]]].
  replace (i + t - s) with (i + (t - s)) by lia.
  replace (j + t - s) with (j + (t - s)) by lia.
  apply (Hm (t - s)). simpl. lia.
Qed.

(** Without popular elements the scan already ends with the best block. *)
Lemma flm_scan_best :
  best_block a b alo ahi blo bhi (flm_scan a b2j alo ahi blo bhi).2.
Proof.
  destruct (flm_scan_cases a b b2j pop Hb2j alo ahi blo bhi)
    as [[-> Hnone]|(i & j & Hi & Hj & Hpos & -> & Hmax & Hfirst)].
  - split; [|split].
    + red; simpl. split_and!; [lia..|]. intros t Ht; simpl in Ht; lia.
    + done.
    + intros [[i' j'] k'] Hb'. simpl.
      destruct (decide (k' = 0)) as [->|Hk']; [lia|].
      pose proof (block_hit_run _ 0 Hb' ltac:(simpl; lia)) as Hrun.
      simpl in Hrun. rewrite !Nat.add_0_r in Hrun.
      destruct Hb' as (?&?&?&?&?); simpl in *.
      rewrite Hnone in Hrun by lia. lia.
  - set (k := run_len i j) in *.
    assert (∀ t, t < k → t ≤ i ∧ t ≤ j ∧ hit (i - t) (j - t)) as Hhits
        by (intros t Ht; by apply run_len_hits).
    destruct (Hhits (k - 1) ltac:(lia)) as (Hki & Hkj & Hlast).
    apply hit_iff in Hlast as (Hlo1 & Hlo2 & _).
    destruct (Hhits 0 ltac:(lia)) as (_ & _ & Hfst).
    apply hit_iff in Hfst as (_ & _ & Hbhi & _).
    rewrite Nat.sub_0_r in Hbhi.
    split; [|split].
    + red; simpl. split_and!; [lia..|]. intros t Ht; simpl in *.
      destruct (Hhits (k - 1 - t) ltac:(lia)) as (_ & _ & Hh).
      apply hit_iff in Hh as (_ & _ & _ & He).
      replace (i + 1 - k + t) with (i - (k - 1 - t)) by lia.
      replace (j + 1 - k + t) with (j - (k - 1 - t)) by lia. done.
    + simpl. lia.
    + intros [[i' j'] k'] Hb'. simpl.
      destruct (decide (k' = 0)) as [->|Hk']; [lia|].
      pose proof (block_hit_run _ (k' - 1) Hb' ltac:(simpl; lia)) as Hrun.
      simpl in Hrun. destruct Hb' as (?&?&?&?&?); simpl in *.
      specialize (Hmax (i' + (k' - 1)) (j' + (k' - 1)) ltac:(lia)).
      split; [lia|]. intros -> _.
      destruct (decide (lex_lt (i' + (k - 1), j' + (k - 1)) (i, j)))
        as [Hlt|Hnlt].
      * specialize (Hfirst (i' + (k - 1)) (j' + (k - 1)) ltac:(lia) Hlt). lia.
      * unfold lex_lt in Hnlt; simpl in Hnlt. lia.
Qed.

Lemma extend_best_id m :
  best_block a b alo ahi blo bhi m →
  extend a b false alo ahi blo bhi m = m.
Proof.
  destruct m as [[i j] k]. intros (Hb & _ & Hmax).
  destruct Hb as (Hi & Hik & Hj & Hjk & Hm); simpl in *.
  unfold extend; simpl.
  destruct (extend_lo_spec a b alo blo false i j k)
    as (d & -> & Hd1 & Hd2 & Hd & _).
  assert (d = 0) as ->.
  { destruct d as [|d]; [done|]. exfalso.
    specialize (Hd 0 ltac:(lia)). apply ext_guard_false in Hd.
    rewrite !Nat.sub_0_r in Hd.
    assert (is_block a b alo ahi blo bhi (i - 1, j - 1, S k)) as Hb'.
    { red; simpl. split_and!; [lia..|].
      apply is_match_extend_lo; [|done].
      replace (S (i - 1)) with i by lia.
      replace (S (j - 1)) with j by lia. done. }
    apply Hmax in Hb' as [Hle _]. simpl in Hle. lia. }
  destruct (extend_hi_spec a b bhi false (ahi - (i - 0 + (k + 0)))
              (i - 0) (j - 0) (k + 0)) as (d & -> & Hd1' & Hd2' & Hd' & _).
  assert (d = 0) as ->.
  { destruct d as [|d]; [done|]. exfalso.
    specialize (Hd' 0 ltac:(lia)). apply ext_guard_false in Hd'.
    rewrite !Nat.sub_0_r, !Nat.add_0_r in Hd'.
    assert (is_block a b alo ahi blo bhi (i, j, S k)) as Hb'.
    { red; simpl. split_and!; [lia..|].
      by apply is_match_extend_hi. }
    apply Hmax in Hb' as [Hle _]. simpl in Hle. lia. }
  apply block_eq; lia.
Qed.

Lemma flm_best :
  best_block a b alo ahi blo bhi
    (find_longest_match a b b2j alo ahi blo bhi).
Proof.
  unfold find_longest_match.
  rewrite extend_junk_id, extend_best_id; apply flm_scan_best.
Qed.

End FlmBest.

(** *** The block of the specification *)

Lemma lookup_slice {A} (l : list A) x y t :
  slice l x y !! t = if decide (t < y - x) then l !! (x + t) else None.
Proof. unfold slice. rewrite lookup_take. by rewrite lookup_drop. Qed.

Lemma bind_singleton_fmap {A B} (f : A → B) (l : list A) :
  (x ← l; [f x]) = f <$> l.
Proof. induction l as [|x l IH]; [done|]. rewrite bind_cons, IH. done. Qed.

Lemma starts_grid alo ahi blo bhi :
  starts alo ahi blo bhi = grid alo (ahi - alo) blo (bhi - blo).
Proof.
  unfold starts, grid.
  induction (seq alo (ahi - alo)) as [|i l IH]; [done|].
  rewrite !bind_cons, IH. f_equal. all: apply bind_singleton_fmap.
Qed.

Section SpecBest.
Context `{EqDecision T}.
Variables a b : list T.

Lemma common_prefix_lookup (l1 l2 : list T) t :
  t < common_prefix l1 l2 → ∃ e, l1 !! t = Some e ∧ l2 !! t = Some e.
Proof.
  revert l2 t. induction l1 as [|x l1 IH]; intros [|y l2] t; simpl;
    try lia.
  destruct (decide (x = y)) as [->|]; [|lia].
  destruct t as [|t]; simpl; [eauto|]. intros Ht. apply IH. lia.
Qed.

Lemma common_prefix_complete (l1 l2 : list T) m :
  (∀ t, t < m → ∃ e, l1 !! t = Some e ∧ l2 !! t = Some e) →
  m ≤ common_prefix l1 l2.
Proof.
  revert l1 l2. induction m as [|m IH]; intros l1 l2 Hm; [lia|].
  destruct (Hm 0 ltac:(lia)) as (e & H1 & H2).
  destruct l1 as [|x l1], l2 as [|y l2]; simplify_eq/=.
  rewrite decide_True by done. apply le_n_S, IH.
  intros t Ht. apply (Hm (S t)). lia.
Qed.

Lemma block_len_is_block alo ahi blo bhi i j :
  alo ≤ i → i ≤ ahi → blo ≤ j → j ≤ bhi →
  is_block a b alo ahi blo bhi (i, j, block_len a b ahi bhi i j).
Proof.
  intros Hi Hi' Hj Hj'.
  assert (∀ t, t < block_len a b ahi bhi i j →
          t < ahi - i ∧ t < bhi - j ∧
          ∃ e, a !! (i + t) = Some e ∧ b !! (j + t) = Some e) as Hlk.
  { intros t Ht. apply common_prefix_lookup in Ht as (e & H1 & H2).
    rewrite lookup_slice in H1, H2.
    destruct (decide (t < ahi - i)); [|done].
    destruct (decide (t < bhi - j)); [|done]. eauto. }
  red; simpl. split_and!; [done| |done| |].
  - destruct (block_len a b ahi bhi i j) as [|k] eqn:Hk; [lia|].
    specialize (Hlk k ltac:(lia)). lia.
  - destruct (block_len a b ahi bhi i j) as [|k] eqn:Hk; [lia|].
    specialize (Hlk k ltac:(lia)). lia.
  - intros t Ht. simpl in Ht. by apply Hlk.
Qed.

Lemma block_len_complete alo ahi blo bhi i j k :
  is_block a b alo ahi blo bhi (i, j, k) → k ≤ block_len a b ahi bhi i j.
Proof.
  intros (Hi & Hik & Hj & Hjk & Hm); simpl in *.
  apply common_prefix_complete. intros t Ht.
  rewrite !lookup_slice. rewrite !decide_True by lia.
  by apply (Hm t).
Qed.

Lemma longest_block_best alo ahi blo bhi :
  alo ≤ ahi → blo ≤ bhi →
  best_block a b alo ahi blo bhi (longest_block a b alo ahi blo bhi).
Proof.
  intros Hwa Hwb. unfold longest_block. rewrite starts_grid.
  assert (∀ i' j' k', is_block a b alo ahi blo bhi (i', j', k') → 0 < k' →
          (i', j') ∈ grid alo (ahi - alo) blo (bhi - blo) ∧
          k' ≤ block_len a b ahi bhi i' j') as Hin.
  { intros i' j' k' Hb' Hk'. split; [|by eapply block_len_complete].
    destruct Hb' as (?&?&?&?&_); simpl in *. apply elem_of_grid. lia. }
  destruct (foldl_first_max (λ ij, block_len a b ahi bhi ij.1 ij.2)
              (λ ij, (ij.1, ij.2, block_len a b ahi bhi ij.1 ij.2))
              (grid alo (ahi - alo) blo (bhi - blo)) (alo, blo, 0))
    as [[Hr Hall]|(l1 & [i j] & l2 & Hl & Hr & Hpos & Hbefore & Hafter)];
    [done| |].
  - rewrite Hr. split; [|split].
    + red; simpl. split_and!; [lia..|]. intros t Ht; simpl in Ht; lia.
    + done.
    + intros [[i' j'] k'] Hb'. simpl.
      destruct (decide (k' = 0)) as [->|Hk']; [lia|].
      destruct (Hin _ _ _ Hb' ltac:(lia)) as [Hg Hle].
      specialize (Hall _ Hg). simpl in Hall. lia.
  - rewrite Hr. simpl in *.
    assert ((i, j) ∈ grid alo (ahi - alo) blo (bhi - blo)) as Hij.
    { rewrite Hl. apply elem_of_app. right. left. }
    apply elem_of_grid in Hij.
    split; [|split].
    + apply block_len_is_block; lia.
    + simpl. lia.
    + intros [[i' j'] k'] Hb'. simpl.
      destruct (decide (k' = 0)) as [->|Hk']; [lia|].
      destruct (Hin _ _ _ Hb' ltac:(lia)) as [Hg Hle].
      assert (block_len a b ahi bhi i' j' ≤ block_len a b ahi bhi i j)
        as Hmax.
      { pose proof Hg as Hg'. rewrite Hl in Hg'.
        apply elem_of_app in Hg' as [Hg'|Hg'].
        - specialize (Hbefore _ Hg'). simpl in Hbefore. lia.
        - apply elem_of_cons in Hg' as [[= -> ->]|Hg']; [done|].
          by specialize (Hafter _ Hg'). }
      split; [lia|]. intros Heq _.
      destruct (decide (lex_lt (i', j') (i, j))) as [Hlt|Hnlt].
      * pose proof (grid_before _ _ _ _ _ _ _ _ Hl Hg Hlt) as Hl1.
        specialize (Hbefore _ Hl1). simpl in Hbefore. lia.
      * unfold lex_lt in Hnlt; simpl in Hnlt. lia.
Qed.

End SpecBest.

(** Without popular elements [find_longest_match] returns the block the
    specification describes. *)
Lemma flm_longest_block `{Countable T} (a b : list T) alo ahi blo bhi :
  bpopular b = ∅ → alo ≤ ahi → blo ≤ bhi →
  find_longest_match a b (chain_b b) alo ahi blo bhi
  = longest_block a b alo ahi blo bhi.
Proof.
  intros Hpop Hwa Hwb.
  apply (best_block_unique a b alo ahi blo bhi).
  - apply (flm_best a b (chain_b b) (bpopular b)); [|  |done|done].
    + apply chain_b_lookup.
    + intros e. rewrite Hpop. apply not_elem_of_empty.
  - by apply longest_block_best.
Qed.

(** *** The opcodes of the specification *)

Lemma no_adj_app l1 m l2 :
  no_adj l1 → no_adj (m :: l2) → (∀ m1, last l1 = Some m1 → ¬ adj m1 m) →
  no_adj (l1 ++ m :: l2).
Proof.
  induction l1 as [|m1 l1 IH]; intros H1 H2 Hlast; [done|].
  destruct l1 as [|m1' l1].
  - simpl. split; [|done]. by apply Hlast.
  - destruct H1 as [Hadj H1]. split; [done|].
    apply IH; [done|done|]. intros m0 Hm0. by apply Hlast.
Qed.

Lemma collapse_from_no_adj l cur :
  0 < cur.2 → no_adj (cur :: l) → Forall (λ m, 0 < m.2) l →
  collapse_from cur l = cur :: l.
Proof.
  revert cur. induction l as [|m l IH]; intros cur Hk Hna Hpos.
  - simpl. unfold opt_block. by rewrite bool_decide_eq_true_2.
  - cbn [collapse_from]. destruct Hna as [Hadj Hna].
    apply Forall_cons in Hpos as [Hm Hpos].
    destruct (bool_decide (cur.1.1 + cur.2 = m.1.1) &&
              bool_decide (cur.1.2 + cur.2 = m.1.2)) eqn:Ha.
    + exfalso. apply Hadj.
      apply andb_prop in Ha as [?%bool_decide_eq_true ?%bool_decide_eq_true].
      by split.
    + rewrite IH by done. unfold opt_block.
      by rewrite bool_decide_eq_true_2.
Qed.

Lemma collapse_no_adj l :
  no_adj l → Forall (λ m, 0 < m.2) l → collapse l = l.
Proof.
  intros Hna Hpos. rewrite collapse_eq. destruct l as [|[[i j] k] l]; [done|].
  apply Forall_cons in Hpos as [Hk Hpos]. cbn [collapse_from fst snd].
  destruct (bool_decide (0 + 0 = i) && bool_decide (0 + 0 = j)) eqn:Ha.
  - apply andb_prop in Ha as [<-%bool_decide_eq_true <-%bool_decide_eq_true].
    simpl. by apply collapse_from_no_adj.
  - simpl. by apply collapse_from_no_adj.
Qed.

Lemma is_block_weaken {T} (a b : list T) alo ahi blo bhi alo' ahi' blo' bhi' m :
  alo' ≤ alo → ahi ≤ ahi' → blo' ≤ blo → bhi ≤ bhi' →
  is_block a b alo ahi blo bhi m → is_block a b alo' ahi' blo' bhi' m.
Proof. unfold is_block. intros ???? (?&?&?&?&?). split_and!; [lia..|done]. Qed.

Section NoPopular.
Context `{Countable T}.
Variables a b : list T.
Hypothesis Hpop : bpopular b = ∅.

#[local] Abbreviation flm := (find_longest_match a b (chain_b b)).
#[local] Abbreviation inorder := (inorder a b (chain_b b)).

Lemma inorder_empty_side n alo ahi blo bhi :
  alo = ahi ∨ blo = bhi → inorder n alo ahi blo bhi = [].
Proof.
  intros Hside. destruct n as [|n]; [done|]. cbn [Sem.inorder].
  destruct (flm alo ahi blo bhi) as [[i j] k] eqn:Hflm.
  apply (flm_bounds a b _ _ (chain_b_lookup b)) in Hflm
    as (Hi & Hj & Hk & _).
  case_bool_decide as Hpos; [|done]. specialize (Hk Hpos). lia.
Qed.

Lemma inorder_unfold n alo ahi blo bhi :
  alo ≤ ahi → blo ≤ bhi →
  inorder (S n) alo ahi blo bhi =
  let '(i, j, k) := longest_block a b alo ahi blo bhi in
  if bool_decide (0 < k)
  then inorder n alo i blo j ++ (i, j, k) :: inorder n (i + k) ahi (j + k) bhi
  else [].
Proof.
  intros Hwa Hwb. cbn [Sem.inorder]. rewrite flm_longest_block by done.
  pose proof (longest_block_best a b alo ahi blo bhi Hwa Hwb)
    as ((Hi & Hik & Hj & Hjk & _) & _).
  destruct (longest_block a b alo ahi blo bhi) as [[i j] k]; simpl in *.
  case_bool_decide as Hpos; [|done]. f_equal; [|f_equal].
  - destruct (bool_decide (alo < i) && bool_decide (blo < j)) eqn:Hc;
      [done|].
    symmetry. apply inorder_empty_side.
    apply andb_false_iff in Hc as [Hc|Hc];
      apply bool_decide_eq_false in Hc; lia.
  - destruct (bool_decide (i + k < ahi) && bool_decide (j + k < bhi)) eqn:Hc;
      [done|].
    symmetry. apply inorder_empty_side.
    apply andb_false_iff in Hc as [Hc|Hc];
      apply bool_decide_eq_false in Hc; lia.
Qed.

(** The blocks found are matching blocks of the window, none empty, and no
    two of them adjacent. *)
Lemma inorder_props n alo ahi blo bhi :
  alo ≤ ahi → blo ≤ bhi →
  Forall (λ m, is_block a b alo ahi blo bhi m ∧ 0 < m.2)
         (inorder n alo ahi blo bhi) ∧
  no_adj (inorder n alo ahi blo bhi).
Proof.
  revert alo ahi blo bhi. induction n as [|n IH];
    intros alo ahi blo bhi Hwa Hwb; [by split|].
  rewrite inorder_unfold by done.
  pose proof (longest_block_best a b alo ahi blo bhi Hwa Hwb)
    as (Hblk & _ & Hmax).
  destruct (longest_block a b alo ahi blo bhi) as [[i j] k].
  pose proof Hblk as (Hi & Hik & Hj & Hjk & Hm); simpl in *.
  case_bool_decide as Hpos; [|by split].
  destruct (IH alo i blo j Hi Hj) as [HL1 HL2].
  destruct (IH (i + k) ahi (j + k) bhi Hik Hjk) as [HR1 HR2].
  split.
  - apply Forall_app. split; [|apply Forall_cons; split].
    + eapply Forall_impl; [exact HL1|]. intros m [Hb ?]. split; [|done].
      eapply is_block_weaken; [| | | |exact Hb]; lia.
    + done.
    + eapply Forall_impl; [exact HR1|]. intros m [Hb ?]. split; [|done].
      eapply is_block_weaken; [| | | |exact Hb]; lia.
  - apply no_adj_app; [done| |].
    + split; [|done].
      destruct (inorder n (i + k) ahi (j + k) bhi) as [|m2 R] eqn:HR;
        [done|].
      apply Forall_cons in HR1 as [[Hb2 Hk2] _].
      destruct m2 as [[i2 j2] k2]. intros [Ha1 Ha2]; simpl in *.
      destruct Hb2 as (?&?&?&?&Hm2); simpl in *.
      assert (is_block a b alo ahi blo bhi (i, j, S k)) as Hb'.
      { red; simpl. split_and!; [lia..|].
        apply is_match_extend_hi; [done|].
        specialize (Hm2 0 Hk2). simpl in Hm2.
        rewrite !Nat.add_0_r in Hm2. by subst. }
      apply Hmax in Hb' as [Hle _]. simpl in Hle. lia.
    + intros [[i1 j1] k1] Hlast. apply last_Some_elem_of in Hlast.
      rewrite Forall_forall in HL1. destruct (HL1 _ Hlast) as [Hb1 Hk1].
      intros [Ha1 Ha2]; simpl in *.
      destruct Hb1 as (?&?&?&?&Hm1); simpl in *.
      assert (is_block a b alo ahi blo bhi (i - 1, j - 1, S k)) as Hb'.
      { red; simpl. split_and!; [lia..|].
        apply is_match_extend_lo.
        - replace (S (i - 1)) with i by lia.
          replace (S (j - 1)) with j by lia. done.
        - specialize (Hm1 (k1 - 1) ltac:(simpl; lia)). simpl in Hm1.
          replace (i1 + (k1 - 1)) with (i - 1) in Hm1 by lia.
          replace (j1 + (k1 - 1)) with (j - 1) in Hm1 by lia. done. }
      apply Hmax in Hb' as [Hle _]. simpl in Hle. lia.
Qed.

Lemma align_leaf alo ahi blo bhi :
  (if decide (alo < ahi ∧ blo < bhi) then [Opcode Replace alo ahi blo bhi]
   else if decide (alo < ahi) then [Opcode Delete alo ahi blo bhi]
   else if decide (blo < bhi) then [Opcode Insert alo ahi blo bhi]
   else []) = gap_op alo blo ahi bhi.
Proof.
  unfold gap_op. repeat case_decide; repeat case_bool_decide; simpl;
    try done; lia.
Qed.

Lemma ops_from_cons i j ai bj size rest :
  ops_from i j ((ai, bj, size) :: rest) =
  gap_op i j ai bj
    ++ (if bool_decide (0 < size)
        then [Opcode Equal ai (ai + size) bj (bj + size)] else [])
    ++ ops_from (ai + size) (bj + size) rest.
Proof. done. Qed.

Lemma gap_op_refl i j : gap_op i j i j = [].
Proof.
  unfold gap_op. rewrite !(bool_decide_eq_false_2 (i < i)) by lia.
  by rewrite !(bool_decide_eq_false_2 (j < j)) by lia.
Qed.

Lemma ops_align n alo ahi blo bhi k' rest :
  alo ≤ ahi → blo ≤ bhi → ahi - alo < n →
  ops_from alo blo (inorder n alo ahi blo bhi ++ (ahi, bhi, k') :: rest)
  = align a b n alo ahi blo bhi ++ ops_from ahi bhi ((ahi, bhi, k') :: rest).
Proof.
  revert alo ahi blo bhi k' rest. induction n as [|n IH];
    intros alo ahi blo bhi k' rest Hwa Hwb Hn; [lia|].
  rewrite inorder_unfold by done. cbn [align].
  pose proof (longest_block_best a b alo ahi blo bhi Hwa Hwb)
    as ((Hi & Hik & Hj & Hjk & _) & _).
  destruct (longest_block a b alo ahi blo bhi) as [[i j] k];
    simpl in Hi, Hik, Hj, Hjk.
  case_bool_decide as Hpos.
  - rewrite decide_True by done.
    rewrite <- !app_assoc. cbn [app].
    rewrite (IH alo i blo j) by lia.
    rewrite (ops_from_cons i j i j k), gap_op_refl.
    rewrite bool_decide_eq_true_2 by done.
    rewrite (IH (i + k) ahi (j + k) bhi) by lia. done.
  - rewrite decide_False by done. rewrite align_leaf.
    cbn [app]. rewrite (ops_from_cons alo blo), (ops_from_cons ahi bhi).
    by rewrite gap_op_refl.
Qed.

Lemma get_opcodes_spec : get_opcodes a b = spec_opcodes a b.
Proof.
  rewrite get_opcodes_eq. unfold all_blocks, spec_opcodes.
  destruct (inorder_props (S (length a)) 0 (length a) 0 (length b))
    as [Hall Hna]; [lia..|].
  rewrite collapse_no_adj; [|done|].
  - rewrite ops_align by lia. rewrite ops_from_cons, gap_op_refl.
    rewrite bool_decide_eq_false_2 by lia. cbn [ops_from app].
    by rewrite app_nil_r.
  - eapply Forall_impl; [exact Hall|]. by intros m [_ ?].
Qed.

(** More depth than the window is long changes nothing. *)
Lemma align_fuel n m alo ahi blo bhi :
  alo ≤ ahi → blo ≤ bhi → ahi - alo < n → ahi - alo < m →
  align a b n alo ahi blo bhi = align a b m alo ahi blo bhi.
Proof.
  revert m alo ahi blo bhi. induction n as [|n IH];
    intros m alo ahi blo bhi Hwa Hwb Hn Hm; [lia|].
  destruct m as [|m]; [lia|]. cbn [align].
  pose proof (longest_block_best a b alo ahi blo bhi Hwa Hwb)
    as ((Hi & Hik & Hj & Hjk & _) & _).
  destruct (longest_block a b alo ahi blo bhi) as [[i j] k]; simpl in *.
  case_decide as Hpos; [|done].
  f_equal; [|f_equal]; apply IH; lia.
Qed.

End NoPopular.

(** *** Equal sequences *)

Section Identity.
Context `{Countable T}.
Variable a : list T.

#[local] Abbreviation n := (length a).
#[local] Abbreviation pop := (bpopular a).
#[local] Abbreviation hit := (hit a a pop 0 0 n).
#[local] Abbreviation run_len := (run_len a a pop 0 0 n).

Lemma hit_diag_l i j : hit i j → i < n → hit i i.
Proof.
  intros (_ & _ & _ & Hh) Hi. unfold elt_hit in Hh.
  destruct (a !! i) as [e|] eqn:He; [|done]. destruct Hh as [_ Hp].
  apply hit_intro; [lia|lia|done|]. unfold elt_hit. by rewrite He.
Qed.

Lemma hit_diag_r i j : hit i j → hit j j.
Proof.
  intros (_ & _ & Hj & Hh). unfold elt_hit in Hh.
  destruct (a !! i) as [e|] eqn:He; [|done]. destruct Hh as [Hb Hp].
  apply hit_intro; [lia|lia|done|]. unfold elt_hit. by rewrite Hb.
Qed.

Lemma run_len_diag_l i j : i < n → run_len i j ≤ run_len i i.
Proof.
  revert j. induction i as [|i IH]; intros j Hi.
  - simpl. destruct (decide (hit 0 j)) as [Hh|]; [|lia].
    apply hit_diag_l in Hh as Hd; [|done].
    destruct (decide (hit 0 0)) as [_|]; [|done]. destruct j; lia.
  - simpl. destruct (decide (hit (S i) j)) as [Hh|]; [|lia].
    apply hit_diag_l in Hh as Hd; [|done].
    destruct (decide (hit (S i) (S i))) as [_|]; [|done].
    destruct j as [|j]; [lia|]. apply le_n_S, IH. lia.
Qed.

Lemma run_len_diag_r i j : run_len i j ≤ run_len j j.
Proof.
  revert j. induction i as [|i IH]; intros j.
  - simpl. destruct (decide (hit 0 j)) as [Hh|]; [|lia].
    apply hit_diag_r in Hh as Hd.
    rewrite (run_len_unfold a a pop 0 0 n j j).
    destruct (decide (hit j j)) as [_|]; [|done]. destruct j; lia.
  - simpl. destruct (decide (hit (S i) j)) as [Hh|]; [|lia].
    apply hit_diag_r in Hh as Hd.
    destruct j as [|j].
    + simpl. destruct (decide (hit 0 0)) as [_|]; [lia|done].
    + simpl. destruct (decide (hit (S j) (S j))) as [_|]; [|done].
      apply le_n_S, IH.
Qed.

Lemma guard_diag t : t < n → ext_guard a a false t t = true.
Proof.
  intros Ht. unfold ext_guard. rewrite isbjunk_false. simpl.
  apply elt_eq_true. destruct (lookup_lt_is_Some_2 a t Ht) as [e He].
  by exists e.
Qed.

(** On two equal sequences the scan ends on the diagonal. *)
Lemma flm_scan_diag :
  ∃ s k, (flm_scan a (chain_b a) 0 n 0 n).2 = (s, s, k) ∧ s + k ≤ n.
Proof.
  destruct (flm_scan_cases a a (chain_b a) pop (chain_b_lookup a) 0 n 0 n)
    as [[-> _]|(i & j & Hi & Hj & Hpos & -> & _ & Hfirst)].
  - exists 0, 0. split; [done|lia].
  - assert (i = j) as <-.
    { destruct (decide (i = j)) as [|Hne]; [done|]. exfalso.
      destruct (decide (j < i)).
      - specialize (Hfirst j j ltac:(lia)
                      ltac:(left; simpl; lia)).
        pose proof (run_len_diag_r i j). lia.
      - specialize (Hfirst i i ltac:(lia)
                      ltac:(right; simpl; lia)).
        pose proof (run_len_diag_l i j ltac:(lia)). lia. }
    pose proof (run_len_bound a a pop 0 0 n i i) as [Hb _].
    eexists _, _. split; [done|]. lia.
Qed.

Lemma flm_same : find_longest_match a a (chain_b a) 0 n 0 n = (0, 0, n).
Proof.
  unfold find_longest_match. rewrite extend_junk_id by lia.
  destruct flm_scan_diag as (s & k & -> & Hsk).
  unfold extend; simpl.
  destruct (extend_lo_spec a a 0 0 false s s k)
    as (d & -> & Hd1 & _ & _ & Hstop).
  assert (d = s) as ->.
  { destruct (decide (d = s)) as [|Hne]; [done|]. exfalso.
    rewrite guard_diag in Hstop by lia.
    specialize (Hstop ltac:(lia) ltac:(lia)). done. }
  rewrite Nat.sub_diag.
  destruct (extend_hi_spec a a n false (n - (0 + (k + s))) 0 0 (k + s))
    as (d & -> & Hd1' & _ & _ & Hstop').
  assert (d = n - (k + s)) as ->.
  { destruct (decide (d = n - (k + s))) as [|Hne]; [done|]. exfalso.
    rewrite guard_diag in Hstop' by lia.
    specialize (Hstop' ltac:(lia) ltac:(lia)). done. }
  apply block_eq; lia.
Qed.

(** Two equal sequences: one [Equal] opcode over everything, or nothing at
    all when they are empty. *)
Lemma get_opcodes_same :
  get_opcodes a a = if decide (n = 0) then [] else [Opcode Equal 0 n 0 n].
Proof.
  rewrite get_opcodes_eq. unfold all_blocks. cbn [inorder].
  rewrite flm_same. rewrite collapse_eq.
  destruct (decide (n = 0)) as [Hn|Hn].
  - rewrite Hn. reflexivity.
  - rewrite bool_decide_eq_true_2 by lia.
    rewrite (bool_decide_eq_false_2 (0 < 0)) by lia.
    rewrite (bool_decide_eq_false_2 (0 + n < n)) by lia.
    cbn [andb app collapse_from fst snd].
    rewrite !bool_decide_eq_true_2 by lia. cbn [andb collapse_from].
    unfold opt_block; cbn [snd]. rewrite bool_decide_eq_true_2 by lia.
    cbn [app ops_from]. rewrite gap_op_refl.
    rewrite bool_decide_eq_true_2 by lia.
    rewrite Nat.add_0_l. rewrite gap_op_refl.
    rewrite bool_decide_eq_false_2 by lia. done.
Qed.

End Identity.

(** *** The line pass *)

(** ** Strings *)

Lemma truthy_true (s : str) : truthy s = true ↔ s ≠ [].
Proof. destruct s; simpl; split; congruence. Qed.

Lemma truthy_false (s : str) : truthy s = false ↔ s = [].
Proof. destruct s; simpl; split; congruence. Qed.

Lemma lstrip_spaces (ws s : str) :
  Forall (λ c, is_space c = true) ws → lstrip (ws ++ s) = lstrip s.
Proof.
  induction 1 as [|c ws Hc _ IH]; [done|]. simpl. by rewrite Hc.
Qed.

Lemma lstrip_app (s t : str) :
  lstrip (s ++ t) = match lstrip s with [] => lstrip t | _ => lstrip s ++ t end.
Proof.
  induction s as [|c s IH]; simpl; [by destruct (lstrip t)|].
  destruct (is_space c); [done|]. done.
Qed.

Lemma rstrip_spaces (s ws : str) :
  Forall (λ c, is_space c = true) ws → rstrip (s ++ ws) = rstrip s.
Proof.
  intros Hws. unfold rstrip. rewrite reverse_app.
  rewrite lstrip_spaces; [done|]. by apply Forall_reverse.
Qed.

Lemma lstrip_all_spaces (ws : str) :
  Forall (λ c, is_space c = true) ws → lstrip ws = [].
Proof.
  intros Hws. rewrite <- (app_nil_r ws). by rewrite lstrip_spaces.
Qed.

(** Whitespace around a text does not survive [strip]. *)
Lemma strip_padding (l s r : str) :
  Forall (λ c, is_space c = true) l → Forall (λ c, is_space c = true) r →
  strip (l ++ s ++ r) = strip s.
Proof.
  intros Hl Hr. unfold strip. rewrite lstrip_spaces by done.
  rewrite lstrip_app. destruct (lstrip s) as [|c s'] eqn:Hs.
  - by rewrite lstrip_all_spaces.
  - by rewrite rstrip_spaces.
Qed.

Lemma lstrip_head (s : str) c s' : lstrip s = c :: s' → is_space c = false.
Proof.
  induction s as [|x s IH]; simpl; [done|].
  destruct (is_space x) eqn:Hx; [done|]. by intros [= <- _].
Qed.

Lemma lstrip_idemp (s : str) : lstrip (lstrip s) = lstrip s.
Proof.
  destruct (lstrip s) as [|c s'] eqn:Hs; [done|].
  apply lstrip_head in Hs. simpl. by rewrite Hs.
Qed.

Lemma rstrip_idemp (s : str) : rstrip (rstrip s) = rstrip s.
Proof. unfold rstrip. by rewrite reverse_involutive, lstrip_idemp. Qed.

Lemma rstrip_cons (c : N) (s : str) :
  rstrip (c :: s) =
  match rstrip s with
  | [] => if is_space c then [] else [c]
  | _ => c :: rstrip s
  end.
Proof.
  unfold rstrip. rewrite reverse_cons, lstrip_app.
  destruct (lstrip (reverse s)) as [|x l] eqn:Hl.
  - simpl. by destruct (is_space c).
  - rewrite reverse_app. simpl.
    destruct (reverse (x :: l)) as [|y l'] eqn:Hr; [|done].
    apply (f_equal length) in Hr. rewrite length_reverse in Hr. done.
Qed.

(** What [strip] returns has no whitespace at either end. *)
Lemma strip_stripped (s : str) :
  lstrip (strip s) = strip s ∧ rstrip (strip s) = strip s.
Proof.
  unfold strip. split; [|apply rstrip_idemp].
  destruct (lstrip s) as [|c s'] eqn:Hs; [done|].
  apply lstrip_head in Hs. rewrite rstrip_cons.
  destruct (rstrip s'); rewrite ?Hs; cbn [lstrip]; by rewrite Hs.
Qed.

Lemma lines_of_splitlines (t : str) : lines_of t = splitlines t.
Proof. unfold lines_of. by destruct t. Qed.

Lemma lines_of_text_at (texts : list str) (i : nat) :
  lines_of (text_at texts i) = spec_lines texts i.
Proof.
  rewrite lines_of_splitlines. unfold text_at, spec_lines.
  case_bool_decide as Hi.
  - destruct (lookup_lt_is_Some_2 texts i Hi) as [t ->]. done.
  - rewrite lookup_ge_None_2 by lia. done.
Qed.

(** ** The line pass as a concatenation *)

Lemma foldl_app_bind {A B} (f : list B → A → list B) (g : A → list B)
    (l : list A) (acc : list B) :
  (∀ acc x, f acc x = acc ++ g x) → foldl f acc l = acc ++ (l ≫= g).
Proof.
  intros Hf. revert acc. induction l as [|x l IH]; intros acc.
  - simpl. by rewrite app_nil_r.
  - cbn [foldl]. rewrite IH, Hf, bind_cons. by rewrite app_assoc.
Qed.

Lemma append_change_emit changes page ty ls :
  append_change changes page ty (join NL ls)
  = changes ++ spec_emit page ty ls.
Proof.
  unfold append_change, spec_emit.
  destruct (decide (strip (join NL ls) = [])) as [Hs|Hs].
  - rewrite Hs. simpl. by rewrite app_nil_r.
  - apply truthy_true in Hs. by rewrite Hs.
Qed.

Lemma line_opcode_step_emit page lines1 lines2 changes op :
  line_opcode_step page lines1 lines2 changes op
  = changes ++ spec_opcode_changes page lines1 lines2 op.
Proof.
  unfold line_opcode_step, spec_opcode_changes.
  destruct (op_tag op); rewrite ?append_change_emit, ?app_assoc;
    by rewrite ?app_nil_r.
Qed.

Lemma line_page_step_emit texts1 texts2 changes i :
  line_page_step texts1 texts2 changes i
  = changes ++ spec_page_changes texts1 texts2 i.
Proof.
  unfold line_page_step, spec_page_changes.
  rewrite !lines_of_text_at.
  apply foldl_app_bind. intros. apply line_opcode_step_emit.
Qed.

(** The line pass is the concatenation, page by page and opcode by
    opcode, of the changes the specification lists. *)
Lemma line_diff_concat (texts1 texts2 : list str) :
  line_diff texts1 texts2 = spec_line_diff texts1 texts2.
Proof.
  unfold line_diff, spec_line_diff, max_pages.
  rewrite (foldl_app_bind _ (spec_page_changes texts1 texts2)); [done|].
  intros. apply line_page_step_emit.
Qed.

(** ** No blank change *)

Lemma spec_emit_nonblank page ty ls :
  Forall (λ c, strip (c_text c) ≠ []) (spec_emit page ty ls).
Proof.
  unfold spec_emit. case_decide; [constructor|].
  constructor; [done|constructor].
Qed.

Lemma spec_line_diff_nonblank texts1 texts2 :
  Forall (λ c, strip (c_text c) ≠ []) (spec_line_diff texts1 texts2).
Proof.
  unfold spec_line_diff. apply Forall_bind, Forall_forall. intros p _.
  unfold spec_page_changes. apply Forall_bind, Forall_forall. intros op _.
  destruct op as [tg i1 i2 j1 j2].
  destruct tg; unfold spec_opcode_changes; simpl;
    rewrite ?Forall_app; repeat split;
    apply spec_emit_nonblank || constructor.
Qed.

(** ** Padding of the page texts *)

Lemma extract_text_padding (pages pages' : list (option str)) :
  Forall2 same_up_to_padding pages pages' →
  extract_text_per_page pages = extract_text_per_page pages'.
Proof.
  unfold extract_text_per_page.
  induction 1 as [|t t' pages pages' Ht _ IH]; [done|].
  rewrite !fmap_cons, IH. f_equal.
  destruct Ht as (core & l & r & l' & r' & ? & ? & ? & ? & -> & ->).
  by rewrite !strip_padding.
Qed.

(** ** Identity, line pass *)

Lemma line_page_step_same texts changes i :
  line_page_step texts texts changes i = changes.
Proof.
  unfold line_page_step. rewrite get_opcodes_same.
  case_decide; [done|]. reflexivity.
Qed.

Lemma line_diff_same texts : line_diff texts texts = [].
Proof.
  unfold line_diff. induction (seq 0 (max_pages texts texts)) as [|i l IH];
    [done|].
  simpl. by rewrite line_page_step_same.
Qed.

(** *** The word pass *)

Lemma tiles_bounds lo hi rs x y :
  tiles lo hi rs → (x, y) ∈ rs → lo ≤ x ∧ x ≤ y ∧ y ≤ hi.
Proof.
  revert lo. induction rs as [|[x' y'] rs IH]; intros lo; simpl.
  - intros _ Hin. by apply elem_of_nil in Hin.
  - intros (-> & Hxy & Ht) [[= -> ->]|Hin]%elem_of_cons.
    + apply tiles_le in Ht. lia.
    + destruct (IH _ Ht Hin). lia.
Qed.

(** The ranges of every opcode lie inside the two sequences. *)
Lemma opcode_bounds `{Countable T} (a b : list T) op :
  op ∈ get_opcodes a b →
  op_i1 op ≤ op_i2 op ∧ op_i2 op ≤ length a ∧
  op_j1 op ≤ op_j2 op ∧ op_j2 op ≤ length b.
Proof.
  intros Hop. destruct (get_opcodes_tiles a b) as [Ha Hb].
  assert ((op_i1 op, op_i2 op) ∈ left_ranges (get_opcodes a b)) as H1.
  { unfold left_ranges. apply list_elem_of_fmap. by exists op. }
  assert ((op_j1 op, op_j2 op) ∈ right_ranges (get_opcodes a b)) as H2.
  { unfold right_ranges. apply list_elem_of_fmap. by exists op. }
  destruct (tiles_bounds _ _ _ _ _ Ha H1), (tiles_bounds _ _ _ _ _ Hb H2).
  lia.
Qed.

Section WordPass.
Context {coord : Type}.
Implicit Types (h : highlights coord) (hl : list (highlights coord)).
Implicit Types (words : list (word coord)) (rs : list (bbox coord)).
Implicit Types pages : list (list (word coord)).
Implicit Types wl wr : list (word coord).
Implicit Types st : list (highlights coord) * list (highlights coord).

Lemma add_rects_nil c h : add_rects c [] h = h.
Proof. destruct c, h; simpl; by rewrite app_nil_r. Qed.

Lemma add_rects_app c rs1 rs2 h :
  add_rects c rs2 (add_rects c rs1 h) = add_rects c (rs1 ++ rs2) h.
Proof. destruct c; simpl; by rewrite app_assoc. Qed.

Lemma add_rect_rects c r h : add_rect c r h = add_rects c [r] h.
Proof. by destruct c. Qed.

Lemma at_page_alter i f hl : at_page i f hl (alter f i hl).
Proof.
  intros idx. rewrite list_lookup_alter.
  destruct (decide (i = idx)) as [Heq|Hne], (decide (idx = i)) as [?|?];
    subst; congruence.
Qed.

Lemma at_page_id i f hl : (∀ h, f h = h) → at_page i f hl hl.
Proof.
  intros Hf idx. case_decide; [|done].
  destruct (hl !! idx); simpl; by rewrite ?Hf.
Qed.

Lemma at_page_compose i f g hl hl' hl'' :
  at_page i f hl hl' → at_page i g hl' hl'' →
  at_page i (g ∘ f) hl hl''.
Proof.
  intros H1 H2 idx. rewrite H2, H1. case_decide; [|done].
  by destruct (hl !! idx).
Qed.

Lemma at_page_ext i f g hl hl' :
  (∀ h, f h = g h) → at_page i f hl hl' → at_page i g hl hl'.
Proof.
  intros Hfg Hf idx. rewrite Hf. case_decide; [|done].
  destruct (hl !! idx); simpl; by rewrite ?Hfg.
Qed.

Lemma rects_of_range words lo n :
  seq lo n ≫= rect_at words = word_rect <$> take n (drop lo words).
Proof.
  revert lo. induction n as [|n IH]; intros lo; [done|].
  rewrite <- cons_seq, bind_cons, IH. unfold rect_at.
  destruct (words !! lo) as [w|] eqn:Hw.
  - rewrite (drop_S _ _ _ Hw). reflexivity.
  - apply lookup_ge_None in Hw.
    rewrite !drop_ge by lia. by rewrite !take_nil.
Qed.

Lemma mark_range_spec c words i lo hi hl :
  at_page i (add_rects c (word_rect <$> slice words lo hi)) hl
    (mark_range (add_rect c) words i lo hi hl).
Proof.
  unfold mark_range, slice. rewrite <- rects_of_range.
  generalize (seq lo (hi - lo)) as ks. intros ks. revert hl.
  induction ks as [|k ks IH]; intros hl.
  - simpl. apply at_page_id. apply add_rects_nil.
  - cbn [foldl]. rewrite bind_cons. unfold rect_at at 1.
    destruct (words !! k) as [w|].
    + eapply at_page_ext; [|eapply at_page_compose;
        [apply at_page_alter|apply IH]].
      intros h. simpl. rewrite add_rect_rects. apply add_rects_app.
    + apply IH.
Qed.

Lemma slice_ge {A} (l : list A) x y : y ≤ x → slice l x y = [].
Proof. intros Hxy. unfold slice. by replace (y - x) with 0 by lia. Qed.

Lemma word_opcode_step_spec i wl wr st op :
  at_page i (add_rects true (op_red wl op)) st.1
    (word_opcode_step i wl wr st op).1 ∧
  at_page i (add_rects false (op_green wr op)) st.2
    (word_opcode_step i wl wr st op).2.
Proof.
  destruct st as [l r]. unfold word_opcode_step, op_red, op_green.
  cbn [fst snd]. split.
  - destruct (op_tag op); try (apply at_page_id, add_rects_nil).
    + case_bool_decide; [apply (mark_range_spec true)|].
      rewrite slice_ge by lia. apply at_page_id, add_rects_nil.
    + case_bool_decide; [apply (mark_range_spec true)|].
      rewrite slice_ge by lia. apply at_page_id, add_rects_nil.
  - destruct (op_tag op); try (apply at_page_id, add_rects_nil).
    + case_bool_decide; [apply (mark_range_spec false)|].
      rewrite slice_ge by lia. apply at_page_id, add_rects_nil.
    + case_bool_decide; [apply (mark_range_spec false)|].
      rewrite slice_ge by lia. apply at_page_id, add_rects_nil.
Qed.

Lemma spec_red_cons words op ops :
  spec_red words (op :: ops) = op_red words op ++ spec_red words ops.
Proof. done. Qed.

Lemma spec_green_cons words op ops :
  spec_green words (op :: ops) = op_green words op ++ spec_green words ops.
Proof. done. Qed.

Lemma word_ops_spec i wl wr ops st :
  at_page i (add_rects true (spec_red wl ops)) st.1
    (foldl (word_opcode_step i wl wr) st ops).1 ∧
  at_page i (add_rects false (spec_green wr ops)) st.2
    (foldl (word_opcode_step i wl wr) st ops).2.
Proof.
  revert st. induction ops as [|op ops IH]; intros st.
  - simpl. split; apply at_page_id, add_rects_nil.
  - cbn [foldl]. rewrite spec_red_cons, spec_green_cons.
    destruct (word_opcode_step_spec i wl wr st op) as [H1 H2].
    destruct (IH (word_opcode_step i wl wr st op)) as [IH1 IH2].
    split.
    + eapply at_page_ext; [|eapply at_page_compose; [exact H1|exact IH1]].
      intros h. unfold compose. apply add_rects_app.
    + eapply at_page_ext; [|eapply at_page_compose; [exact H2|exact IH2]].
      intros h. unfold compose. apply add_rects_app.
Qed.

Lemma word_pages_spec pages1 pages2 ps st :
  NoDup ps →
  (∀ idx, (foldl (word_page_step pages1 pages2) st ps).1 !! idx =
          if decide (idx ∈ ps)
          then add_rects true (page_red pages1 pages2 idx) <$> st.1 !! idx
          else st.1 !! idx) ∧
  (∀ idx, (foldl (word_page_step pages1 pages2) st ps).2 !! idx =
          if decide (idx ∈ ps)
          then add_rects false (page_green pages1 pages2 idx) <$> st.2 !! idx
          else st.2 !! idx).
Proof.
  revert st. induction ps as [|p ps IH]; intros st Hnd.
  - split; intros idx; cbn [foldl];
      (destruct (decide (idx ∈ [])) as [Hin|]; [by apply elem_of_nil in Hin|done]).
  - apply NoDup_cons in Hnd as [Hp Hnd]. cbn [foldl].
    destruct (IH (word_page_step pages1 pages2 st p) Hnd) as [IH1 IH2].
    destruct (word_ops_spec p (words_at pages1 p) (words_at pages2 p)
                (word_opcodes pages1 pages2 p) st) as [H1 H2].
    split; intros idx.
    + rewrite IH1. unfold word_page_step. rewrite H1.
      destruct (decide (idx = p)) as [->|Hne].
      * rewrite decide_False by done. rewrite decide_True by left. done.
      * destruct (decide (idx ∈ ps)) as [Hin|Hin].
        -- rewrite decide_True by (by right). done.
        -- rewrite decide_False; [done|].
           intros [?|?]%elem_of_cons; done.
    + rewrite IH2. unfold word_page_step. rewrite H2.
      destruct (decide (idx = p)) as [->|Hne].
      * rewrite decide_False by done. rewrite decide_True by left. done.
      * destruct (decide (idx ∈ ps)) as [Hin|Hin].
        -- rewrite decide_True by (by right). done.
        -- rewrite decide_False; [done|].
           intros [?|?]%elem_of_cons; done.
Qed.

Lemma word_diff_lookup n pages1 pages2 i :
  i < n →
  (word_diff n pages1 pages2).1 !! i
    = Some (Highlights (page_red pages1 pages2 i) []) ∧
  (word_diff n pages1 pages2).2 !! i
    = Some (Highlights [] (page_green pages1 pages2 i)).
Proof.
  intros Hi. unfold word_diff.
  destruct (word_pages_spec pages1 pages2 (seq 0 n)
              (replicate n (Highlights [] []), replicate n (Highlights [] [])))
    as [H1 H2]; [apply NoDup_seq|].
  rewrite H1, H2. cbn [fst snd].
  rewrite !decide_True by (apply elem_of_seq; lia).
  rewrite lookup_replicate_2 by done. done.
Qed.

Lemma word_diff_is_Some n pages1 pages2 idx :
  (is_Some ((word_diff n pages1 pages2).1 !! idx) ↔ idx < n) ∧
  (is_Some ((word_diff n pages1 pages2).2 !! idx) ↔ idx < n).
Proof.
  unfold word_diff.
  destruct (word_pages_spec pages1 pages2 (seq 0 n)
              (replicate n (Highlights [] []), replicate n (Highlights [] [])))
    as [H1 H2]; [apply NoDup_seq|].
  rewrite H1, H2. cbn [fst snd].
  split; (case_decide;
    [rewrite fmap_is_Some|]; rewrite lookup_lt_is_Some, length_replicate;
    done).
Qed.

Lemma page_rects_same pages i :
  page_red pages pages i = [] ∧ page_green pages pages i = [].
Proof.
  unfold page_red, page_green, word_opcodes. rewrite get_opcodes_same.
  case_decide; split; reflexivity.
Qed.

Lemma word_diff_same n pages :
  word_diff n pages pages
  = (replicate n (Highlights [] []), replicate n (Highlights [] [])).
Proof.
  destruct (word_diff n pages pages) as [l r] eqn:Hwd.
  f_equal; apply list_eq; intros idx.
  - destruct (decide (idx < n)) as [Hi|Hi].
    + destruct (word_diff_lookup n pages pages idx Hi) as [H1 _].
      rewrite Hwd in H1. simpl in H1. rewrite H1.
      rewrite lookup_replicate_2 by done.
      by destruct (page_rects_same pages idx) as [-> _].
    + destruct (word_diff_is_Some n pages pages idx) as [H1 _].
      rewrite Hwd in H1. simpl in H1.
      rewrite (proj1 (lookup_replicate_None n _ idx)) by lia.
      apply eq_None_not_Some. rewrite H1. done.
  - destruct (decide (idx < n)) as [Hi|Hi].
    + destruct (word_diff_lookup n pages pages idx Hi) as [_ H2].
      rewrite Hwd in H2. simpl in H2. rewrite H2.
      rewrite lookup_replicate_2 by done.
      by destruct (page_rects_same pages idx) as [_ ->].
    + destruct (word_diff_is_Some n pages pages idx) as [_ H2].
      rewrite Hwd in H2. simpl in H2.
      rewrite (proj1 (lookup_replicate_None n _ idx)) by lia.
      apply eq_None_not_Some. rewrite H2. done.
Qed.

End WordPass.

(** *** The report *)

#[global] Instance py_inj : Inj (=) (=) py.
Proof.
  assert (Inj (=) (=) (λ c : Ascii.ascii, N.of_nat (Ascii.nat_of_ascii c)))
    as Hf.
  { intros c1 c2 Hc. apply Nat2N.inj in Hc.
    rewrite <- (Ascii.ascii_nat_embedding c1),
            <- (Ascii.ascii_nat_embedding c2).
    by rewrite Hc. }
  intros s1 s2 Heq. unfold py in Heq. apply (inj (fmap _)) in Heq.
  rewrite <- (String.string_of_list_ascii_of_string s1),
          <- (String.string_of_list_ascii_of_string s2).
  by rewrite Heq.
Qed.

#[global] Instance str_of_nat_inj : Inj (=) (=) str_of_nat.
Proof.
  intros n1 n2 Heq. unfold str_of_nat in Heq.
  by apply (inj py), (inj pretty) in Heq.
Qed.

Lemma sum_values_empty : sum_values ∅ = 0.
Proof. apply map_fold_empty. Qed.

Lemma sum_values_insert (m : gmap str nat) k v :
  sum_values (<[k := v]> m) + default 0 (m !! k) = sum_values m + v.
Proof.
  unfold sum_values. destruct (m !! k) as [x|] eqn:Hk; simpl.
  - rewrite <- insert_delete_eq.
    rewrite map_fold_insert_L; [|intros; lia|apply lookup_delete_eq].
    rewrite (map_fold_delete_L _ _ k x m); [lia|intros; lia|done].
  - rewrite map_fold_insert_L; [lia|intros; lia|done].
Qed.

Lemma sum_values_step m c : sum_values (by_page_step m c) = sum_values m + 1.
Proof.
  unfold by_page_step.
  pose proof (sum_values_insert m (str_of_nat (c_page c))
                (default 0 (m !! str_of_nat (c_page c)) + 1)). lia.
Qed.

Lemma sum_values_foldl changes m :
  sum_values (foldl by_page_step m changes)
  = sum_values m + length changes.
Proof.
  revert m. induction changes as [|c changes IH]; intros m; simpl; [lia|].
  rewrite IH, sum_values_step. lia.
Qed.

Lemma by_page_step_lookup m c p :
  by_page_step m c !! str_of_nat p =
  if decide (c_page c = p)
  then Some (default 0 (m !! str_of_nat p) + 1)
  else m !! str_of_nat p.
Proof.
  unfold by_page_step. destruct (decide (c_page c = p)) as [->|Hne].
  - by rewrite lookup_insert_eq.
  - rewrite lookup_insert_ne; [done|]. intros Heq. by apply (inj _) in Heq.
Qed.

Lemma by_page_lookup changes m p :
  foldl by_page_step m changes !! str_of_nat p =
  if decide (changes_on_page p changes = 0) then m !! str_of_nat p
  else Some (default 0 (m !! str_of_nat p) + changes_on_page p changes).
Proof.
  revert m. induction changes as [|c changes IH]; intros m; [done|].
  cbn [foldl]. rewrite IH, by_page_step_lookup. unfold changes_on_page.
  rewrite filter_cons. destruct (decide (c_page c = p)) as [Hc|Hc]; simpl.
  - repeat case_decide; try lia; f_equal; lia.
  - done.
Qed.

Lemma by_page_keys changes m key :
  is_Some (foldl by_page_step m changes !! key) →
  is_Some (m !! key) ∨ ∃ c, c ∈ changes ∧ key = str_of_nat (c_page c).
Proof.
  revert m. induction changes as [|c changes IH]; intros m; [by left|].
  cbn [foldl]. intros [Hm|(c' & Hc' & ->)]%IH.
  - unfold by_page_step in Hm.
    destruct (decide (key = str_of_nat (c_page c))) as [->|Hne].
    + right. exists c. split; [left|done].
    + rewrite lookup_insert_ne in Hm by done. by left.
  - right. exists c'. split; [by right|done].
Qed.

(** *** The job *)


Section JobFacts.
Context {coord : Type}.
Implicit Types (e : env coord) (fs : gmap str (content coord)) (j : job).



End JobFacts.

(* ===================================================================== *)
(** ** The properties of the specification *)
(* ===================================================================== *)

(** The queue loop of [get_matching_blocks] always finishes within
    [blocks_fuel]. *)
Lemma blocks_loop_total `{Countable T} (a b : list T) :
  is_Some (raw_blocks a b).
Proof. destruct (raw_blocks_spec a b) as (r & -> & _). by eexists. Qed.

(** C1.  For any two token sequences, the opcodes of the aligner cover both
    sequences with no gap and no overlap: the left ranges tile
    [[0, len(a))], the right ranges tile [[0, len(b))], and concatenating
    the slices [a[i1:i2]] (resp. [b[j1:j2]]) in order gives back [a]
    (resp. [b]).  The statement is about [get_opcodes] on any token type,
    hence about the line pass and the word pass of every page. *)
Theorem opcodes_cover `{Countable T} (a b : list T) :
  tiles 0 (length a) (left_ranges (get_opcodes a b)) ∧
  tiles 0 (length b) (right_ranges (get_opcodes a b)) ∧
  concat ((λ op, slice a (op_i1 op) (op_i2 op)) <$> get_opcodes a b) = a ∧
  concat ((λ op, slice b (op_j1 op) (op_j2 op)) <$> get_opcodes a b) = b.
Proof.
  destruct (get_opcodes_tiles a b) as [Ha Hb]. split_and!; [done|done| |].
  - rewrite <- (slice_full a) at 2.
    rewrite <- (tiles_concat a _ _ _ Ha). unfold left_ranges.
    by rewrite <- list_fmap_compose.
  - rewrite <- (slice_full b) at 2.
    rewrite <- (tiles_concat b _ _ _ Hb). unfold right_ranges.
    by rewrite <- list_fmap_compose.
Qed.

(** C2, amended.  When no token of the right sequence is popular for the
    matcher ([bpopular b] is empty, which is always so when the right
    sequence has fewer than 200 tokens, see [bpopular_short]), then in
    every window [find_longest_match] selects the longest contiguous
    matching block, ties broken by the earliest start in the left sequence
    and then by the earliest start in the right sequence, and the opcodes
    are those of the recursion of section 4.1: an [Equal] for the block,
    the windows before and after it treated in the same way, and a single
    [Replace], [Delete] or [Insert] for a window without a matching
    block. *)
Theorem aligner_longest_block `{Countable T} (a b : list T) :
  bpopular b = ∅ →
  (∀ alo ahi blo bhi, alo ≤ ahi → blo ≤ bhi →
     find_longest_match a b (chain_b b) alo ahi blo bhi
       = longest_block a b alo ahi blo bhi ∧
     best_block a b alo ahi blo bhi (longest_block a b alo ahi blo bhi)) ∧
  get_opcodes a b = spec_opcodes a b.
Proof.
  intros Hpop. split.
  - intros alo ahi blo bhi Hwa Hwb. split.
    + by apply flm_longest_block.
    + by apply longest_block_best.
  - by apply get_opcodes_spec.
Qed.

(** C2, amended, on the lines [a, b] against [b, c]. *)
Lemma aligner_longest_block_witness :
  get_opcodes [py "a"; py "b"] [py "b"; py "c"]
  = spec_opcodes [py "a"; py "b"] [py "b"; py "c"].
Proof.
  apply (aligner_longest_block [py "a"; py "b"] [py "b"; py "c"]).
  reflexivity.
Defined.

(** C2 as stated fails.  Against 200 copies of the token [x], the token
    [x] is popular and is dropped from the index of the right sequence:
    for the left sequence [y, x] the matcher finds no block although
    [a[1] = b[0]], and answers with one [Replace] where the recursion of
    section 4.1 gives [Delete], [Equal], [Insert]. *)
Lemma popular_token_hides_match :
  find_longest_match [py "y"; py "x"] (replicate 200 (py "x"))
    (chain_b (replicate 200 (py "x"))) 0 2 0 200 = (0, 0, 0) ∧
  longest_block [py "y"; py "x"] (replicate 200 (py "x")) 0 2 0 200
    = (1, 0, 1) ∧
  get_opcodes [py "y"; py "x"] (replicate 200 (py "x"))
    = [Opcode Replace 0 2 0 200] ∧
  spec_opcodes [py "y"; py "x"] (replicate 200 (py "x"))
    = [Opcode Delete 0 1 0 0; Opcode Equal 1 2 0 1;
       Opcode Insert 2 2 1 200] ∧
  get_opcodes [py "y"; py "x"] (replicate 200 (py "x"))
    ≠ spec_opcodes [py "y"; py "x"] (replicate 200 (py "x")).
Proof.
  assert (get_opcodes [py "y"; py "x"] (replicate 200 (py "x"))
          = [Opcode Replace 0 2 0 200]) as Hcode by (vm_compute; reflexivity).
  assert (spec_opcodes [py "y"; py "x"] (replicate 200 (py "x"))
          = [Opcode Delete 0 1 0 0; Opcode Equal 1 2 0 1;
             Opcode Insert 2 2 1 200]) as Hspec
    by (vm_compute; reflexivity).
  split_and!; [vm_compute; reflexivity|vm_compute; reflexivity|
               exact Hcode|exact Hspec|].
  rewrite Hcode, Hspec. discriminate.
Qed.

(** C3.  The changes of the line pass are, for each page index [p] from 0
    to [max(len(texts1), len(texts2)) - 1] and for each opcode of the
    aligner on the two pages' lines (the text split on line breaks, no
    line for an absent page): for [Replace] a [Remove] change with the
    joined left lines and an [Add] change with the joined right lines, for
    [Delete] a [Remove] change, for [Insert] an [Add] change, for [Equal]
    nothing; a change is emitted only if its text is not empty after
    trimming, and carries the page number [p + 1]. *)
Theorem line_diff_stage (texts1 texts2 : list str) :
  line_diff texts1 texts2 = spec_line_diff texts1 texts2.
Proof. apply line_diff_concat. Qed.

(** C4.  On page [i] the word pass aligns the words by their texts alone;
    the red list of the left side receives the rectangles of the words in
    the left ranges of the [Delete] and [Replace] opcodes, the green list
    of the right side those of the words in the right ranges of the
    [Insert] and [Replace] opcodes, nothing else is added, and every
    index of such a range is a word of the page.  For [hello world]
    against [hello there], whatever the rectangles: the rectangle of
    [world] is the only red one, that of [there] the only green one. *)
Theorem word_diff_stage {coord} (n : nat)
    (pages1 pages2 : list (list (word coord))) (i : nat) :
  i < n →
  let words_left := words_at pages1 i in
  let words_right := words_at pages2 i in
  let ops := get_opcodes (word_text <$> words_left)
                         (word_text <$> words_right) in
  (word_diff n pages1 pages2).1 !! i
    = Some (Highlights (spec_red words_left ops) []) ∧
  (word_diff n pages1 pages2).2 !! i
    = Some (Highlights [] (spec_green words_right ops)) ∧
  (∀ op, op ∈ ops →
         op_i1 op ≤ op_i2 op ∧ op_i2 op ≤ length words_left ∧
         op_j1 op ≤ op_j2 op ∧ op_j2 op ≤ length words_right) ∧
  (∀ r1 r2 r3 r4 : bbox coord,
     word_diff 1 [[mk_word (py "hello") r1; mk_word (py "world") r2]]
                 [[mk_word (py "hello") r3; mk_word (py "there") r4]]
     = ([Highlights [r2] []], [Highlights [] [r4]])).
Proof.
  intros Hi words_left words_right ops.
  destruct (word_diff_lookup n pages1 pages2 i Hi) as [H1 H2].
  split_and!; [exact H1|exact H2| |].
  - intros op Hop. apply opcode_bounds in Hop.
    rewrite !length_fmap in Hop. exact Hop.
  - intros [[[??]?]?] [[[??]?]?] [[[??]?]?] [[[??]?]?]. reflexivity.
Qed.

(** C4 on a page with the one word [a] against an empty page. *)
Lemma word_diff_stage_witness :
  (word_diff 1 [[mk_word (py "a") (1, 2, 3, 4)]] [[]]).1 !! 0
  = Some (Highlights [(1, 2, 3, 4)] []).
Proof.
  apply (word_diff_stage 1 [[mk_word (py "a") (1, 2, 3, 4)]] [[]] 0). lia.
Defined.

(** C5.  A document against itself (the same page texts, the same words):
    no change, an empty report, and no rectangle, red or green, on either
    side. *)
Theorem identical_documents {coord} (texts : list str)
    (pages : list (list (word coord))) :
  line_diff texts texts = [] ∧
  r_changes (build_report (line_diff texts texts)) = [] ∧
  s_total (r_summary (build_report (line_diff texts texts))) = 0 ∧
  word_diff (max_pages texts texts) pages pages
  = (replicate (max_pages texts texts) (Highlights [] []),
     replicate (max_pages texts texts) (Highlights [] [])) ∧
  ∀ h, h ∈ (word_diff (max_pages texts texts) pages pages).1
           ++ (word_diff (max_pages texts texts) pages pages).2 →
       red h = [] ∧ green h = [].
Proof.
  rewrite line_diff_same, word_diff_same. split_and!; [done..|].
  intros h [Hh|Hh]%elem_of_app; simpl in Hh;
    apply elem_of_replicate in Hh as [-> _]; done.
Qed.

(** C6.  The report keeps the changes as they are; [total] is their
    number; [by_page] maps [str(p)] to the number of changes on page [p]
    and has no other key; the values of [by_page] sum to [total]. *)
Theorem report_summary (changes : list change) :
  let r := build_report changes in
  r_changes r = changes ∧
  s_total (r_summary r) = length changes ∧
  (∀ p, s_by_page (r_summary r) !! str_of_nat p =
        if decide (changes_on_page p changes = 0) then None
        else Some (changes_on_page p changes)) ∧
  (∀ key, is_Some (s_by_page (r_summary r) !! key) →
          ∃ c, c ∈ changes ∧ key = str_of_nat (c_page c)) ∧
  sum_values (s_by_page (r_summary r)) = s_total (r_summary r).
Proof.
  simpl. split_and!; [done|done| | |].
  - intros p. rewrite by_page_lookup, lookup_empty. done.
  - intros key [Hm|Hc]%by_page_keys; [|done].
    rewrite lookup_empty in Hm. by destruct Hm.
  - rewrite sum_values_foldl, sum_values_empty. done.
Qed.

(** C7, amended.  The aligner is total: the queue loop always finishes.
    Against an empty right sequence a non-empty left sequence gives one
    [Delete] over all of it; against an empty left sequence a non-empty
    right sequence gives one [Insert] over all of it; two empty sequences
    give no opcode at all. *)
Theorem aligner_total `{Countable T} (a b : list T) (x y : T) :
  is_Some (raw_blocks a b) ∧
  get_opcodes (x :: a) [] = [Opcode Delete 0 (S (length a)) 0 0] ∧
  get_opcodes [] (y :: b) = [Opcode Insert 0 0 0 (S (length b))] ∧
  get_opcodes (@nil T) [] = [].
Proof.
  split_and!.
  - apply blocks_loop_total.
  - by apply (get_opcodes_right_empty (x :: a)).
  - by apply (get_opcodes_left_empty (y :: b)).
  - apply get_opcodes_both_empty.
Qed.

(** C7 as stated fails: on two empty sequences the result is not a single
    [Equal] opcode, it is the empty list. *)
Lemma empty_inputs_no_equal_opcode :
  get_opcodes (@nil str) [] = [] ∧
  ¬ ∃ op, get_opcodes (@nil str) [] = [op] ∧ op_tag op = Equal.
Proof.
  split; [vm_compute; reflexivity|].
  intros (op & Hop & _). vm_compute in Hop. discriminate.
Qed.




(** C9.  The page texts are stripped when they are extracted, before they
    are split into lines: the texts handed to the line pass have no
    whitespace at either end, and two runs whose page texts differ only in
    leading or trailing whitespace produce the same changes and the same
    report. *)
Theorem padding_is_invisible
    (pages1 pages2 pages1' pages2' : list (option str)) :
  Forall2 same_up_to_padding pages1 pages1' →
  Forall2 same_up_to_padding pages2 pages2' →
  Forall (λ t, lstrip t = t ∧ rstrip t = t)
         (extract_text_per_page pages1 ++ extract_text_per_page pages2) ∧
  line_diff (extract_text_per_page pages1) (extract_text_per_page pages2)
  = line_diff (extract_text_per_page pages1')
              (extract_text_per_page pages2') ∧
  build_report
    (line_diff (extract_text_per_page pages1) (extract_text_per_page pages2))
  = build_report
      (line_diff (extract_text_per_page pages1')
                 (extract_text_per_page pages2')).
Proof.
  intros H1 H2. split.
  - unfold extract_text_per_page. rewrite <- fmap_app.
    apply Forall_fmap, Forall_forall. intros t _. apply strip_stripped.
  - rewrite (extract_text_padding _ _ H1), (extract_text_padding _ _ H2).
    done.
Qed.

(** C9 on two documents with padded page texts. *)
Lemma padding_is_invisible_witness :
  line_diff (extract_text_per_page [Some (py "  Title "); None])
            (extract_text_per_page [Some (py "Other")])
  = line_diff (extract_text_per_page [Some (py "Title"); Some (py " ")])
              (extract_text_per_page [Some (py " Other  ")]).
Proof.
  apply (padding_is_invisible
           [Some (py "  Title "); None] [Some (py "Other")]
           [Some (py "Title"); Some (py " ")] [Some (py " Other  ")]).
  - constructor; [|constructor; [|constructor]].
    + exists (py "Title"), (py "  "), (py " "), [], [].
      split_and!; try reflexivity; repeat constructor.
    + exists [], [], [], [], (py " ").
      split_and!; try reflexivity; repeat constructor.
  - constructor; [|constructor].
    exists (py "Other"), [], [], (py " "), (py "  ").
    split_and!; try reflexivity; repeat constructor.
Defined.

(** C10.  No change has a text that is empty after trimming: not in the
    changes list, not in the report that is written as JSON, and every
    block written to the text report after its two header lines is the
    block of such a change. *)
Theorem changes_never_blank (texts1 texts2 : list str) :
  let changes := line_diff texts1 texts2 in
  Forall (λ c, strip (c_text c) ≠ []) changes ∧
  Forall (λ c, strip (c_text c) ≠ []) (r_changes (build_report changes)) ∧
  ∀ w, w ∈ drop 2 (report_txt_writes changes) →
       ∃ c, c ∈ changes ∧ w = txt_block c ∧ strip (c_text c) ≠ [].
Proof.
  intros changes.
  assert (Forall (λ c, strip (c_text c) ≠ []) changes) as Hall.
  { subst changes. rewrite line_diff_concat. apply spec_line_diff_nonblank. }
  split_and!; [done|done|].
  intros w Hw. unfold report_txt_writes in Hw. simpl in Hw.
  apply list_elem_of_fmap in Hw as (c & -> & Hc).
  exists c. split_and!; [done|done|].
  rewrite Forall_forall in Hall. by apply Hall.
Qed.

(* ===================================================================== *)
(** ** The page jobs, the download names and the routes *)
(* ===================================================================== *)

Import Stdlib.Strings.Ascii PyLib Jobs OutputNames Validators Worker Routes Notions.

(** *** Strings *)

Lemma lstrip_chars_drop (chars s : str) :
  ∃ k, lstrip_chars chars s = drop k s.
Proof.
  induction s as [|c s [k IH]]; simpl; [by exists 0|].
  case_bool_decide; [by exists (S k)|by exists 0].
Qed.

Lemma rstrip_chars_take (chars s : str) :
  ∃ m, rstrip_chars chars s = take m s.
Proof.
  unfold rstrip_chars.
  destruct (lstrip_chars_drop chars (reverse s)) as [k ->].
  exists (length s - k). by rewrite drop_reverse, reverse_involutive.
Qed.

Lemma strip_chars_Forall (P : N → Prop) (chars s : str) :
  Forall P s → Forall P (strip_chars chars s).
Proof.
  intros Hs. unfold strip_chars.
  destruct (rstrip_chars_take chars (lstrip_chars chars s)) as [m ->].
  destruct (lstrip_chars_drop chars s) as [k ->].
  by apply Forall_take, Forall_drop.
Qed.

Lemma rfind_bounds (c : N) (s : str) :
  (-1 ≤ rfind c s < Z.of_nat (length s))%Z.
Proof.
  induction s as [|x s IH]; simpl; [lia|].
  destruct (0 <=? rfind c s)%Z eqn:Hr; [lia|].
  destruct (x =? c)%N; lia.
Qed.

Lemma rfind_lookup (c : N) (s : str) :
  (0 ≤ rfind c s)%Z → s !! Z.to_nat (rfind c s) = Some c.
Proof.
  induction s as [|x s IH]; simpl; [lia|].
  destruct (0 <=? rfind c s)%Z eqn:Hr.
  - intros _. apply Z.leb_le in Hr.
    replace (Z.to_nat (rfind c s + 1)) with (S (Z.to_nat (rfind c s))) by lia.
    simpl. by apply IH.
  - destruct (x =? c)%N eqn:Hx; [|lia].
    apply N.eqb_eq in Hx as ->. done.
Qed.

(** No [c] after the index [rfind c s]. *)
Lemma rfind_drop (c : N) (s : str) :
  c ∉ drop (Z.to_nat (rfind c s + 1)) s.
Proof.
  induction s as [|x s IH]; simpl; [apply not_elem_of_nil|].
  destruct (0 <=? rfind c s)%Z eqn:Hr.
  - apply Z.leb_le in Hr.
    replace (Z.to_nat (rfind c s + 1 + 1)) with (S (Z.to_nat (rfind c s + 1)))
      by lia.
    done.
  - apply Z.leb_gt in Hr. pose proof (rfind_bounds c s).
    assert (rfind c s = -1)%Z as Hm by lia. rewrite Hm in IH. simpl in IH.
    destruct (x =? c)%N eqn:Hx; simpl; [done|].
    rewrite drop_0 in IH. apply N.eqb_neq in Hx.
    rewrite elem_of_cons. intros [->|?]; done.
Qed.

Lemma rfind_app_notin (c : N) (pre e : str) :
  c ∉ e → rfind c (pre ++ c :: e) = Z.of_nat (length pre).
Proof.
  intros He.
  assert (rfind c e = -1)%Z as Hre.
  { clear pre. induction e as [|x e IH]; simpl; [done|].
    apply not_elem_of_cons in He as [Hx He]. rewrite (IH He). simpl.
    destruct (x =? c)%N eqn:Hxc; [|done]. apply N.eqb_eq in Hxc. done. }
  induction pre as [|x pre IH]; simpl.
  - rewrite Hre. simpl. by rewrite N.eqb_refl.
  - rewrite IH. destruct (0 <=? Z.of_nat (length pre))%Z eqn:Hl; [lia|].
    apply Z.leb_gt in Hl. lia.
Qed.

Lemma split_nonempty (sep : N) (s : str) : split sep s ≠ [].
Proof.
  destruct s as [|c s]; simpl; [done|].
  destruct (c =? sep)%N; [done|]. by destruct (split sep s).
Qed.

Lemma split_no_sep (sep : N) (s : str) :
  rfind sep s = (-1)%Z → split sep s = [s].
Proof.
  induction s as [|x s IH]; simpl; [done|].
  destruct (0 <=? rfind sep s)%Z eqn:Hr.
  { apply Z.leb_le in Hr. lia. }
  apply Z.leb_gt in Hr. pose proof (rfind_bounds sep s).
  destruct (x =? sep)%N; [done|]. intros _. rewrite IH by lia. done.
Qed.

Lemma split_last (sep : N) (s : str) :
  (0 ≤ rfind sep s)%Z →
  last (split sep s) = Some (drop (Z.to_nat (rfind sep s + 1)) s) ∧
  2 ≤ length (split sep s).
Proof.
  induction s as [|x s IH]; simpl; [lia|].
  destruct (0 <=? rfind sep s)%Z eqn:Hr.
  - apply Z.leb_le in Hr. intros _. destruct (IH Hr) as [IH1 IH2].
    replace (Z.to_nat (rfind sep s + 1 + 1))
      with (S (Z.to_nat (rfind sep s + 1))) by lia.
    simpl. destruct (x =? sep)%N.
    + split; [|simpl; lia].
      destruct (split sep s) as [|y ys]; [simpl in IH2; lia|]. done.
    + destruct (split sep s) as [|y [|y' ys]]; simpl in IH2; [lia..|].
      split; [|simpl; lia]. done.
  - apply Z.leb_gt in Hr. pose proof (rfind_bounds sep s).
    destruct (x =? sep)%N eqn:Hx; [|lia]. intros _.
    rewrite split_no_sep by lia. simpl. by rewrite drop_0.
Qed.

(** *** [str.lower] on ASCII *)

Section LowerFacts.
Context `{Runtime}.

Lemma lower_ascii (s : str) :
  Forall (λ c, is_ascii c = true) s → lower s = ascii_lower <$> s.
Proof.
  unfold lower. generalize (uni_lower s). induction s as [|c s IH];
    intros h Hs; [done|].
  apply Forall_cons in Hs as [Hc Hs]. rewrite imap_cons. simpl.
  rewrite Hc. simpl. f_equal. apply (IH (h ∘ S) Hs).
Qed.

Lemma ascii_lower_idemp (c : N) : ascii_lower (ascii_lower c) = ascii_lower c.
Proof.
  unfold ascii_lower.
  destruct ((65 <=? c) && (c <=? 90))%N eqn:Hc; [|by rewrite Hc].
  apply andb_prop in Hc as [H1 H2]. apply N.leb_le in H1, H2.
  destruct ((65 <=? c + 32) && (c + 32 <=? 90))%N eqn:Hc'; [|done].
  apply andb_prop in Hc' as [H3 H4]. apply N.leb_le in H3, H4. lia.
Qed.

Lemma ascii_lower_is_ascii (c : N) :
  is_ascii c = true → is_ascii (ascii_lower c) = true.
Proof.
  unfold is_ascii, ascii_lower. intros Hc%N.ltb_lt.
  destruct ((65 <=? c) && (c <=? 90))%N eqn:Hc'; apply N.ltb_lt; [|done].
  apply andb_prop in Hc' as [H1 H2]. apply N.leb_le in H1, H2. lia.
Qed.

Lemma ascii_lower_dot (c : N) : ascii_lower c = ord "." → c = ord ".".
Proof.
  unfold ascii_lower.
  destruct ((65 <=? c) && (c <=? 90))%N eqn:Hc; [|done].
  apply andb_prop in Hc as [H1 H2]. apply N.leb_le in H1, H2.
  change (ord ".") with 46%N. lia.
Qed.

(** The extension [splitext] splits off is empty or a dot followed by
    characters that are not dots. *)
Lemma splitext_ext (p : str) :
  (splitext p).2 = [] ∨
  ∃ e, (splitext p).2 = ord "." :: e ∧ (ord "." ∉ e).
Proof.
  unfold splitext.
  set (sepIndex := if os_nt then _ else _).
  destruct (bool_decide (sepIndex < rfind (ord ".") p)%Z && _) eqn:Hc;
    [|by left].
  right. apply andb_prop in Hc as [Hlt%bool_decide_eq_true _].
  assert (-1 ≤ sepIndex)%Z as Hsep.
  { unfold sepIndex. pose proof (rfind_bounds (ord "/") p).
    pose proof (rfind_bounds (ord "\") p). destruct os_nt; lia. }
  assert (0 ≤ rfind (ord ".") p)%Z as Hdot by lia.
  exists (drop (Z.to_nat (rfind (ord ".") p + 1)) p). simpl. split.
  - replace (Z.to_nat (rfind (ord ".") p + 1))
      with (S (Z.to_nat (rfind (ord ".") p))) by lia.
    by apply drop_S, rfind_lookup.
  - apply rfind_drop.
Qed.

Lemma splitext_app (p : str) : (splitext p).1 ++ (splitext p).2 = p.
Proof.
  unfold splitext. destruct (_ && _); simpl;
    [apply take_drop|apply app_nil_r].
Qed.

End LowerFacts.

(** *** Download names *)

Section NameFacts.
Context `{Runtime}.

Lemma name_char_underscore : name_char (ord "_").
Proof. split; [done|left]. unfold is_word. by rewrite N.eqb_refl, orb_true_r. Qed.

Lemma sub_spaces_chars (in_run : bool) (s : str) :
  Forall (λ c, is_space c = true ∨ name_char c) s →
  Forall name_char (sub_spaces in_run s).
Proof.
  intros Hs. revert in_run. induction Hs as [|c s Hc _ IH]; intros in_run;
    simpl; [done|].
  destruct (is_space c) eqn:Hsp.
  - destruct in_run; [apply IH|].
    constructor; [apply name_char_underscore|apply IH].
  - constructor; [|apply IH]. destruct Hc as [?|?]; [congruence|done].
Qed.

Lemma sub_unsafe_chars (s : str) :
  Forall (λ c, is_space c = true ∨ name_char c) (sub_unsafe s).
Proof.
  unfold sub_unsafe. apply Forall_fmap, Forall_forall. intros c _. simpl.
  destruct (is_space c) eqn:Hsp.
  { rewrite orb_true_r. simpl. by left. }
  rewrite orb_false_r. destruct (is_word c) eqn:Hw; simpl.
  { right. split; [done|by left]. }
  case_bool_decide as Hin; [|right; apply name_char_underscore].
  right. split; [done|].
  change (py "-_.") with [ord "-"; ord "_"; ord "."] in Hin.
  rewrite !elem_of_cons, elem_of_nil in Hin.
  destruct Hin as [->|[->|[->|[]]]]; [by right; left| |by right; right].
  left. unfold is_word. by rewrite N.eqb_refl, orb_true_r.
Qed.

Lemma document_chars : Forall name_char (py "document").
Proof.
  change (py "document")
    with [100; 111; 99; 117; 109; 101; 110; 116]%N.
  repeat constructor; left; reflexivity.
Qed.

(** An ASCII character that is no letter, digit, underscore, hyphen or
    dot is not a character of a base name. *)
Lemma not_name_char (c : N) :
  is_ascii c = true → ascii_alnum c = false →
  c ≠ ord "_" → c ≠ ord "-" → c ≠ ord "." → ¬ name_char c.
Proof.
  intros Ha Hn Hu Hh Hd [_ [Hw|[?|?]]]; [|done..].
  unfold is_word, is_alnum in Hw. rewrite Ha, Hn in Hw. simpl in Hw.
  by apply N.eqb_eq in Hw.
Qed.

End NameFacts.

(** X1.  The base of a download name, [_safe_basename(name)], is never
    empty, has at most 80 characters, and is made of word characters,
    hyphens and dots only: it holds no whitespace, no path separator, no
    quote and no control character, whatever the uploaded file was
    called. *)
Theorem safe_basename_shape `{Runtime} (name : option str) :
  let base := safe_basename name 80 in
  base ≠ [] ∧ length base ≤ 80 ∧ Forall name_char base ∧
  (ord "/" ∉ base) ∧ (ord "\" ∉ base) ∧ (34%N ∉ base) ∧
  (LF ∉ base) ∧ (CR ∉ base).
Proof.
  assert (∀ base : str, Forall name_char base →
            (ord "/" ∉ base) ∧ (ord "\" ∉ base) ∧ (34%N ∉ base) ∧
            (LF ∉ base) ∧ (CR ∉ base)) as Hno.
  { intros base Hb. rewrite Forall_forall in Hb.
    split_and!; intros Hc%Hb; revert Hc; by apply not_name_char. }
  assert (∀ base : str, base ≠ [] → length base ≤ 80 → Forall name_char base →
            base ≠ [] ∧ length base ≤ 80 ∧ Forall name_char base ∧
            (ord "/" ∉ base) ∧ (ord "\" ∉ base) ∧ (34%N ∉ base) ∧
            (LF ∉ base) ∧ (CR ∉ base)) as Hall.
  { intros base ???. do 3 (split; [done|]). by apply Hno. }
  assert (py "document" ≠ [] ∧ length (py "document") ≤ 80) as [Hd1 Hd2].
  { split; [done|]. vm_compute. lia. }
  simpl. unfold safe_basename. destruct name as [name|];
    [|by apply Hall, document_chars].
  destruct (negb (truthy name) || negb (truthy (strip name)));
    [by apply Hall, document_chars|].
  set (base := strip_chars _ _).
  destruct base as [|c base'] eqn:Hbase; [by apply Hall, document_chars|].
  simpl truthy. cbv iota. rewrite <- Hbase. apply Hall.
  - rewrite Hbase. done.
  - rewrite length_take. lia.
  - apply Forall_take. unfold base.
    apply strip_chars_Forall, sub_spaces_chars, sub_unsafe_chars.
Qed.

(** *** The extension of a download name *)

Section ExtFacts.
Context `{Runtime}.

(** After a name that ends in a dot and an extension without dots,
    [download_ext] finds that extension. *)
Lemma download_ext_app (pre e : str) :
  ord "." ∉ e → download_ext (pre ++ ord "." :: e) = ord "." :: lower e.
Proof.
  intros He. unfold download_ext.
  rewrite bool_decide_eq_true_2 by (apply elem_of_app; right; left).
  pose proof (rfind_app_notin _ pre e He) as Hr.
  destruct (split_last (ord ".") (pre ++ ord "." :: e)) as [-> _];
    [rewrite Hr; lia|].
  rewrite Hr. simpl. do 2 f_equal.
  replace (Z.to_nat (Z.of_nat (length pre) + 1)) with (length pre + 1) by lia.
  by rewrite <- drop_drop, drop_app_length.
Qed.

(** The extension [make_output_filename] appends is a dot followed by its
    own lower case, without further dots, when the extension of the
    output path is ASCII. *)
Lemma output_ext_shape (t : JobType) (out : str) :
  Forall (λ c, is_ascii c = true) (splitext out).2 →
  ∃ e, output_ext t out = ord "." :: e ∧ (ord "." ∉ e) ∧ lower e = e.
Proof.
  intros Hascii. unfold output_ext.
  assert (∀ s : string, Forall (λ c, is_ascii c = true) (py s) →
            lower (py s) = ascii_lower <$> py s) as Hlit.
  { intros s. apply lower_ascii. }
  destruct (splitext_ext out) as [He|(e & He & Hdot)].
  - rewrite He. change (lower []) with (@nil N). simpl.
    case_bool_decide.
    + exists (py "zip"). split_and!; [done|by apply (bool_decide_unpack _)|].
      rewrite lower_ascii; [done|]. by repeat constructor.
    + exists (py "pdf"). split_and!; [done|by apply (bool_decide_unpack _)|].
      rewrite lower_ascii; [done|]. by repeat constructor.
  - rewrite He in Hascii |- *. rewrite (lower_ascii _ Hascii).
    apply Forall_cons in Hascii as [_ Hascii].
    rewrite fmap_cons. change (ascii_lower (ord ".")) with (ord ".").
    simpl. exists (ascii_lower <$> e). split_and!; [done| |].
    + rewrite list_elem_of_fmap. intros (c & Hc%eq_sym%ascii_lower_dot & Hin).
      by subst.
    + rewrite lower_ascii.
      * rewrite <- list_fmap_compose. apply list_fmap_ext.
        intros _ c _. apply ascii_lower_idemp.
      * apply Forall_fmap, Forall_forall. intros c Hc. simpl.
        apply ascii_lower_is_ascii.
        by apply (proj1 (Forall_forall _ _) Hascii).
Qed.

End ExtFacts.

(** X2.  The media type of a download is decided by the output path of
    the job alone: on the name [make_output_filename] builds, the
    extension [download] looks up in [MEDIA_TYPES] is the lower-cased
    extension of the output path ([.zip] or [.pdf] when it has none), even
    when the uploaded file name holds dots of its own.  The extension of
    the output path is assumed ASCII, as all paths of the routes and of
    the worker are. *)
Theorem download_ext_of_output_name `{Runtime} (t : JobType)
    (names : option (list (option str))) (out : str) :
  Forall (λ c, is_ascii c = true) (splitext out).2 →
  download_ext (make_output_filename t names out) = output_ext t out ∧
  media_type_get (download_ext (make_output_filename t names out))
  = media_type_get (output_ext t out).
Proof.
  intros Hascii.
  assert (download_ext (make_output_filename t names out) = output_ext t out)
    as Heq; [|by rewrite Heq].
  unfold make_output_filename.
  destruct (output_ext_shape t out Hascii) as (e & -> & Hdot & Hlow).
  rewrite app_assoc, download_ext_app by done. by rewrite Hlow.
Qed.

(** *** [quote] *)

Lemma hex_digit_alnum (n : N) : (n < 16)%N → ascii_alnum (hex_digit n) = true.
Proof.
  intros Hn. unfold hex_digit.
  assert (n ∈ (N.of_nat <$> seq 0 16)) as Hin.
  { apply list_elem_of_fmap. exists (N.to_nat n). split; [lia|].
    apply elem_of_seq. lia. }
  vm_compute in Hin. clear Hn.
  repeat (apply elem_of_cons in Hin as [->|Hin]; [reflexivity|]).
  by apply elem_of_nil in Hin.
Qed.

Lemma utf8_bytes (c : N) (bs : list N) :
  utf8 c = Some bs → Forall (λ b, b < 256)%N bs.
Proof.
  unfold utf8. intros Hbs.
  repeat match type of Hbs with
         | context [if ?b then _ else _] => destruct b eqn:?
         end; simplify_eq;
  repeat match goal with
         | Hlt : (_ <? _)%N = true |- _ => apply N.ltb_lt in Hlt
         end;
  repeat constructor.
  all: try (pose proof (N.mod_lt c 64 ltac:(done)));
       try (pose proof (N.mod_lt (c / 64) 64 ltac:(done)));
       try (pose proof (N.mod_lt (c / 4096) 64 ltac:(done))); try lia.
  - assert (c / 64 < 32)%N by (apply N.Div0.div_lt_upper_bound; lia). lia.
  - assert (c / 4096 < 16)%N by (apply N.Div0.div_lt_upper_bound; lia). lia.
  - assert (c / 262144 < 8)%N by (apply N.Div0.div_lt_upper_bound; lia). lia.
Qed.

Lemma quoter_chars (safe : str) (b : N) :
  (b < 256)%N → Forall url_char safe → Forall url_char (quoter safe b).
Proof.
  intros Hb Hsafe. unfold quoter.
  destruct (always_safe b || bool_decide (b ∈ safe)) eqn:Hs.
  - constructor; [|done]. apply orb_prop in Hs as [Hs|Hs].
    + unfold always_safe in Hs. apply orb_prop in Hs as [Hs|Hs]; [by left|].
      right. apply bool_decide_eq_true in Hs.
      change (py "_.-~") with [ord "_"; ord "."; ord "-"; ord "~"] in Hs.
      change (py "_.-~/%")
        with ([ord "_"; ord "."; ord "-"; ord "~"] ++ [ord "/"; ord "%"]).
      apply elem_of_app. by left.
    + apply bool_decide_eq_true in Hs.
      by apply (proj1 (Forall_forall _ _) Hsafe).
  - rewrite !Forall_cons, Forall_nil. split_and!; [|left..|done].
    + right. by apply (bool_decide_unpack _).
    + apply hex_digit_alnum. apply N.Div0.div_lt_upper_bound. lia.
    + apply hex_digit_alnum. by apply N.mod_lt.
Qed.

Lemma quote_chars (s q : str) : quote s = Some q → Forall url_char q.
Proof.
  unfold quote. destruct s as [|c s]; [by intros [= <-]|].
  destruct (encode_utf8 (c :: s)) as [bs|] eqn:Hbs; [|done].
  simpl. intros [= <-].
  assert (Forall (λ b, b < 256)%N bs) as Hbytes.
  { unfold encode_utf8 in Hbs.
    destruct (mapM utf8 (c :: s)) as [bss|] eqn:Hm; [|done].
    simpl in Hbs. injection Hbs as <-.
    apply mapM_Some in Hm. apply Forall_join.
    clear -Hm. induction Hm as [|x y ?? Hxy _ IH]; constructor; [|done].
    by eapply utf8_bytes. }
  unfold quote_from_bytes. apply Forall_join, Forall_fmap.
  eapply Forall_impl; [exact Hbytes|]. intros b Hb. simpl.
  apply quoter_chars; [done|].
  apply Forall_cons. split; [|done]. right. by apply (bool_decide_unpack _).
Qed.

Lemma quote_None (s : str) :
  quote s = None → ∃ c, c ∈ s ∧ utf8 c = None.
Proof.
  unfold quote. destruct s as [|c0 s0]; [done|].
  generalize (c0 :: s0). clear c0 s0. intros s.
  destruct (encode_utf8 s) as [bs|] eqn:Hbs; [done|]. intros _.
  unfold encode_utf8 in Hbs.
  destruct (mapM utf8 s) as [bss|] eqn:Hm; [done|]. clear Hbs.
  induction s as [|c s IH]; [done|]. simpl in Hm.
  destruct (utf8 c) as [bs|] eqn:Hc.
  - simpl in Hm. destruct (mapM utf8 s); [done|].
    destruct IH as (c' & ? & ?); [done|]. exists c'. split; [by right|done].
  - exists c. split; [by left|done].
Qed.

Lemma content_disposition_None (disposition filename : str) :
  content_disposition disposition filename = None →
  ∃ c, c ∈ filename ∧ utf8 c = None.
Proof.
  unfold content_disposition. intros Hq. apply quote_None.
  by destruct (quote filename).
Qed.

(** X3.  The [Content-Disposition] value of a download is
    [disposition; filename="q"] where [q], the quoted file name, is made
    of ASCII letters, digits and the characters [_ . - ~ / %] only, so
    that no file name can close the quotation or start a new header
    line; the value cannot be built (the request ends in an error) only
    when the file name holds a code point UTF-8 cannot encode. *)
Theorem content_disposition_safe (disposition filename : str) :
  match content_disposition disposition filename with
  | Some value =>
    ∃ q, value = disposition ++ py "; filename=" ++ [34%N] ++ q ++ [34%N] ∧
         Forall url_char q ∧ (34%N ∉ q) ∧ (LF ∉ q) ∧ (CR ∉ q)
  | None => ∃ c, c ∈ filename ∧ utf8 c = None
  end.
Proof.
  unfold content_disposition.
  destruct (quote filename) as [q|] eqn:Hq; simpl; [|by apply quote_None].
  exists q. split; [done|]. apply quote_chars in Hq. split; [done|].
  rewrite Forall_forall in Hq.
  split_and!; intros [Hc|Hc]%Hq; try done;
    by apply (bool_decide_pack _) in Hc.
Qed.

(** *** Job ids *)

Lemma match_repeat_spec (cs : charset) (n : nat) (s rest : str) :
  match_repeat cs n s = Some rest ↔
  ∃ pre, s = pre ++ rest ∧
         Forall2 (λ c cs, match_char cs c = true) pre (replicate n cs).
Proof.
  revert s. induction n as [|n IH]; intros s; simpl.
  - split.
    + intros [= ->]. by exists [].
    + intros (pre & -> & ->%Forall2_nil_inv_r). done.
  - destruct s as [|c s].
    + split; [done|]. intros (pre & Hs & Hpre).
      destruct pre; [by apply Forall2_nil_inv_l in Hpre|done].
    + destruct (match_char cs c) eqn:Hc.
      * rewrite IH. split.
        -- intros (pre & -> & Hpre). exists (c :: pre). split; [done|].
           by constructor.
        -- intros (pre & Hs & Hpre).
           destruct pre as [|c' pre]; [by apply Forall2_nil_inv_l in Hpre|].
           apply Forall2_cons in Hpre as [_ Hpre]. injection Hs as -> ->.
           by exists pre.
      * split; [done|]. intros (pre & Hs & Hpre).
        destruct pre as [|c' pre]; [by apply Forall2_nil_inv_l in Hpre|].
        apply Forall2_cons in Hpre as [Hc' _]. injection Hs as -> ->.
        congruence.
Qed.

Lemma match_items_spec (p : list (charset * nat)) (s rest : str) :
  match_items p s = Some rest ↔
  ∃ pre, s = pre ++ rest ∧
         Forall2 (λ c cs, match_char cs c = true) pre (expand p).
Proof.
  revert s. induction p as [|[cs n] p IH]; intros s.
  - simpl. split.
    + intros [= ->]. by exists [].
    + intros (pre & -> & ->%Forall2_nil_inv_r). done.
  - unfold expand. rewrite bind_cons. fold (expand p).
    cbn [match_items fst snd]. split.
    + destruct (match_repeat cs n s) as [s'|] eqn:Hs'; [|done]. simpl.
      apply match_repeat_spec in Hs' as (pre1 & -> & Hpre1).
      intros (pre2 & -> & Hpre2)%IH. exists (pre1 ++ pre2).
      split; [by rewrite app_assoc|]. by apply Forall2_app.
    + intros (pre & -> & Hpre).
      apply Forall2_app_inv_r in Hpre as (pre1 & pre2 & Hpre1 & Hpre2 & ->).
      assert (match_repeat cs n ((pre1 ++ pre2) ++ rest)
              = Some (pre2 ++ rest)) as ->.
      { apply match_repeat_spec. exists pre1. by rewrite app_assoc. }
      simpl. apply IH. by exists pre2.
Qed.

Lemma ascii_cases (P : N → Prop) (c : N) :
  is_ascii c = true → Forall P (N.of_nat <$> seq 0 128) → P c.
Proof.
  intros Hc%N.ltb_lt HP. rewrite Forall_forall in HP. apply HP.
  apply list_elem_of_fmap. exists (N.to_nat c). split; [lia|].
  apply elem_of_seq. lia.
Qed.

(** Under [re.IGNORECASE] a set of the pattern matches the characters of
    the shape at its position. *)
Lemma match_char_shape :
  Forall2 (λ cs allowed, ∀ c, match_char cs c = true ↔ c ∈ allowed)
          (expand UUID_PATTERN) uuid4_shape.
Proof.
  assert (∀ cs (allowed : str),
            forallb (λ c, bool_decide (in_charset cs (ascii_lower c) = true
                                       ↔ c ∈ allowed))
                    (N.of_nat <$> seq 0 128) = true →
            forallb is_ascii allowed = true →
            ∀ c, match_char cs c = true ↔ c ∈ allowed) as Hcase.
  { intros cs allowed Hall Hasc c. unfold match_char.
    destruct (is_ascii c) eqn:Hc; simpl.
    - apply (ascii_cases (λ c, in_charset cs (ascii_lower c) = true
                               ↔ c ∈ allowed) c Hc).
      apply Forall_forall. intros x Hx.
      rewrite forallb_forall in Hall.
      apply list_elem_of_In, Hall, bool_decide_eq_true in Hx. done.
    - split; [done|]. intros Hin%list_elem_of_In.
      rewrite forallb_forall in Hasc. apply Hasc in Hin. congruence. }
  vm_compute expand. unfold uuid4_shape. simpl replicate. simpl app.
  repeat (apply Forall2_cons; split;
          [apply Hcase; vm_compute; reflexivity|]).
  apply Forall2_nil. done.
Qed.

Lemma Forall2_shape (s : str) :
  Forall2 (λ c cs, match_char cs c = true) s (expand UUID_PATTERN) ↔
  Forall2 (λ c allowed, c ∈ allowed) s uuid4_shape.
Proof.
  generalize match_char_shape.
  generalize (expand UUID_PATTERN) uuid4_shape. intros l1 l2 H12.
  revert s. induction H12 as [|cs al l1 l2 Hc _ IH]; intros s.
  - split; intros ->%Forall2_nil_inv_r; constructor.
  - destruct s as [|c s].
    { split; intros Hs; by apply Forall2_nil_inv_l in Hs. }
    rewrite !Forall2_cons, Hc, IH. done.
Qed.

Lemma lstrip_length (s : str) : length (lstrip s) ≤ length s.
Proof.
  induction s as [|c s IH]; simpl; [done|].
  destruct (is_space c); simpl; lia.
Qed.

Lemma rstrip_length (s : str) : length (rstrip s) ≤ length s.
Proof.
  unfold rstrip. rewrite length_reverse.
  etrans; [apply lstrip_length|]. by rewrite length_reverse.
Qed.

(** What [strip] returns does not end in a line feed. *)
Lemma strip_no_final_LF (s pre : str) : strip s ≠ pre ++ [LF].
Proof.
  intros Hs. pose proof (strip_stripped s) as [_ Hr]. rewrite Hs in Hr.
  rewrite rstrip_spaces in Hr by (by repeat constructor).
  pose proof (rstrip_length pre) as Hlen. rewrite Hr in Hlen.
  rewrite length_app in Hlen. simpl in Hlen. lia.
Qed.

(** X4.  [validate_job_id] accepts exactly the ids that, with the
    surrounding whitespace trimmed, are version-4 UUIDs: 36 characters,
    hexadecimal digits in either case with hyphens at positions 8, 13, 18
    and 23, the digit 4 at position 14 and one of 8, 9, a, b at position
    19.  Nothing may follow: the line feed that [$] would let pass is
    trimmed before the match. *)
Theorem validate_job_id_spec (job_id : str) :
  (validate_job_id job_id = true ↔
   Forall2 (λ c allowed, c ∈ allowed) (strip job_id) uuid4_shape) ∧
  (validate_job_id job_id = true → length (strip job_id) = 36).
Proof.
  assert (validate_job_id job_id = true ↔
          Forall2 (λ c allowed, c ∈ allowed) (strip job_id) uuid4_shape)
    as Hiff.
  { unfold validate_job_id, re_match.
    rewrite negb_true_iff, orb_false_iff, !negb_false_iff.
    rewrite <- Forall2_shape. split.
    - intros [_ Hm].
      destruct (match_items UUID_PATTERN (strip job_id)) as [rest|] eqn:Hi;
        [|done].
      apply bool_decide_eq_true in Hm.
      apply match_items_spec in Hi as (pre & Hs & Hpre).
      destruct Hm as [->| ->].
      + by rewrite app_nil_r in Hs; subst.
      + by apply strip_no_final_LF in Hs.
    - intros Hs. split.
      + destruct job_id; [|done].
        apply Forall2_length in Hs. by vm_compute in Hs.
      + assert (match_items UUID_PATTERN (strip job_id) = Some []) as ->.
        { apply match_items_spec. exists (strip job_id).
          by rewrite app_nil_r. }
        apply bool_decide_eq_true. by left. }
  split; [exact Hiff|]. intros Hv%Hiff. apply Forall2_length in Hv.
  rewrite Hv. reflexivity.
Qed.

(** *** Running the worker *)

Section WorkerFacts.
Context `{Runtime} {page : Type}.
Implicit Types (fs : gmap str (file page)) (j : job) (e : env page).
Implicit Types (ps out reader writer : list page) (req : list Z).

Lemma bind_run {A B} (m : W A) (f : A → W B) (st : gmap str (file page) * job) :
  (m ≫= f) st = match m st with
                | (inl x, st') => (inl x, st')
                | (inr a, st') => f a st'
                end.
Proof. done. Qed.

Lemma read_input {A} (k : list page → W A) fs j ps :
  input_pdf (fs, j) = Some ps →
  (path ← input_path 0; reader ← PdfReader path; k reader) (fs, j)
  = k ps (fs, j).
Proof.
  unfold input_pdf. simpl. intros Hin.
  rewrite bind_run. unfold input_path. rewrite bind_run. simpl.
  destruct (input_paths j !! 0) as [path|]; [|done]. simpl in *.
  rewrite bind_run. unfold PdfReader. simpl.
  by destruct (fs !! path) as [[]|]; simplify_eq.
Qed.

Lemma read_input_None {A} (k : list page → W A) fs j :
  input_pdf (fs, j) = None →
  ∃ x, (path ← input_path 0; reader ← PdfReader path; k reader) (fs, j)
       = (inl x, (fs, j)).
Proof.
  unfold input_pdf. simpl. intros Hin.
  rewrite bind_run. unfold input_path. rewrite bind_run. simpl.
  destruct (input_paths j !! 0) as [path|]; [|by eexists]. simpl in *.
  rewrite bind_run. unfold PdfReader. simpl.
  destruct (fs !! path) as [[]|]; simplify_eq; by eexists.
Qed.

Lemma lift_Some {A B} (x : exn) (o : option A) (a : A) (k : A → W B)
    (st : gmap str (file page) * job) :
  o = Some a → (lift x o ≫= k) st = k a st.
Proof. by intros ->. Qed.

Lemma lift_None {A B} (x : exn) (o : option A) (k : A → W B)
    (st : gmap str (file page) * job) :
  o = None → (lift x o ≫= k) st = (inl x, st).
Proof. by intros ->. Qed.

(** [check_pages] passes exactly when every number is a page. *)
Lemma check_pages_run (n : nat) (l : list Z)
    (st : gmap str (file page) * job) :
  check_pages n l st
  = if decide (Forall (page_number n) l)
    then (inr (), st) else (inl BadPages, st).
Proof.
  unfold check_pages.
  destruct (filter _ l) as [|q l'] eqn:Hf.
  - rewrite decide_True; [done|].
    apply Forall_forall. intros q Hq.
    unfold page_number.
    destruct (decide (1 ≤ q ≤ Z.of_nat n)%Z) as [|Hn]; [done|].
    assert (q ∈ filter (λ p, p < 1 ∨ Z.of_nat n < p)%Z l) as Hin.
    { apply list_elem_of_filter. split; [lia|done]. }
    rewrite Hf in Hin. by apply elem_of_nil in Hin.
  - rewrite decide_False; [done|]. intros Hall.
    assert (q ∈ filter (λ p, p < 1 ∨ Z.of_nat n < p)%Z l) as Hin.
    { rewrite Hf. left. }
    apply list_elem_of_filter in Hin as [Hq Hin].
    rewrite Forall_forall in Hall. apply Hall in Hin.
    unfold page_number in Hin. lia.
Qed.

Lemma Forall_elements_list_to_set (P : Z → Prop) (l : list Z) :
  Forall P (elements (list_to_set (C:=gset Z) l)) ↔ Forall P l.
Proof.
  rewrite !Forall_forall. split; intros Hl x Hx; apply Hl.
  - apply elem_of_elements, elem_of_list_to_set. done.
  - apply elem_of_elements, elem_of_list_to_set in Hx. done.
Qed.

Lemma enumerate_from_cons {A} (start : nat) (x : A) (l : list A) :
  enumerate_from start (x :: l) = (start, x) :: enumerate_from (S start) l.
Proof.
  unfold enumerate_from. rewrite imap_cons. f_equal; [f_equal; lia|].
  apply imap_ext. intros i y _. simpl. f_equal. lia.
Qed.

Lemma enumerate_from_snd {A} (start : nat) (l : list A) :
  (enumerate_from start l).*2 = l.
Proof.
  revert start. induction l as [|x l IH]; intros start; [done|].
  rewrite enumerate_from_cons, fmap_cons. simpl. by rewrite IH.
Qed.

Lemma enumerate_from_lookup {A} (start : nat) (l : list A) (i : nat) :
  enumerate_from start l !! i = (λ x, (start + i, x)) <$> l !! i.
Proof. unfold enumerate_from. by rewrite list_lookup_imap. Qed.

(** The loop of ROTATE. *)
Lemma rotate_loop e (sel : gset Z) (angle : Z) reader writer (start : nat)
    (st : gmap str (file page) * job) :
  (∀ i pg, reader !! i = Some pg → Z.of_nat (start + i) ∈ sel →
           is_Some (rotate e angle pg)) →
  ∃ out,
    foldM (λ writer ip,
             page ← (if decide (Z.of_nat ip.1 ∈ sel)
                     then lift LibraryError (rotate e angle ip.2)
                     else mret ip.2);
             mret (writer ++ [page]))
          writer (enumerate_from start reader) st
    = (inr (writer ++ out), st) ∧
    length out = length reader ∧
    ∀ i pg, reader !! i = Some pg →
            out !! i = if decide (Z.of_nat (start + i) ∈ sel)
                       then rotate e angle pg else Some pg.
Proof.
  revert writer start. induction reader as [|pg reader IH];
    intros writer start Hrot.
  - exists []. simpl. by rewrite app_nil_r.
  - rewrite enumerate_from_cons. cbn [foldM]. rewrite bind_run.
    assert (∃ pg', (if decide (Z.of_nat start ∈ sel)
                    then rotate e angle pg else Some pg) = Some pg')
      as [pg' Hpg'].
    { destruct (decide (Z.of_nat start ∈ sel)) as [Hin|]; [|by eexists].
      destruct (Hrot 0 pg) as [pg' ?]; [done|by rewrite Nat.add_0_r|].
      by exists pg'. }
    assert ((page ← (if decide (Z.of_nat (start, pg).1 ∈ sel)
                     then lift LibraryError (rotate e angle (start, pg).2)
                     else mret (start, pg).2);
             mret (writer ++ [page])) st
            = (inr (writer ++ [pg']), st)) as ->.
    { simpl. destruct (decide (Z.of_nat start ∈ sel)).
      - by rewrite (lift_Some _ _ pg').
      - by injection Hpg' as ->. }
    destruct (IH (writer ++ [pg']) (S start)) as (out & -> & Hlen & Hout).
    { intros i pg0 Hi Hin. apply (Hrot (S i) pg0); [done|].
      by replace (start + S i) with (S start + i) by lia. }
    exists (pg' :: out). split; [by rewrite <- app_assoc|].
    split; [simpl; lia|].
    intros [|i] pg0 Hi; simpl in *.
    + injection Hi as <-. by rewrite Nat.add_0_r, Hpg'.
    + rewrite (Hout i pg0 Hi).
      by replace (start + S i) with (S start + i) by lia.
Qed.

(** A turn of the worker is the branch of the job, then the download
    name and the status. *)
Lemma worker_turn_run e fs j :
  worker_turn e (fs, j)
  = match branch e (default no_params (job_params j)) (job_type j)
                 (fs, set_status PROCESSING j) with
    | (inr _, st') => (st'.1, completed st'.2)
    | (inl x, st') => (st'.1, failed x st'.2)
    end.
Proof.
  unfold worker_turn, worker_body, mbind, W_bind, bind, get_job,
    modify_job. simpl.
  destruct (branch _ _ _) as [[x|[]] [fs' j']]; reflexivity.
Qed.

End WorkerFacts.

(** X5.  ROTATE: when every listed number is a page of the document, the
    job completes and the output has the pages of the input in their
    order, the listed ones rotated by the angle, once each however often
    a number is listed, and the others as they were. *)
Theorem rotate_job `{Runtime} {page} (e : env page)
    (fs : gmap str (file page)) (j : job) (ps : list page) (req : list Z)
    (angle : Z) :
  job_type j = ROTATE →
  param p_pages j = Some req →
  param p_angle j = Some angle →
  input_pdf (fs, j) = Some ps →
  Forall (page_number (length ps)) req →
  (∀ i pg, ps !! i = Some pg → Z.of_nat (S i) ∈ req →
           is_Some (rotate e angle pg)) →
  ∃ out,
    worker_turn e (fs, j) = (<[output_path j := Pdf out]> fs, completed j) ∧
    length out = length ps ∧
    ∀ i pg, ps !! i = Some pg →
            out !! i = if decide (Z.of_nat (S i) ∈ req)
                       then rotate e angle pg else Some pg.
Proof.
  intros Ht Hreq Hangle Hin Hvalid Hrot.
  destruct (rotate_loop e (list_to_set req) angle ps [] 1
              (fs, set_status PROCESSING j)) as (out & Hloop & Hlen & Hout).
  { intros i pg Hi Hsel. apply (Hrot i pg Hi).
    by apply elem_of_list_to_set in Hsel. }
  exists out. split; [|split; [done|]].
  - rewrite worker_turn_run, Ht. cbn [branch]. unfold rotate_branch.
    rewrite (read_input _ _ _ ps) by done.
    rewrite (lift_Some _ _ req) by done. rewrite bind_run.
    rewrite check_pages_run.
    rewrite decide_True by (by apply Forall_elements_list_to_set).
    rewrite (lift_Some _ _ angle) by done. rewrite bind_run, Hloop.
    done.
  - intros i pg Hi. rewrite (Hout i pg Hi).
    destruct (decide (Z.of_nat (1 + i) ∈ list_to_set (C:=gset Z) req))
      as [Hs|Hs]; rewrite elem_of_list_to_set in Hs;
      [by rewrite decide_True|by rewrite decide_False].
Qed.

(** *** Pages by number *)

Section PageFacts.
Context `{Runtime} {page : Type}.
Implicit Types (fs : gmap str (file page)) (j : job) (e : env page).
Implicit Types (ps out reader writer : list page) (req : list Z).

Lemma delete_loop (sel : gset Z) (l : list (nat * page)) writer :
  foldl (λ writer ip,
           if decide (Z.of_nat ip.1 ∉ sel) then writer ++ [ip.2] else writer)
        writer l
  = writer ++ (filter (λ ip, Z.of_nat ip.1 ∉ sel) l).*2.
Proof.
  revert writer. induction l as [|ip l IH]; intros writer; simpl.
  - by rewrite app_nil_r.
  - rewrite IH, filter_cons. destruct (decide (Z.of_nat ip.1 ∉ sel)); [|done].
    by rewrite fmap_cons, <- app_assoc.
Qed.

Lemma kept_pages_set ps req :
  (filter (λ ip, Z.of_nat ip.1 ∉ list_to_set (C:=gset Z) req)
          (enumerate_from 1 ps)).*2
  = kept_pages ps req.
Proof.
  unfold kept_pages. f_equal. apply list_filter_iff. intros ip.
  by rewrite elem_of_list_to_set.
Qed.

Lemma filter_enumerate_length (P : nat * page → Prop) (Q : nat → Prop)
    `{∀ ip, Decision (P ip)} `{∀ i, Decision (Q i)} (start : nat) ps :
  (∀ ip, P ip ↔ Q ip.1) →
  length (filter P (enumerate_from start ps))
  = length (filter Q (seq start (length ps))).
Proof.
  intros HPQ. revert start. induction ps as [|pg ps IH]; intros start;
    [done|].
  rewrite enumerate_from_cons. simpl. rewrite !filter_cons.
  pose proof (HPQ (start, pg)) as Hs. simpl in Hs.
  destruct (decide (P (start, pg))), (decide (Q start)); simpl;
    rewrite ?IH; tauto.
Qed.

Lemma filter_length_split {A} (Q : A → Prop) `{∀ x, Decision (Q x)}
    (l : list A) :
  length (filter (λ x, ¬ Q x) l) + length (filter Q l) = length l.
Proof.
  induction l as [|x l IH]; [done|]. rewrite !filter_cons.
  destruct (decide (Q x)), (decide (¬ Q x)); simpl; try lia; done.
Qed.

Lemma kept_pages_length ps req :
  Forall (page_number (length ps)) req →
  length (kept_pages ps req) + size (list_to_set (C:=gset Z) req)
  = length ps.
Proof.
  intros Hvalid. unfold kept_pages. rewrite length_fmap.
  rewrite (filter_enumerate_length _ (λ i, Z.of_nat i ∉ req)) by done.
  pose proof (filter_length_split (λ i, Z.of_nat i ∈ req)
                                  (seq 1 (length ps))) as Hsplit.
  rewrite length_seq in Hsplit. rewrite <- Hsplit at 2. f_equal.
  rewrite <- (length_fmap Z.of_nat). unfold size, set_size. simpl.
  symmetry. apply Permutation_length, NoDup_Permutation.
  - apply NoDup_fmap_2; [apply _|]. apply NoDup_filter, NoDup_seq.
  - apply NoDup_elements.
  - intros x. rewrite elem_of_elements, elem_of_list_to_set.
    rewrite list_elem_of_fmap. split.
    + intros (i & -> & [Hi _]%list_elem_of_filter). done.
    + intros Hx. exists (Z.to_nat x).
      pose proof (proj1 (Forall_forall _ _) Hvalid x Hx) as Hq.
      unfold page_number in Hq. split; [lia|].
      apply list_elem_of_filter. split; [by rewrite Z2Nat.id by lia|].
      apply elem_of_seq. lia.
Qed.

Lemma filter_Forall_not {A} (P : A → Prop) `{∀ x, Decision (P x)} (l : list A) :
  Forall (λ x, ¬ P x) l → filter P l = [].
Proof.
  induction 1 as [|x l Hx _ IH]; [done|].
  by rewrite filter_cons, decide_False.
Qed.

Lemma kept_pages_sublist ps req : sublist (kept_pages ps req) ps.
Proof.
  unfold kept_pages. rewrite <- (enumerate_from_snd 1 ps) at 2.
  apply fmap_sublist, sublist_filter.
Qed.

Lemma py_index_page reader (q : Z) :
  page_number (length reader) q →
  ∃ pg, py_index reader (q - 1) = Some pg ∧
        reader !! Z.to_nat (q - 1) = Some pg.
Proof.
  unfold page_number, py_index. intros Hq.
  destruct (lookup_lt_is_Some_2 reader (Z.to_nat (q - 1))) as [pg Hpg];
    [lia|].
  exists pg. split; [|done]. by rewrite (proj2 (Z.leb_le _ _)) by lia.
Qed.

Lemma add_pages_run reader writer (l : list Z)
    (st : gmap str (file page) * job) :
  Forall (page_number (length reader)) l →
  ∃ out, add_pages reader writer l st = (inr (writer ++ out), st) ∧
         pages_numbered reader l out.
Proof.
  intros Hl. revert writer. induction Hl as [|q l Hq _ IH]; intros writer.
  - exists []. split; [by rewrite app_nil_r|constructor].
  - destruct (py_index_page reader q Hq) as (pg & Hpy & Hpg).
    destruct (IH (writer ++ [pg])) as (out & Hrun & Hout).
    exists (pg :: out). split.
    + unfold add_pages in *. cbn [foldM]. rewrite bind_run.
      rewrite (lift_Some _ _ pg) by done. cbn. rewrite Hrun.
      by rewrite <- app_assoc.
    + constructor; [|done]. unfold page_number in Hq. split; [lia|done].
Qed.

(** [add_pages] never touches the files or the job. *)
Lemma add_pages_state reader writer (l : list Z)
    (st : gmap str (file page) * job) :
  (add_pages reader writer l st).2 = st.
Proof.
  revert writer. induction l as [|q l IH]; intros writer; [done|].
  unfold add_pages in *. cbn [foldM]. rewrite bind_run.
  destruct (py_index reader (q - 1)) as [pg|] eqn:Hpg.
  - rewrite (lift_Some _ _ pg) by done. cbn. apply IH.
  - by rewrite lift_None.
Qed.

Lemma pages_numbered_all ps out :
  pages_numbered ps (range 1 (Z.of_nat (length ps) + 1)) out → out = ps.
Proof.
  unfold pages_numbered, range. intros Hout.
  pose proof (Forall2_length _ _ _ Hout) as Hlen.
  rewrite length_seqZ in Hlen.
  apply list_eq. intros i.
  destruct (decide (i < length ps)) as [Hi|Hi].
  - destruct (lookup_lt_is_Some_2 out i) as [pg Hpg]; [lia|].
    assert (seqZ 1 (Z.of_nat (length ps) + 1 - 1) !! i
            = Some (1 + Z.of_nat i)%Z) as Hq.
    { apply lookup_seqZ. split; [done|]. lia. }
    pose proof (Forall2_lookup_lr _ _ _ _ _ _ Hout Hq Hpg) as [_ Hps].
    rewrite Hpg, <- Hps. f_equal. lia.
  - rewrite !lookup_ge_None_2 by lia. done.
Qed.

Lemma pages_numbered_perm ps req out :
  req ≡ₚ range 1 (Z.of_nat (length ps) + 1) →
  pages_numbered ps req out → out ≡ₚ ps.
Proof.
  intros Hperm Hout.
  destruct (Permutation_Forall2 Hperm Hout) as (out' & Hout' & Hall).
  apply pages_numbered_all in Hall. by subst.
Qed.

Lemma range_pages (n : nat) :
  Forall (page_number n) (range 1 (Z.of_nat n + 1)).
Proof.
  apply Forall_forall. intros q Hq%elem_of_seqZ. unfold page_number. lia.
Qed.

(** The two checks of REORDER together. *)
Lemma order_check (order : list Z) (n : nat) :
  length order = n ∧
  list_to_set (C:=gset Z) order = list_to_set (range 1 (Z.of_nat n + 1))
  ↔ order ≡ₚ range 1 (Z.of_nat n + 1).
Proof.
  split.
  - intros [Hlen Hset]. symmetry. apply submseteq_length_Permutation.
    + apply NoDup_submseteq; [apply NoDup_seqZ|].
      intros q Hq. apply (elem_of_list_to_set (C:=gset Z)).
      rewrite Hset. by apply elem_of_list_to_set.
    + unfold range. rewrite length_seqZ. lia.
  - intros Hperm. split.
    + rewrite Hperm. unfold range. rewrite length_seqZ. lia.
    + apply set_eq. intros q. rewrite !elem_of_list_to_set.
      by rewrite Hperm.
Qed.

Lemma reorder_branch_run (p : params) fs j ps order :
  input_pdf (fs, j) = Some ps →
  p_order p = Some order →
  (order ≡ₚ range 1 (Z.of_nat (length ps) + 1) →
   ∃ out, reorder_branch p (fs, j)
          = (inr (), (<[output_path j := Pdf out]> fs, j)) ∧
          pages_numbered ps order out) ∧
  (¬ order ≡ₚ range 1 (Z.of_nat (length ps) + 1) →
   ∃ x, reorder_branch p (fs, j) = (inl x, (fs, j)) ∧
        x = if decide (Forall (page_number (length ps)) order)
            then BadOrder else BadPages).
Proof.
  intros Hin Horder. unfold reorder_branch.
  rewrite (read_input _ _ _ ps) by done.
  rewrite (lift_Some _ _ order) by done. rewrite bind_run, check_pages_run.
  destruct (decide (Forall (page_number (length ps)) order)) as [Hv|Hv].
  - rewrite bind_run.
    destruct (decide (order ≡ₚ range 1 (Z.of_nat (length ps) + 1)))
      as [Hperm|Hperm].
    + split; [intros _|done].
      pose proof (proj2 (order_check _ _) Hperm) as [Hlen Hset].
      rewrite bool_decide_eq_false_2 by (by intros []).
      rewrite bool_decide_eq_false_2 by (by intros []). simpl.
      destruct (add_pages_run ps [] order (fs, j) Hv) as (out & Hrun & Hout).
      exists out. split; [|done]. rewrite bind_run, Hrun. done.
    + split; [done|intros _]. exists BadOrder. split; [|done].
      destruct (bool_decide (length order ≠ length ps)) eqn:Hlen; [done|].
      destruct (bool_decide (list_to_set (C:=gset Z) order ≠ _)) eqn:Hset;
        [done|].
      apply bool_decide_eq_false in Hlen, Hset.
      destruct Hperm. apply order_check. split.
      * by destruct (decide (length order = length ps)).
      * by destruct (decide (list_to_set (C:=gset Z) order
                             = list_to_set (range 1 (Z.of_nat (length ps) + 1)))).
  - split.
    + intros Hperm. destruct Hv. rewrite Hperm. apply range_pages.
    + intros _. by exists BadPages.
Qed.

End PageFacts.

(** X6.  DELETE: when every listed number is a page of the document, the
    job completes and the output holds, in their order, the pages whose
    number is not listed; it has as many pages fewer as there are
    distinct numbers listed, and none at all when every page is
    listed. *)
Theorem delete_job `{Runtime} {page} (e : env page)
    (fs : gmap str (file page)) (j : job) (ps : list page) (req : list Z) :
  job_type j = DELETE →
  param p_pages j = Some req →
  input_pdf (fs, j) = Some ps →
  Forall (page_number (length ps)) req →
  worker_turn e (fs, j)
  = (<[output_path j := Pdf (kept_pages ps req)]> fs, completed j) ∧
  sublist (kept_pages ps req) ps ∧
  length (kept_pages ps req) + size (list_to_set (C:=gset Z) req)
  = length ps ∧
  ((∀ q, page_number (length ps) q → q ∈ req) → kept_pages ps req = []).
Proof.
  intros Ht Hreq Hin Hvalid. split_and!.
  - rewrite worker_turn_run, Ht. cbn [branch]. unfold delete_branch.
    rewrite (read_input _ _ _ ps) by done.
    rewrite (lift_Some _ _ req) by done. rewrite bind_run, check_pages_run.
    rewrite decide_True by (by apply Forall_elements_list_to_set).
    rewrite delete_loop, kept_pages_set. done.
  - apply kept_pages_sublist.
  - by apply kept_pages_length.
  - intros Hall. unfold kept_pages.
    rewrite filter_Forall_not; [done|].
    apply Forall_forall. intros [i pg] Hip Hi. simpl in Hi. apply Hi, Hall.
    apply list_elem_of_lookup in Hip as [k Hk].
    rewrite enumerate_from_lookup in Hk.
    destruct (ps !! k) eqn:Hpk; [|done]. injection Hk as <- <-.
    apply lookup_lt_Some in Hpk. unfold page_number. lia.
Qed.

(** X7.  EXTRACT: when every listed number is a page of the document, the
    job completes and the output holds the listed pages in the order of
    the list, a page as often as it is listed. *)
Theorem extract_job `{Runtime} {page} (e : env page)
    (fs : gmap str (file page)) (j : job) (ps : list page) (req : list Z) :
  job_type j = EXTRACT →
  param p_pages j = Some req →
  input_pdf (fs, j) = Some ps →
  Forall (page_number (length ps)) req →
  ∃ out,
    worker_turn e (fs, j) = (<[output_path j := Pdf out]> fs, completed j) ∧
    pages_numbered ps req out ∧ length out = length req.
Proof.
  intros Ht Hreq Hin Hvalid.
  destruct (add_pages_run ps [] req (fs, set_status PROCESSING j) Hvalid)
    as (out & Hrun & Hout).
  exists out. split_and!; [|done|by apply Forall2_length in Hout].
  rewrite worker_turn_run, Ht. cbn [branch]. unfold extract_branch.
  rewrite (read_input _ _ _ ps) by done.
  rewrite (lift_Some _ _ req) by done. rewrite bind_run, check_pages_run.
  rewrite decide_True by done. rewrite bind_run, Hrun. done.
Qed.

(** X8.  ROTATE, DELETE, EXTRACT and REORDER: when a number asked for is
    not a page of the document, the job fails with the message about
    page numbers, and nothing is written: the files are as before and the
    job has no download name. *)
Theorem page_out_of_range `{Runtime} {page} (e : env page)
    (fs : gmap str (file page)) (j : job) (ps : list page) (req : list Z) :
  requested j = Some req →
  input_pdf (fs, j) = Some ps →
  ¬ Forall (page_number (length ps)) req →
  worker_turn e (fs, j) = (fs, failed BadPages j).
Proof.
  intros Hreq Hin Hbad. rewrite worker_turn_run. unfold requested in Hreq.
  destruct (job_type j) eqn:Ht; try done; cbn [branch].
  - unfold delete_branch. rewrite (read_input _ _ _ ps) by done.
    rewrite (lift_Some _ _ req) by done. rewrite bind_run, check_pages_run.
    rewrite decide_False by (by rewrite Forall_elements_list_to_set).
    done.
  - unfold extract_branch. rewrite (read_input _ _ _ ps) by done.
    rewrite (lift_Some _ _ req) by done. rewrite bind_run, check_pages_run.
    rewrite decide_False by done. done.
  - destruct (reorder_branch_run (default no_params (job_params j)) fs
                (set_status PROCESSING j) ps req Hin Hreq) as [_ Hfail].
    destruct Hfail as (x & -> & ->).
    { intros Hperm. destruct Hbad. rewrite Hperm. apply range_pages. }
    by rewrite decide_False.
  - unfold rotate_branch. rewrite (read_input _ _ _ ps) by done.
    rewrite (lift_Some _ _ req) by done. rewrite bind_run, check_pages_run.
    rewrite decide_False by (by rewrite Forall_elements_list_to_set).
    done.
Qed.

(** X9.  REORDER completes exactly when the order lists every page number
    of the document once; the output is then the pages in that order, a
    permutation of the input, and the input itself for the order
    1, 2, ..., n.  Otherwise nothing is written. *)
Theorem reorder_job `{Runtime} {page} (e : env page)
    (fs : gmap str (file page)) (j : job) (ps : list page)
    (order : list Z) :
  job_type j = REORDER →
  param p_order j = Some order →
  input_pdf (fs, j) = Some ps →
  let all := range 1 (Z.of_nat (length ps) + 1) in
  (status (worker_turn e (fs, j)).2 = COMPLETED ↔ order ≡ₚ all) ∧
  (order ≡ₚ all →
   ∃ out, worker_turn e (fs, j)
          = (<[output_path j := Pdf out]> fs, completed j) ∧
          pages_numbered ps order out ∧ out ≡ₚ ps ∧
          (order = all → out = ps)) ∧
  (¬ order ≡ₚ all → (worker_turn e (fs, j)).1 = fs).
Proof.
  intros Ht Horder Hin all.
  destruct (reorder_branch_run (default no_params (job_params j)) fs
              (set_status PROCESSING j) ps order Hin Horder) as [Hok Hfail].
  rewrite worker_turn_run, Ht. cbn [branch].
  destruct (decide (order ≡ₚ all)) as [Hperm|Hperm].
  - destruct (Hok Hperm) as (out & -> & Hout). split_and!; [done| |done].
    intros _. exists out. split_and!; [done|done| |].
    + by eapply pages_numbered_perm.
    + intros ->. by apply pages_numbered_all.
  - destruct (Hfail Hperm) as (x & -> & _). split_and!; [|done|done].
    split; [done|]. intros. by destruct Hperm.
Qed.

(** *** Page jobs one after the other *)

Section ComposeFacts.
Context `{Runtime} {page : Type}.
Implicit Types (fs : gmap str (file page)) (j : job) (e : env page).
Implicit Types (ps out reader writer : list page) (req : list Z).

Lemma output_pdf_insert fs j out :
  output_pdf (<[output_path j := Pdf out]> fs, completed j) = Some out.
Proof. unfold output_pdf. simpl. by rewrite lookup_insert_eq. Qed.

Lemma pages_numbered_lookup ps req out (k : nat) (q : Z) :
  pages_numbered ps req out → req !! k = Some q →
  (1 ≤ q)%Z ∧ out !! k = ps !! Z.to_nat (q - 1).
Proof.
  intros Hout Hq.
  destruct (Forall2_lookup_l _ _ _ _ _ Hout Hq) as (pg & Hpg & Hq1 & Hps).
  split; [done|]. by rewrite Hpg, Hps.
Qed.

(** The pages not numbered in [req], as EXTRACT is asked for them. *)
Lemma pages_numbered_kept ps req out :
  pages_numbered ps
    (filter (λ q, q ∉ req) (range 1 (Z.of_nat (length ps) + 1))) out →
  out = kept_pages ps req.
Proof.
  unfold kept_pages, range, pages_numbered.
  replace (Z.of_nat (length ps) + 1 - 1)%Z with (Z.of_nat (length ps)) by lia.
  assert (∀ (start : nat) (pre : list page) out,
            Forall2 (λ q pg, (1 ≤ q)%Z ∧
                             (pre ++ ps) !! Z.to_nat (q - 1) = Some pg)
                    (filter (λ q, q ∉ req)
                            (seqZ (Z.of_nat start + 1) (Z.of_nat (length ps))))
                    out →
            length pre = start →
            out = (filter (λ ip : nat * page, Z.of_nat ip.1 ∉ req)
                          (enumerate_from (S start) ps)).*2) as Hgen.
  { clear out. induction ps as [|pg ps IH]; intros start pre out Hout Hpre.
    - simpl in Hout. by apply Forall2_nil_inv_l in Hout.
    - rewrite enumerate_from_cons.
      replace (Z.of_nat (length (pg :: ps)))
        with (Z.succ (Z.of_nat (length ps))) in Hout by (simpl; lia).
      rewrite seqZ_cons in Hout by lia.
      replace (Z.pred (Z.succ (Z.of_nat (length ps))))
        with (Z.of_nat (length ps)) in Hout by lia.
      replace (Z.succ (Z.of_nat start + 1))
        with (Z.of_nat (S start) + 1)%Z in Hout by lia.
      rewrite filter_cons in Hout. rewrite filter_cons. simpl.
      replace (Z.of_nat start + 1)%Z with (Z.of_nat (S start)) in Hout by lia.
      destruct (decide (Z.of_nat (S start) ∉ req)) as [Hs|Hs].
      + destruct out as [|pg' out]; [by apply Forall2_nil_inv_r in Hout|].
        apply Forall2_cons in Hout as [[_ Hpg'] Hout].
        replace (Z.to_nat (Z.of_nat (S start) - 1)) with (length pre + 0)
          in Hpg' by lia.
        rewrite lookup_app_r, Nat.add_comm, Nat.add_sub in Hpg' by lia.
        simpl in Hpg'. injection Hpg' as <-. rewrite fmap_cons. simpl.
        f_equal. apply (IH (S start) (pre ++ [pg])).
        * by rewrite <- app_assoc.
        * rewrite length_app. simpl. lia.
      + apply (IH (S start) (pre ++ [pg])).
        * by rewrite <- app_assoc.
        * rewrite length_app. simpl. lia. }
  intros Hout. apply (Hgen 0 []); done.
Qed.

Lemma reorder_turn e fs j ps (order : list Z) :
  job_type j = REORDER →
  param p_order j = Some order →
  input_pdf (fs, j) = Some ps →
  order ≡ₚ range 1 (Z.of_nat (length ps) + 1) →
  ∃ out, worker_turn e (fs, j)
         = (<[output_path j := Pdf out]> fs, completed j) ∧
         pages_numbered ps order out.
Proof.
  intros Ht Ho Hin Hperm.
  destruct (reorder_branch_run (default no_params (job_params j)) fs
              (set_status PROCESSING j) ps order Hin Ho) as [Hok _].
  destruct (Hok Hperm) as (out & Hrun & Hout). exists out.
  split; [|done]. rewrite worker_turn_run, Ht. cbn [branch].
  by rewrite Hrun.
Qed.

End ComposeFacts.

(** X10.  REORDER undone: after a document is reordered by [o1], the
    reordering of the result by the inverse order [o2] (the number at
    position [q] of [o1] is the position of [q] in [o2]) completes and
    gives the first document back. *)
Theorem reorder_inverse `{Runtime} {page} (e : env page)
    (fs fs2 : gmap str (file page)) (j j2 : job) (ps : list page)
    (o1 o2 : list Z) :
  job_type j = REORDER →
  param p_order j = Some o1 →
  input_pdf (fs, j) = Some ps →
  o1 ≡ₚ range 1 (Z.of_nat (length ps) + 1) →
  job_type j2 = REORDER →
  param p_order j2 = Some o2 →
  input_pdf (fs2, j2) = output_pdf (worker_turn e (fs, j)) →
  length o2 = length o1 →
  (∀ k q, o2 !! k = Some q →
          (1 ≤ q)%Z ∧ o1 !! Z.to_nat (q - 1) = Some (Z.of_nat (S k))) →
  status (worker_turn e (fs2, j2)).2 = COMPLETED ∧
  output_pdf (worker_turn e (fs2, j2)) = Some ps.
Proof.
  intros Ht Ho1 Hin Hperm Ht2 Ho2 Hin2 Hlen Hinv.
  destruct (reorder_turn e fs j ps o1 Ht Ho1 Hin Hperm)
    as (out1 & Hrun1 & Hout1).
  rewrite Hrun1, output_pdf_insert in Hin2.
  pose proof (Forall2_length _ _ _ Hout1) as Hlen1.
  pose proof (Permutation_length Hperm) as Hlen0.
  unfold range in Hlen0. rewrite length_seqZ in Hlen0.
  assert (o2 ≡ₚ range 1 (Z.of_nat (length out1) + 1)) as Hperm2.
  { apply submseteq_length_Permutation.
    - apply NoDup_submseteq.
      + apply NoDup_alt. intros k k' q Hk Hk'.
        destruct (Hinv k q Hk) as [_ H1], (Hinv k' q Hk') as [_ H2].
        rewrite H1 in H2. injection H2. lia.
      + intros q [k Hk]%list_elem_of_lookup.
        destruct (Hinv k q Hk) as [Hq Hq'%lookup_lt_Some].
        apply elem_of_seqZ. lia.
    - unfold range. rewrite length_seqZ. lia. }
  destruct (reorder_turn e fs2 j2 out1 o2 Ht2 Ho2 Hin2 Hperm2)
    as (out2 & -> & Hout2).
  split; [done|]. rewrite output_pdf_insert. f_equal.
  pose proof (Forall2_length _ _ _ Hout2) as Hlen2.
  apply list_eq. intros k.
  destruct (o2 !! k) as [q|] eqn:Hk.
  - destruct (pages_numbered_lookup _ _ _ _ _ Hout2 Hk) as [Hq ->].
    destruct (Hinv k q Hk) as [_ Hq1].
    destruct (pages_numbered_lookup _ _ _ _ _ Hout1 Hq1) as [_ ->].
    f_equal. lia.
  - apply lookup_ge_None in Hk. rewrite !lookup_ge_None_2 by lia. done.
Qed.

(** X11.  DELETE against EXTRACT: to delete the pages [req] is to extract
    the page numbers that are not in [req], in ascending order: on the
    same document and the same output path the two jobs leave the same
    files. *)
Theorem delete_is_extract `{Runtime} {page} (e : env page)
    (fs : gmap str (file page)) (jd je : job) (ps : list page)
    (req : list Z) :
  job_type jd = DELETE →
  param p_pages jd = Some req →
  job_type je = EXTRACT →
  param p_pages je
  = Some (filter (λ q, q ∉ req) (range 1 (Z.of_nat (length ps) + 1))) →
  input_pdf (fs, jd) = Some ps →
  input_pdf (fs, je) = Some ps →
  output_path jd = output_path je →
  Forall (page_number (length ps)) req →
  (worker_turn e (fs, jd)).1 = (worker_turn e (fs, je)).1 ∧
  output_pdf (worker_turn e (fs, je)) = Some (kept_pages ps req).
Proof.
  intros Htd Hd Hte He Hind Hine Hpath Hvalid.
  assert (Forall (page_number (length ps))
            (filter (λ q, q ∉ req) (range 1 (Z.of_nat (length ps) + 1))))
    as Hrest.
  { apply Forall_forall. intros q [_ Hq]%list_elem_of_filter.
    by apply (proj1 (Forall_forall _ _) (range_pages (length ps))). }
  destruct (add_pages_run ps [] _ (fs, set_status PROCESSING je) Hrest)
    as (out & Hrun & Hout).
  apply pages_numbered_kept in Hout. subst out.
  assert (worker_turn e (fs, je)
          = (<[output_path je := Pdf (kept_pages ps req)]> fs, completed je))
    as ->.
  { rewrite worker_turn_run, Hte. cbn [branch]. unfold extract_branch.
    rewrite (read_input _ _ _ ps) by done.
    rewrite (lift_Some _ _ _ _ _ He). rewrite bind_run, check_pages_run.
    rewrite decide_True by done. rewrite bind_run, Hrun. done. }
  rewrite output_pdf_insert. split; [|done].
  rewrite worker_turn_run, Htd. cbn [branch]. unfold delete_branch.
  rewrite (read_input _ _ _ ps) by done.
  rewrite (lift_Some _ _ req) by done. rewrite bind_run, check_pages_run.
  rewrite decide_True by (by apply Forall_elements_list_to_set).
  rewrite delete_loop, kept_pages_set. simpl. by rewrite Hpath.
Qed.

(** *** Splitting and merging *)

Lemma split_page_name_inj : Inj (=) (=) split_page_name.
Proof.
  intros i i' Heq. unfold split_page_name in Heq.
  apply app_inv_head, app_inv_tail in Heq. by apply str_of_nat_inj in Heq.
Qed.

Lemma split_name_inj : Inj (=) (=) split_name.
Proof.
  intros i i' Heq. unfold split_name in Heq.
  apply app_inv_head, app_inv_tail in Heq. by apply str_of_nat_inj in Heq.
Qed.

Lemma split_page_name_not_zip (i : nat) : split_page_name i ≠ split_output_zip.
Proof.
  unfold split_page_name, split_output_zip. intros Heq.
  apply (f_equal (λ s : str, s !! 6)) in Heq. by vm_compute in Heq.
Qed.

Lemma split_name_not_zip (i : nat) : split_name i ≠ split_output_zip.
Proof.
  unfold split_name, split_output_zip. intros Heq.
  apply (f_equal reverse) in Heq. rewrite !reverse_app in Heq.
  apply (f_equal (λ s : str, s !! 0)) in Heq. by vm_compute in Heq.
Qed.

Section SplitFacts.
Context `{Runtime} {page : Type}.
Implicit Types (fs : gmap str (file page)) (j : job) (e : env page).
Implicit Types (ps out reader writer : list page).
Implicit Types parts : list (str * list page).

Lemma with_parts_snoc parts (name : str) (doc : list page) fs :
  with_parts (parts ++ [(name, doc)]) fs
  = <[name := Pdf doc]> (with_parts parts fs).
Proof. unfold with_parts. by rewrite foldl_app. Qed.

Lemma with_parts_cons parts (nd : str * list page) fs :
  with_parts (nd :: parts) fs = with_parts parts (<[nd.1 := Pdf nd.2]> fs).
Proof. done. Qed.

Lemma with_parts_lookup_ne parts fs (name : str) :
  name ∉ parts.*1 → with_parts parts fs !! name = fs !! name.
Proof.
  revert fs. induction parts as [|nd parts IH]; intros fs Hname; [done|].
  rewrite fmap_cons in Hname. apply not_elem_of_cons in Hname as [Hne Hname].
  rewrite with_parts_cons, IH by done. by rewrite lookup_insert_ne.
Qed.

Lemma with_parts_lookup parts fs (name : str) (doc : list page) :
  NoDup parts.*1 → (name, doc) ∈ parts →
  with_parts parts fs !! name = Some (Pdf doc).
Proof.
  revert fs. induction parts as [|nd parts IH]; intros fs Hnd Hin.
  { by apply elem_of_nil in Hin. }
  rewrite fmap_cons in Hnd. apply NoDup_cons in Hnd as [Hfresh Hnd].
  rewrite with_parts_cons. apply elem_of_cons in Hin as [<-|Hin].
  - rewrite with_parts_lookup_ne by done. simpl. by rewrite lookup_insert_eq.
  - by apply IH.
Qed.

(** The archive of the parts. *)
Lemma zip_files_run parts fs j :
  NoDup parts.*1 → split_output_zip ∉ parts.*1 →
  zip_files split_output_zip parts.*1 (with_parts parts fs, j)
  = (inr (), (<[split_output_zip := Zip parts]> (with_parts parts fs), j)).
Proof.
  intros Hnd Hzip. unfold zip_files. rewrite bind_run.
  unfold write_file at 1. cbn [fst snd].
  set (fs1 := <[split_output_zip := Zip []]> (with_parts parts fs)).
  assert (∀ (done todo : list (str * list page)),
            (∀ nd, nd ∈ todo → nd ∈ parts) →
            foldM (λ entries fp,
                     pages ← PdfReader fp; mret (entries ++ [(fp, pages)]))
                  done todo.*1 (fs1, j)
            = (inr (done ++ todo), (fs1, j))) as Hloop.
  { intros done todo. revert done.
    induction todo as [|[name doc] todo IH]; intros done Hsub.
    - simpl. by rewrite app_nil_r.
    - rewrite fmap_cons. cbn [foldM]. rewrite bind_run.
      assert (fs1 !! name = Some (Pdf doc)) as Hname.
      { unfold fs1. rewrite lookup_insert_ne.
        - apply with_parts_lookup; [done|]. apply Hsub. left.
        - intros Heq. apply Hzip. apply list_elem_of_fmap.
          exists (name, doc). split; [done|]. apply Hsub. left. }
      rewrite bind_run. unfold PdfReader at 1. cbn [fst snd]. rewrite Hname.
      cbn. rewrite IH by (intros nd Hnd'; apply Hsub; by right).
      by rewrite <- app_assoc. }
  rewrite bind_run, (Hloop [] parts) by done. cbn.
  unfold write_file. cbn. unfold fs1. by rewrite insert_insert_eq.
Qed.

Lemma split_parts_snoc ps (pg : page) :
  split_parts (ps ++ [pg])
  = split_parts ps ++ [(split_page_name (S (length ps)), [pg])].
Proof.
  unfold split_parts. rewrite imap_app. simpl. by rewrite Nat.add_0_r.
Qed.

Lemma split_parts_names ps :
  (split_parts ps).*1 = split_page_name <$> seq 1 (length ps).
Proof.
  unfold split_parts. rewrite fmap_imap.
  apply list_eq. intros i. rewrite list_lookup_imap, list_lookup_fmap.
  destruct (ps !! i) as [pg|] eqn:Hi; simpl.
  - apply lookup_lt_Some in Hi. by rewrite lookup_seq_lt.
  - apply lookup_ge_None in Hi. by rewrite lookup_seq_ge.
Qed.

Lemma split_parts_docs ps : mjoin (split_parts ps).*2 = ps.
Proof.
  induction ps as [|pg ps IH] using rev_ind; [done|].
  rewrite split_parts_snoc, fmap_app, join_app, IH. simpl. done.
Qed.

Lemma split_parts_NoDup ps : NoDup (split_parts ps).*1.
Proof.
  rewrite split_parts_names.
  apply NoDup_fmap_2; [apply split_page_name_inj|apply NoDup_seq].
Qed.

Lemma split_parts_not_zip ps : split_output_zip ∉ (split_parts ps).*1.
Proof.
  rewrite split_parts_names. intros (i & Hi & _)%list_elem_of_fmap.
  by apply eq_sym, split_page_name_not_zip in Hi.
Qed.

(** The loop of SPLIT. *)
Lemma split_loop (pre ps : list page) (split_files : list str) fs j :
  split_files = (split_parts pre).*1 →
  foldM (λ split_files ip,
           write_file (split_page_name ip.1) (Pdf [ip.2]);;
           mret (split_files ++ [split_page_name ip.1]))
        split_files (enumerate_from (S (length pre)) ps)
        (with_parts (split_parts pre) fs, j)
  = (inr (split_parts (pre ++ ps)).*1,
     (with_parts (split_parts (pre ++ ps)) fs, j)).
Proof.
  revert pre split_files. induction ps as [|pg ps IH];
    intros pre split_files ->.
  - by rewrite app_nil_r.
  - rewrite enumerate_from_cons. cbn [foldM]. cbv zeta.
    rewrite !bind_run. unfold write_file at 1, mret at 1, W_ret, ret.
    cbn [fst snd].
    rewrite <- with_parts_snoc.
    rewrite <- split_parts_snoc.
    replace (S (length pre)) with (length (pre ++ [pg]))
      by (rewrite length_app; simpl; lia).
    rewrite IH.
    + by rewrite <- app_assoc.
    + rewrite split_parts_snoc, fmap_app, length_app. simpl.
      by rewrite Nat.add_1_r.
Qed.

Lemma split_branch_run fs j ps :
  input_pdf (fs, j) = Some ps →
  split_branch (fs, j)
  = (inr (),
     (<[split_output_zip := Zip (split_parts ps)]>
        (with_parts (split_parts ps) fs),
      set_output_path split_output_zip j)).
Proof.
  intros Hin. unfold split_branch. rewrite (read_input _ _ _ ps) by done.
  cbv zeta. rewrite bind_run.
  pose proof (split_loop [] ps [] fs j eq_refl) as Hloop.
  simpl in Hloop. rewrite Hloop. rewrite bind_run.
  rewrite zip_files_run
    by (apply split_parts_NoDup || apply split_parts_not_zip).
  done.
Qed.

(** MERGE on documents that are there. *)
Lemma merge_branch_run fs j (docs : list (list page)) :
  Forall2 (λ path doc, fs !! path = Some (Pdf doc)) (input_paths j) docs →
  merge_branch (fs, j)
  = (inr (), (<[output_path j := Pdf (mjoin docs)]> fs, j)).
Proof.
  intros Hdocs. unfold merge_branch. rewrite bind_run. cbn.
  assert (∀ writer,
            foldM (λ writer path,
                     pages ← PdfReader path; mret (writer ++ pages))
                  writer (input_paths j) (fs, j)
            = (inr (writer ++ mjoin docs), (fs, j))) as Hloop.
  { induction Hdocs as [|path doc paths docs Hpath _ IH]; intros writer.
    - simpl. by rewrite app_nil_r.
    - cbn [foldM]. rewrite bind_run. rewrite bind_run.
      unfold PdfReader at 1. cbn [fst snd]. rewrite Hpath. cbn.
      rewrite IH. by rewrite <- app_assoc. }
  rewrite bind_run, Hloop. done.
Qed.

Lemma zip_name_ext (t : JobType) :
  t ∈ ZIP_OUTPUT_TYPES → output_ext t split_output_zip = py ".zip".
Proof.
  intros _. unfold output_ext, splitext. destruct os_nt; reflexivity.
Qed.

End SplitFacts.

(** X12.  SPLIT: the job completes; every page [i] of the document is
    written as a document of its own, [split_page_i.pdf]; the archive
    [split_output.zip], which becomes the output of the job, lists these
    parts in the order of the pages, so that the parts put one after the
    other are the document; the download name ends in [_split.zip]. *)
Theorem split_job `{Runtime} {page} (e : env page)
    (fs : gmap str (file page)) (j : job) (ps : list page) :
  job_type j = SPLIT →
  input_pdf (fs, j) = Some ps →
  let st' := worker_turn e (fs, j) in
  st' = (<[split_output_zip := Zip (split_parts ps)]>
           (with_parts (split_parts ps) fs),
         completed (set_output_path split_output_zip j)) ∧
  (∀ i pg, ps !! i = Some pg →
           st'.1 !! split_page_name (S i) = Some (Pdf [pg])) ∧
  length (split_parts ps) = length ps ∧
  mjoin (split_parts ps).*2 = ps ∧
  ∃ base, output_filename st'.2 = Some (base ++ py "_split.zip").
Proof.
  intros Ht Hin st'.
  assert (st' = (<[split_output_zip := Zip (split_parts ps)]>
                   (with_parts (split_parts ps) fs),
                 completed (set_output_path split_output_zip j))) as Hst.
  { unfold st'. rewrite worker_turn_run, Ht. cbn [branch].
    by rewrite (split_branch_run _ _ ps). }
  split; [done|]. rewrite Hst. cbn [fst snd]. split_and!.
  - intros i pg Hi.
    rewrite lookup_insert_ne by (apply not_eq_sym, split_page_name_not_zip).
    apply with_parts_lookup; [apply split_parts_NoDup|].
    apply list_elem_of_lookup. exists i. unfold split_parts.
    rewrite list_lookup_imap, Hi. done.
  - unfold split_parts. by rewrite length_imap.
  - apply split_parts_docs.
  - eexists. simpl. unfold make_output_filename. rewrite Ht.
    rewrite zip_name_ext by (rewrite <- Ht; set_solver). done.
Qed.

(** X13.  SPLIT undone by MERGE: a merge job whose inputs are the parts a
    split job has written, in their order, completes with the document
    that was split. *)
Theorem split_then_merge `{Runtime} {page} (e : env page)
    (fs : gmap str (file page)) (j j2 : job) (ps : list page) :
  job_type j = SPLIT →
  input_pdf (fs, j) = Some ps →
  job_type j2 = MERGE →
  input_paths j2 = split_page_name <$> seq 1 (length ps) →
  let st2 := worker_turn e ((worker_turn e (fs, j)).1, j2) in
  status st2.2 = COMPLETED ∧ output_pdf st2 = Some ps.
Proof.
  intros Ht Hin Ht2 Hpaths st2. unfold st2.
  rewrite (worker_turn_run e fs j), Ht. cbn [branch].
  rewrite (split_branch_run _ _ ps) by done. cbn [fst snd].
  rewrite worker_turn_run, Ht2. cbn [branch].
  rewrite (merge_branch_run _ _ (split_parts ps).*2).
  - cbn [fst snd]. split; [done|].
    unfold output_pdf. cbn [fst snd]. simpl output_path.
    by rewrite lookup_insert_eq, split_parts_docs.
  - simpl. rewrite Hpaths, <- split_parts_names.
    apply Forall2_fmap, Forall_Forall2_diag, Forall_forall.
    intros [name doc] Hnd. simpl.
    rewrite lookup_insert_ne.
    + apply with_parts_lookup; [apply split_parts_NoDup|done].
    + intros <-. apply (split_parts_not_zip ps).
      apply list_elem_of_fmap. by exists (split_output_zip, doc).
Qed.

(** *** Splitting by ranges *)

Section RangeFacts.
Context `{Runtime} {page : Type}.
Implicit Types (fs : gmap str (file page)) (j : job) (e : env page).
Implicit Types (ps out reader writer : list page).
Implicit Types (ranges : list (Z * Z)).

Lemma check_ranges_ok (n : nat) ranges (st : gmap str (file page) * job) :
  Forall (page_range n) ranges → check_ranges n ranges st = (inr (), st).
Proof.
  induction 1 as [|[a b] ranges Hab _ IH]; [done|]. simpl.
  unfold page_range in Hab. simpl in Hab.
  rewrite bool_decide_eq_false_2 by lia. done.
Qed.

Lemma check_ranges_bad (n : nat) (good rest : list (Z * Z)) (a b : Z)
    (st : gmap str (file page) * job) :
  Forall (page_range n) good → ¬ page_range n (a, b) →
  check_ranges n (good ++ (a, b) :: rest) st = (inl (BadRange a b), st).
Proof.
  intros Hgood Hbad. induction Hgood as [|[a' b'] good Hab _ IH]; simpl.
  - unfold page_range in Hbad. simpl in Hbad.
    rewrite bool_decide_eq_true_2 by lia. done.
  - unfold page_range in Hab. simpl in Hab.
    rewrite bool_decide_eq_false_2 by lia. done.
Qed.

Lemma pages_numbered_between ps (a b : Z) out :
  page_range (length ps) (a, b) →
  pages_numbered ps (range a (b + 1)) out → out = pages_between ps a b.
Proof.
  unfold page_range, pages_numbered, range, pages_between. simpl.
  intros Hab Hout. pose proof (Forall2_length _ _ _ Hout) as Hlen.
  rewrite length_seqZ in Hlen. apply list_eq. intros i.
  rewrite lookup_slice.
  destruct (decide (i < Z.to_nat b - Z.to_nat (a - 1))) as [Hi|Hi].
  - destruct (lookup_lt_is_Some_2 out i) as [pg Hpg]; [lia|].
    assert (seqZ a (b + 1 - a) !! i = Some (a + Z.of_nat i)%Z) as Hq.
    { apply lookup_seqZ. split; [done|]. lia. }
    pose proof (Forall2_lookup_lr _ _ _ _ _ _ Hout Hq Hpg) as [_ Hps].
    rewrite Hpg, <- Hps. f_equal. lia.
  - apply lookup_ge_None_2. lia.
Qed.

Lemma range_pages_between (n : nat) (a b : Z) :
  page_range n (a, b) → Forall (page_number n) (range a (b + 1)).
Proof.
  unfold page_range. simpl. intros Hab.
  apply Forall_forall. intros q Hq%elem_of_seqZ. unfold page_number. lia.
Qed.

Lemma range_parts_snoc ps ranges (ab : Z * Z) :
  range_parts ps (ranges ++ [ab])
  = range_parts ps ranges
    ++ [(split_name (S (length ranges)), pages_between ps ab.1 ab.2)].
Proof.
  unfold range_parts. rewrite imap_app. simpl. by rewrite Nat.add_0_r.
Qed.

Lemma range_parts_names ps ranges :
  (range_parts ps ranges).*1 = split_name <$> seq 1 (length ranges).
Proof.
  unfold range_parts. rewrite fmap_imap.
  apply list_eq. intros i. rewrite list_lookup_imap, list_lookup_fmap.
  destruct (ranges !! i) as [ab|] eqn:Hi; simpl.
  - apply lookup_lt_Some in Hi. by rewrite lookup_seq_lt.
  - apply lookup_ge_None in Hi. by rewrite lookup_seq_ge.
Qed.

Lemma range_parts_NoDup ps ranges : NoDup (range_parts ps ranges).*1.
Proof.
  rewrite range_parts_names.
  apply NoDup_fmap_2; [apply split_name_inj|apply NoDup_seq].
Qed.

Lemma range_parts_not_zip ps ranges :
  split_output_zip ∉ (range_parts ps ranges).*1.
Proof.
  rewrite range_parts_names. intros (i & Hi & _)%list_elem_of_fmap.
  by apply eq_sym, split_name_not_zip in Hi.
Qed.

(** The loop of SPLIT_BY_RANGE. *)
Lemma range_loop ps (pre ranges : list (Z * Z)) (split_files : list str)
    fs j :
  Forall (page_range (length ps)) ranges →
  split_files = (range_parts ps pre).*1 →
  foldM (λ split_files iab,
           w ← add_pages ps [] (range iab.2.1 (iab.2.2 + 1));
           write_file (split_name iab.1) (Pdf w);;
           mret (split_files ++ [split_name iab.1]))
        split_files (enumerate_from (S (length pre)) ranges)
        (with_parts (range_parts ps pre) fs, j)
  = (inr (range_parts ps (pre ++ ranges)).*1,
     (with_parts (range_parts ps (pre ++ ranges)) fs, j)).
Proof.
  intros Hvalid. revert pre split_files.
  induction Hvalid as [|[a b] ranges Hab _ IH]; intros pre split_files ->.
  - by rewrite app_nil_r.
  - rewrite enumerate_from_cons. cbn [foldM]. rewrite bind_run.
    cbn [fst snd]. rewrite bind_run.
    destruct (add_pages_run ps [] (range a (b + 1))
                (with_parts (range_parts ps pre) fs, j)
                (range_pages_between _ _ _ Hab)) as (out & -> & Hout).
    apply pages_numbered_between in Hout; [|done]. subst out.
    rewrite !bind_run. unfold write_file at 1, mret at 1, W_ret, ret.
    cbn [fst snd app].
    rewrite <- with_parts_snoc.
    change (pages_between ps a b)
      with (pages_between ps (a, b).1 (a, b).2).
    rewrite <- range_parts_snoc.
    replace (S (length pre)) with (length (pre ++ [(a, b)]))
      by (rewrite length_app; simpl; lia).
    rewrite IH.
    + by rewrite <- app_assoc.
    + rewrite range_parts_snoc, fmap_app, length_app. simpl.
      by rewrite Nat.add_1_r.
Qed.

Lemma split_by_range_branch_run (p : params) fs j ps ranges :
  input_pdf (fs, j) = Some ps →
  p_ranges p = Some ranges →
  Forall (page_range (length ps)) ranges →
  split_by_range_branch p (fs, j)
  = (inr (),
     (<[split_output_zip := Zip (range_parts ps ranges)]>
        (with_parts (range_parts ps ranges) fs),
      set_output_path split_output_zip j)).
Proof.
  intros Hin Hr Hvalid. unfold split_by_range_branch.
  rewrite (read_input _ _ _ ps) by done. cbv zeta.
  rewrite (lift_Some _ _ ranges) by done.
  rewrite bind_run, check_ranges_ok by done. rewrite bind_run.
  pose proof (range_loop ps [] ranges [] fs j Hvalid eq_refl) as Hloop.
  simpl in Hloop. rewrite Hloop. rewrite bind_run.
  rewrite zip_files_run
    by (apply range_parts_NoDup || apply range_parts_not_zip).
  done.
Qed.

(** Ranges that follow one another are ranges of pages, and their pages
    put together are the pages from the first to the last. *)
Lemma consecutive_pages ps (lo hi : Z) ranges :
  consecutive lo ranges hi → (1 ≤ lo)%Z → (hi ≤ Z.of_nat (length ps))%Z →
  Forall (page_range (length ps)) ranges ∧
  (lo ≤ hi + 1)%Z ∧
  mjoin ((λ ab, pages_between ps ab.1 ab.2) <$> ranges)
  = pages_between ps lo hi.
Proof.
  revert lo. induction ranges as [|[a b] ranges IH]; intros lo Hc Hlo Hhi.
  - simpl in Hc. subst lo. split_and!; [done|lia|].
    simpl. unfold pages_between. rewrite slice_ge; [done|lia].
  - simpl in Hc. destruct Hc as (-> & Hab & Hc).
    destruct (IH (b + 1)%Z Hc) as (Hvalid & Hle & Hjoin); [lia|done|].
    split_and!.
    + constructor; [|done]. unfold page_range. simpl. lia.
    + lia.
    + rewrite fmap_cons. simpl. rewrite Hjoin. unfold pages_between.
      replace (Z.to_nat (b + 1 - 1)) with (Z.to_nat b) by lia.
      apply slice_app; lia.
Qed.

End RangeFacts.

(** X14.  SPLIT_BY_RANGE: when every range [a-b] has [1 <= a <= b <= n]
    for the [n] pages of the document, the job completes; part [i],
    [split_i.pdf], holds the pages [a] to [b] of the [i]-th range, that
    is [b - a + 1] pages; the archive [split_output.zip] lists the parts
    in the order of the ranges and becomes the output of the job; the
    download name ends in [_split_ranges.zip]. *)
Theorem split_by_range_job `{Runtime} {page} (e : env page)
    (fs : gmap str (file page)) (j : job) (ps : list page)
    (ranges : list (Z * Z)) :
  job_type j = SPLIT_BY_RANGE →
  param p_ranges j = Some ranges →
  input_pdf (fs, j) = Some ps →
  Forall (page_range (length ps)) ranges →
  let st' := worker_turn e (fs, j) in
  st' = (<[split_output_zip := Zip (range_parts ps ranges)]>
           (with_parts (range_parts ps ranges) fs),
         completed (set_output_path split_output_zip j)) ∧
  (∀ i a b, ranges !! i = Some (a, b) →
            st'.1 !! split_name (S i) = Some (Pdf (pages_between ps a b)) ∧
            Z.of_nat (length (pages_between ps a b)) = (b - a + 1)%Z) ∧
  ∃ base, output_filename st'.2 = Some (base ++ py "_split_ranges.zip").
Proof.
  intros Ht Hr Hin Hvalid st'.
  assert (st' = (<[split_output_zip := Zip (range_parts ps ranges)]>
                   (with_parts (range_parts ps ranges) fs),
                 completed (set_output_path split_output_zip j))) as Hst.
  { unfold st'. rewrite worker_turn_run, Ht. cbn [branch].
    by rewrite (split_by_range_branch_run _ _ _ ps ranges). }
  split; [done|]. rewrite Hst. cbn [fst snd]. split.
  - intros i a b Hi. split.
    + rewrite lookup_insert_ne by (apply not_eq_sym, split_name_not_zip).
      apply with_parts_lookup; [apply range_parts_NoDup|].
      apply list_elem_of_lookup. exists i. unfold range_parts.
      rewrite list_lookup_imap, Hi. done.
    + pose proof (proj1 (Forall_forall _ _) Hvalid (a, b)
                    (list_elem_of_lookup_2 _ _ _ Hi)) as Hab.
      unfold page_range in Hab. simpl in Hab.
      unfold pages_between. rewrite slice_length by lia. lia.
  - eexists. simpl. unfold make_output_filename. rewrite Ht.
    rewrite zip_name_ext by (rewrite <- Ht; set_solver). done.
Qed.

(** X15.  SPLIT_BY_RANGE checks every range before it writes the first
    part: at the first range [a-b] that is not a range of pages of the
    document the job fails with the message about that range, and the
    files are as before. *)
Theorem bad_range_fails `{Runtime} {page} (e : env page)
    (fs : gmap str (file page)) (j : job) (ps : list page)
    (good rest : list (Z * Z)) (a b : Z) :
  job_type j = SPLIT_BY_RANGE →
  param p_ranges j = Some (good ++ (a, b) :: rest) →
  input_pdf (fs, j) = Some ps →
  Forall (page_range (length ps)) good →
  ¬ page_range (length ps) (a, b) →
  worker_turn e (fs, j) = (fs, failed (BadRange a b) j).
Proof.
  intros Ht Hr Hin Hgood Hbad.
  rewrite worker_turn_run, Ht. cbn [branch]. unfold split_by_range_branch.
  rewrite (read_input _ _ _ ps) by done. cbv zeta.
  rewrite (lift_Some _ _ _ _ _ Hr).
  rewrite bind_run, check_ranges_bad by done. done.
Qed.

(** X16.  SPLIT_BY_RANGE undone by MERGE: when the ranges follow one
    another from page 1 to the last page without gap or overlap, a merge
    job whose inputs are the parts, in their order, completes with the
    document that was split. *)
Theorem ranges_then_merge `{Runtime} {page} (e : env page)
    (fs : gmap str (file page)) (j j2 : job) (ps : list page)
    (ranges : list (Z * Z)) :
  job_type j = SPLIT_BY_RANGE →
  param p_ranges j = Some ranges →
  input_pdf (fs, j) = Some ps →
  consecutive 1 ranges (Z.of_nat (length ps)) →
  job_type j2 = MERGE →
  input_paths j2 = split_name <$> seq 1 (length ranges) →
  let st2 := worker_turn e ((worker_turn e (fs, j)).1, j2) in
  status st2.2 = COMPLETED ∧ output_pdf st2 = Some ps.
Proof.
  intros Ht Hr Hin Hcons Ht2 Hpaths st2. unfold st2.
  destruct (consecutive_pages ps _ _ _ Hcons) as (Hvalid & _ & Hjoin);
    [lia..|].
  rewrite (worker_turn_run e fs j), Ht. cbn [branch].
  rewrite (split_by_range_branch_run _ _ _ ps ranges) by done.
  cbn [fst snd].
  rewrite worker_turn_run, Ht2. cbn [branch].
  rewrite (merge_branch_run _ _ (range_parts ps ranges).*2).
  - cbn [fst snd]. split; [done|].
    unfold output_pdf. cbn [fst snd]. simpl output_path.
    rewrite lookup_insert_eq. f_equal.
    assert ((range_parts ps ranges).*2
            = (λ ab, pages_between ps ab.1 ab.2) <$> ranges) as ->.
    { unfold range_parts. rewrite fmap_imap. apply list_eq. intros i.
      rewrite list_lookup_imap, list_lookup_fmap. by destruct (ranges !! i). }
    rewrite Hjoin. unfold pages_between. simpl.
    rewrite Nat2Z.id. apply slice_full.
  - simpl. rewrite Hpaths, <- (range_parts_names ps).
    apply Forall2_fmap, Forall_Forall2_diag, Forall_forall.
    intros [name doc] Hnd. simpl.
    rewrite lookup_insert_ne.
    + apply with_parts_lookup; [apply range_parts_NoDup|done].
    + intros <-. apply (range_parts_not_zip ps ranges).
      apply list_elem_of_fmap. by exists (split_output_zip, doc).
Qed.

(** *** What a turn leaves behind *)

Section OutcomeFacts.
Context `{Runtime} {page : Type}.
Implicit Types (fs : gmap str (file page)) (j : job) (e : env page).
Implicit Types (ps out reader writer : list page).

Lemma foldM_state {A B} (f : B → A → W B) (acc : B) (l : list A)
    (st : gmap str (file page) * job) :
  (∀ acc x, (f acc x st).2 = st) → (foldM f acc l st).2 = st.
Proof.
  intros Hf. revert acc. induction l as [|x l IH]; intros acc; [done|].
  cbn [foldM]. rewrite bind_run. pose proof (Hf acc x) as Hx.
  destruct (f acc x st) as [[y|acc'] st']; simpl in Hx; subst st'; [done|].
  apply IH.
Qed.

Lemma check_ranges_run (n : nat) (ranges : list (Z * Z))
    (st : gmap str (file page) * job) :
  (Forall (page_range n) ranges ∧ check_ranges n ranges st = (inr (), st)) ∨
  ∃ x, check_ranges n ranges st = (inl x, st).
Proof.
  induction ranges as [|[a b] ranges IH]; [by left|]. simpl.
  case_bool_decide as Hab; [right; by eexists|].
  destruct IH as [[Hv Hr]|[x Hx]]; [left|right; by eexists].
  split; [|done]. constructor; [|done]. unfold page_range. simpl. lia.
Qed.

(** A branch that is embedded either raises and leaves the files and the
    job as they were, or ends with a file at the output path of the
    job. *)
Lemma branch_outcome e (p : params) (t : JobType) fs j :
  t ∈ page_jobs →
  (∃ x, branch e p t (fs, j) = (inl x, (fs, j))) ∨
  (∃ fs' path, branch e p t (fs, j)
               = (inr (), (fs', set_output_path path j)) ∧
               is_Some (fs' !! path)).
Proof.
  assert (∀ fs' (c : file page),
            (inr (), (<[output_path j := c]> fs, j))
            = (inr () : exn + (), (fs', set_output_path (output_path j) j)) →
            True) as _ by done.
  assert (set_output_path (output_path j) j = j) as Hj by (by destruct j).
  assert (∀ (c : file page),
            ∃ fs' path,
              (inr (), (<[output_path j := c]> fs, j))
              = (inr () : exn + (), (fs', set_output_path path j)) ∧
              is_Some (fs' !! path)) as Hwrite.
  { intros c. exists (<[output_path j := c]> fs), (output_path j).
    rewrite Hj. split; [done|]. rewrite lookup_insert_eq. by eexists. }
  intros Ht. unfold page_jobs in Ht.
  repeat (apply elem_of_cons in Ht as [->|Ht]); [..|by apply elem_of_nil in Ht];
    cbn [branch].
  - (* MERGE *)
    unfold merge_branch. rewrite bind_run. cbn [get_job fst snd].
    rewrite bind_run.
    pose proof (foldM_state
      (λ writer path, pages ← PdfReader path; mret (writer ++ pages))
      [] (input_paths j) (fs, j)) as Hst.
    destruct (foldM _ _ _ _) as [[x|writer] st'].
    + left. exists x. f_equal. apply Hst. intros acc path.
      rewrite bind_run. unfold PdfReader. simpl.
      by destruct (fs !! path) as [[]|].
    + right. simpl in Hst. rewrite Hst; [apply Hwrite|].
      intros acc path. rewrite bind_run. unfold PdfReader. simpl.
      by destruct (fs !! path) as [[]|].
  - (* SPLIT *)
    destruct (input_pdf (fs, j)) as [ps|] eqn:Hin.
    + right. rewrite (split_branch_run _ _ ps) by done.
      eexists _, _. split; [done|]. rewrite lookup_insert_eq. by eexists.
    + left. unfold split_branch. by apply read_input_None.
  - (* ROTATE *)
    unfold rotate_branch.
    destruct (input_pdf (fs, j)) as [ps|] eqn:Hin;
      [|left; by apply read_input_None].
    rewrite (read_input _ _ _ ps) by done.
    destruct (p_pages p) as [req|] eqn:Hreq;
      [|left; eexists; by rewrite lift_None].
    rewrite (lift_Some _ _ req) by done. rewrite bind_run, check_pages_run.
    destruct (decide _); [|left; by eexists].
    destruct (p_angle p) as [angle|] eqn:Hangle;
      [|left; eexists; by rewrite lift_None].
    rewrite (lift_Some _ _ angle) by done. rewrite bind_run.
    match goal with
    | |- context [foldM ?f ?acc ?l ?st] =>
      pose proof (foldM_state f acc l st) as Hst;
      destruct (foldM f acc l st) as [[x|writer] st']
    end.
    + left. exists x. f_equal. apply Hst. intros acc ip. rewrite bind_run.
      destruct (decide _); [|done].
      by destruct (rotate e angle ip.2).
    + right. simpl in Hst. rewrite Hst; [apply Hwrite|].
      intros acc ip. rewrite bind_run.
      destruct (decide _); [|done].
      by destruct (rotate e angle ip.2).
  - (* DELETE *)
    unfold delete_branch.
    destruct (input_pdf (fs, j)) as [ps|] eqn:Hin;
      [|left; by apply read_input_None].
    rewrite (read_input _ _ _ ps) by done.
    destruct (p_pages p) as [req|] eqn:Hreq;
      [|left; eexists; by rewrite lift_None].
    rewrite (lift_Some _ _ req) by done. rewrite bind_run, check_pages_run.
    destruct (decide _); [|left; by eexists].
    right. apply Hwrite.
  - (* EXTRACT *)
    unfold extract_branch.
    destruct (input_pdf (fs, j)) as [ps|] eqn:Hin;
      [|left; by apply read_input_None].
    rewrite (read_input _ _ _ ps) by done.
    destruct (p_pages p) as [req|] eqn:Hreq;
      [|left; eexists; by rewrite lift_None].
    rewrite (lift_Some _ _ req) by done. rewrite bind_run, check_pages_run.
    destruct (decide _) as [Hv|]; [|left; by eexists].
    destruct (add_pages_run ps [] req (fs, j) Hv) as (out & Hrun & _).
    rewrite bind_run, Hrun. right. apply Hwrite.
  - (* REORDER *)
    destruct (input_pdf (fs, j)) as [ps|] eqn:Hin;
      [|left; unfold reorder_branch; by apply read_input_None].
    destruct (p_order p) as [order|] eqn:Horder.
    + destruct (reorder_branch_run p fs j ps order Hin Horder) as [Hok Hfail].
      destruct (decide (order ≡ₚ range 1 (Z.of_nat (length ps) + 1)))
        as [Hperm|Hperm].
      * destruct (Hok Hperm) as (out & -> & _). right. apply Hwrite.
      * destruct (Hfail Hperm) as (x & -> & _). left. by eexists.
    + left. unfold reorder_branch. rewrite (read_input _ _ _ ps) by done.
      eexists. by rewrite lift_None.
  - (* PDF_TO_TEXT *)
    unfold pdf_to_text_branch.
    destruct (input_pdf (fs, j)) as [ps|] eqn:Hin;
      [|left; by apply read_input_None].
    rewrite (read_input _ _ _ ps) by done. right. apply Hwrite.
  - (* SPLIT_BY_RANGE *)
    destruct (input_pdf (fs, j)) as [ps|] eqn:Hin;
      [|left; unfold split_by_range_branch; by apply read_input_None].
    destruct (p_ranges p) as [ranges|] eqn:Hr.
    + destruct (check_ranges_run (length ps) ranges (fs, j))
        as [[Hv _]|[x Hx]].
      * right. rewrite (split_by_range_branch_run _ _ _ ps ranges) by done.
        eexists _, _. split; [done|]. rewrite lookup_insert_eq. by eexists.
      * left. unfold split_by_range_branch.
        rewrite (read_input _ _ _ ps) by done. cbv zeta.
        rewrite (lift_Some _ _ ranges) by done. rewrite bind_run, Hx.
        by eexists.
    + left. unfold split_by_range_branch.
      rewrite (read_input _ _ _ ps) by done. cbv zeta.
      eexists. by rewrite lift_None.
Qed.

Lemma text_parts_pdfplumber_spec e (fmt : str) (pre ps : list page)
    (parts : list str) :
  length parts = length pre →
  foldl (λ parts page,
           if bool_decide (fmt = py "markdown")
           then parts ++ [markdown_part (length parts + 1)
                            (default [] (plumber_text e page))]
           else parts ++ [default [] (plumber_text e page)])
        parts ps
  = parts ++ imap (λ k pg, text_part fmt (length pre + k)
                                     (plumber_text e pg)) ps.
Proof.
  revert pre parts. induction ps as [|pg ps IH]; intros pre parts Hlen.
  - simpl. by rewrite app_nil_r.
  - cbn [foldl]. rewrite (IH (pre ++ [pg])).
    + rewrite imap_cons. unfold text_part at 2.
      rewrite Hlen, Nat.add_0_r, Nat.add_1_r.
      assert (imap (λ k pg0, text_part fmt (length (pre ++ [pg]) + k)
                                       (plumber_text e pg0)) ps
              = imap ((λ k pg0, text_part fmt (length pre + k)
                                          (plumber_text e pg0)) ∘ S) ps)
        as ->.
      { apply imap_ext. intros k pg' _. simpl. f_equal.
        rewrite length_app. simpl. lia. }
      case_bool_decide; by rewrite <- app_assoc.
    + case_bool_decide; rewrite !length_app; simpl; lia.
Qed.

Lemma text_parts_pypdf_spec e (fmt : str) (start : nat) (ps : list page)
    (parts : list str) :
  foldl (λ parts ip,
           if bool_decide (fmt = py "markdown")
           then parts ++ [markdown_part (ip.1 + 1)
                            (default [] (pypdf_text e ip.2))]
           else parts ++ [default [] (pypdf_text e ip.2)])
        parts (enumerate_from start ps)
  = parts ++ imap (λ k pg, text_part fmt (start + k) (pypdf_text e pg)) ps.
Proof.
  revert start parts. induction ps as [|pg ps IH]; intros start parts.
  - simpl. by rewrite app_nil_r.
  - rewrite enumerate_from_cons. cbn [foldl fst snd]. rewrite IH, imap_cons.
    unfold text_part at 2. rewrite Nat.add_0_r, Nat.add_1_r.
    assert (imap (λ k pg0, text_part fmt (S start + k) (pypdf_text e pg0)) ps
            = imap ((λ k pg0, text_part fmt (start + k)
                                        (pypdf_text e pg0)) ∘ S) ps) as ->.
    { apply imap_ext. intros k pg' _. simpl. f_equal. lia. }
    case_bool_decide; by rewrite <- app_assoc.
Qed.

End OutcomeFacts.

(** X17.  A job of MERGE, SPLIT, ROTATE, DELETE, EXTRACT, REORDER,
    PDF_TO_TEXT or SPLIT_BY_RANGE is completed or failed after its turn.
    Completed, it has a download name and there is a file at its output
    path, so that a download finds its file. *)
Theorem completed_job_has_output `{Runtime} {page} (e : env page)
    (fs : gmap str (file page)) (j : job) :
  job_type j ∈ page_jobs →
  let st' := worker_turn e (fs, j) in
  (status st'.2 = COMPLETED ∨ status st'.2 = FAILED) ∧
  (status st'.2 = COMPLETED →
   is_Some (st'.1 !! output_path st'.2) ∧
   is_Some (output_filename st'.2) ∧
   error st'.2 = error j).
Proof.
  intros Ht st'. unfold st'. rewrite worker_turn_run.
  destruct (branch_outcome e (default no_params (job_params j)) (job_type j)
              fs (set_status PROCESSING j) Ht)
    as [[x ->]|(fs' & path & -> & Hfile)]; cbn [fst snd].
  - split; [by right|done].
  - split; [by left|]. intros _. split_and!; [done|by eexists|done].
Qed.


(** X19.  PDF_TO_TEXT: the output is the texts of the pages in their
    order, joined by an empty line; a page without text gives an empty
    text; in the markdown format the text of page [k] is headed by
    [## Page k], counted from 1, in the same way with pdfplumber and,
    when it cannot be imported, with pypdf: the two paths differ only in
    the library that extracts the text. *)
Theorem pdf_to_text_job `{Runtime} {page} (e : env page)
    (fs : gmap str (file page)) (j : job) (ps : list page) :
  job_type j = PDF_TO_TEXT →
  input_pdf (fs, j) = Some ps →
  let fmt := default (py "text") (param p_format j) in
  let text := if has_pdfplumber e then plumber_text e else pypdf_text e in
  worker_turn e (fs, j)
  = (<[output_path j :=
         Text (join [LF; LF] (imap (λ k pg, text_part fmt k (text pg)) ps))]>
       fs,
     completed j).
Proof.
  intros Ht Hin fmt text. rewrite worker_turn_run, Ht. cbn [branch].
  unfold pdf_to_text_branch. rewrite (read_input _ _ _ ps) by done.
  unfold text, text_parts_pdfplumber, text_parts_pypdf. cbv zeta.
  destruct (has_pdfplumber e).
  - rewrite (text_parts_pdfplumber_spec e _ [] ps []) by done. done.
  - rewrite text_parts_pypdf_spec. done.
Qed.

(** X20.  A job of one of the types the edit routes create
    (EDIT_PDF_EXTRACT, EDIT_PDF_REPLACE, EDIT_PDF_PREPARE) reaches the
    final [else] of [worker_loop]: it is never completed; it fails as an
    unsupported job type and nothing is written. *)
Theorem edit_jobs_unsupported `{Runtime} {page} (e : env page)
    (fs : gmap str (file page)) (j : job) :
  job_type j ∈ edit_jobs →
  worker_turn e (fs, j) = (fs, failed Unsupported j) ∧
  status (worker_turn e (fs, j)).2 ≠ COMPLETED.
Proof.
  intros Ht. unfold edit_jobs in Ht. rewrite worker_turn_run.
  repeat (apply elem_of_cons in Ht as [->|Ht]);
    [..|by apply elem_of_nil in Ht]; done.
Qed.

(** *** The annotated documents *)

Section RenderFacts.
Context {coord page : Type}.
Implicit Types (l : Render.lib coord page) (reader writer : list page).
Implicit Types (hls : list (highlights coord)).

Lemma merge_highlight_loop l hls (start : nat) reader writer :
  foldl (λ writer ip,
           match hls !! ip.1 with
           | None => writer ++ [ip.2]
           | Some hl =>
             match red hl, green hl with
             | [], [] => writer ++ [ip.2]
             | _, _ =>
               writer ++ [Render.merge_page l ip.2
                 ((Render.draw l (Render.height l ip.2) Render.FillRed
                     <$> red hl) ++
                  (Render.draw l (Render.height l ip.2) Render.FillGreen
                     <$> green hl))]
             end
           end)
        writer (enumerate_from start reader)
  = writer ++ imap (λ i pg, match hls !! (start + i) with
                            | None => pg
                            | Some hl => Render.overlaid l pg (red hl) (green hl)
                            end) reader.
Proof.
  revert start writer. induction reader as [|pg reader IH];
    intros start writer.
  - simpl. by rewrite app_nil_r.
  - rewrite enumerate_from_cons. cbn [foldl fst snd].
    rewrite IH, imap_cons, Nat.add_0_r.
    assert (imap (λ i pg0, match hls !! (S start + i) with
                           | None => pg0
                           | Some hl =>
                             Render.overlaid l pg0 (red hl) (green hl)
                           end) reader
            = imap ((λ i pg0, match hls !! (start + i) with
                              | None => pg0
                              | Some hl =>
                                Render.overlaid l pg0 (red hl) (green hl)
                              end) ∘ S) reader) as ->.
    { apply imap_ext. intros i pg' _. simpl.
      by replace (start + S i) with (S (start + i)) by lia. }
    unfold Render.overlaid at 2.
    destruct (hls !! start) as [hl|]; [|by rewrite <- app_assoc].
    destruct (red hl), (green hl); by rewrite <- app_assoc.
Qed.

Lemma merge_highlight_lookup l hls reader (i : nat) :
  Render.merge_highlight_into_pdf l reader hls !! i
  = (λ pg, match hls !! i with
           | None => pg
           | Some hl => Render.overlaid l pg (red hl) (green hl)
           end) <$> reader !! i.
Proof.
  unfold Render.merge_highlight_into_pdf. cbv zeta.
  change (enumerate reader) with (enumerate_from 0 reader).
  rewrite merge_highlight_loop. simpl. by rewrite list_lookup_imap.
Qed.

End RenderFacts.


(** X22.  A document compared with itself is handed back untouched: with
    the same words on both sides, both annotated documents are the pages
    of their inputs, none of them merged with an overlay. *)
Theorem identical_documents_unmarked {coord page}
    (l : Render.lib coord page) (n : nat)
    (pages : list (list (word coord))) (reader : list page) :
  Render.merge_highlight_into_pdf l reader (word_diff n pages pages).1
  = reader ∧
  Render.merge_highlight_into_pdf l reader (word_diff n pages pages).2
  = reader.
Proof.
  rewrite word_diff_same. cbn [fst snd].
  assert (Render.merge_highlight_into_pdf l reader
            (replicate n (Highlights [] [])) = reader) as Heq; [|done].
  apply list_eq. intros i. rewrite merge_highlight_lookup.
  destruct (reader !! i) as [pg|]; [|done]. simpl.
  destruct (replicate n (Highlights [] []) !! i) as [hl|] eqn:Hhl; [|done].
  apply lookup_replicate in Hhl as [-> _]. done.
Qed.

(** *** The changes, page by page *)

Lemma spec_emit_page page ty ls :
  Forall (λ c, c_page c = page) (spec_emit page ty ls).
Proof.
  unfold spec_emit. case_decide; [constructor|]. by repeat constructor.
Qed.

Lemma spec_page_changes_page texts1 texts2 (p : nat) :
  Forall (λ c, c_page c = p + 1) (spec_page_changes texts1 texts2 p).
Proof.
  unfold spec_page_changes. apply Forall_bind, Forall_forall. intros op _.
  unfold spec_opcode_changes. destruct op as [tg i1 i2 j1 j2].
  destruct tg; simpl; rewrite ?Forall_app;
    repeat split; try apply spec_emit_page; constructor.
Qed.

Lemma bind_one {A B} (f : A → list B) (x : A) : [x] ≫= f = f x.
Proof. rewrite bind_cons. apply app_nil_r. Qed.

Lemma filter_all {A} (P : A → Prop) `{∀ x, Decision (P x)} (l : list A) :
  Forall P l → filter P l = l.
Proof.
  induction 1 as [|x l Hx _ IH]; [done|].
  by rewrite filter_cons, decide_True, IH.
Qed.

(** The changes of the pages [a], [a + 1], ..., page by page. *)
Lemma page_changes_seq texts1 texts2 (a m : nat) :
  let changes := seq a m ≫= spec_page_changes texts1 texts2 in
  Forall (λ c, a + 1 ≤ c_page c ≤ a + m) changes ∧
  StronglySorted (λ c c', c_page c ≤ c_page c') changes ∧
  ∀ p, filter (λ c, c_page c = p + 1) changes
       = if decide (a ≤ p < a + m) then spec_page_changes texts1 texts2 p
         else [].
Proof.
  revert a. induction m as [|m IH]; intros a; simpl.
  { split_and!; [constructor|constructor|].
    intros p. by rewrite decide_False by lia. }
  destruct (IH (S a)) as (Hpages & Hsorted & Hfilter).
  pose proof (spec_page_changes_page texts1 texts2 a) as Ha.
  split_and!.
  - apply Forall_app. split.
    + eapply Forall_impl; [exact Ha|]. intros c Hc. simpl in Hc. lia.
    + eapply Forall_impl; [exact Hpages|]. intros c Hc. simpl in Hc. lia.
  - apply StronglySorted_app_2; [| |done].
    + intros c c' Hc Hc'.
      apply (proj1 (Forall_forall _ _) Ha) in Hc.
      apply (proj1 (Forall_forall _ _) Hpages) in Hc'. simpl in *. lia.
    + clear -Ha. induction Ha as [|c l Hc Hl IH]; constructor; [done|].
      eapply Forall_impl; [exact Hl|]. intros c' Hc'. simpl in *. lia.
  - intros p. rewrite filter_app, Hfilter.
    destruct (decide (p = a)) as [->|Hpa].
    + rewrite filter_all by done.
      rewrite decide_False, decide_True by lia. by rewrite app_nil_r.
    + rewrite filter_Forall_not.
      * rewrite app_nil_l. destruct (decide (S a ≤ p < S a + m)).
        -- by rewrite decide_True by lia.
        -- by rewrite decide_False by lia.
      * eapply Forall_impl; [exact Ha|]. intros c Hc. simpl in *. lia.
Qed.

(** X23.  The changes of the line pass come page by page: every change
    carries a page number between 1 and the number of pages of the longer
    document, the page numbers never decrease along the list, and the
    changes of page [p + 1] are, in their order, those of the opcodes of
    that page. *)
Theorem changes_page_by_page (texts1 texts2 : list str) :
  let changes := line_diff texts1 texts2 in
  Forall (λ c, 1 ≤ c_page c ≤ max_pages texts1 texts2) changes ∧
  StronglySorted (λ c c', c_page c ≤ c_page c') changes ∧
  ∀ p, filter (λ c, c_page c = p + 1) changes
       = if decide (p < max_pages texts1 texts2)
         then spec_page_changes texts1 texts2 p else [].
Proof.
  simpl. rewrite line_diff_concat. unfold spec_line_diff, max_pages.
  destruct (page_changes_seq texts1 texts2 0
              (length texts1 `max` length texts2)) as (H1 & H2 & H3).
  split_and!; [done|done|]. intros p. rewrite H3.
  destruct (decide (p < length texts1 `max` length texts2)).
  - by rewrite decide_True by lia.
  - by rewrite decide_False by lia.
Qed.

(** X24.  A page that only one of the documents has is reported whole:
    when the first document has no page [p + 1] and the second has one
    with the text [t], the changes of that page are the one [Add] change
    with the lines of [t] joined by line feeds (none when that text is
    blank); with the documents exchanged it is the one [Remove]
    change. *)
Theorem page_on_one_side (texts1 texts2 : list str) (p : nat) (t : str) :
  length texts1 ≤ p →
  texts2 !! p = Some t →
  let whole := join NL (splitlines t) in
  filter (λ c, c_page c = p + 1) (line_diff texts1 texts2)
  = (if decide (strip whole = []) then [] else [Change (p + 1) Add whole]) ∧
  filter (λ c, c_page c = p + 1) (line_diff texts2 texts1)
  = (if decide (strip whole = []) then []
     else [Change (p + 1) Remove whole]).
Proof.
  intros Hp Ht whole. subst whole.
  pose proof (lookup_lt_Some _ _ _ Ht) as Hlt.
  assert (spec_lines texts1 p = []) as Hl1.
  { unfold spec_lines. by rewrite lookup_ge_None_2. }
  assert (spec_lines texts2 p = splitlines t) as Hl2.
  { unfold spec_lines. by rewrite Ht. }
  rewrite !line_diff_concat. unfold spec_line_diff.
  destruct (page_changes_seq texts1 texts2 0
              (length texts1 `max` length texts2)) as (_ & _ & ->).
  destruct (page_changes_seq texts2 texts1 0
              (length texts2 `max` length texts1)) as (_ & _ & ->).
  rewrite (decide_True (P := 0 ≤ p < 0 + length texts1 `max` length texts2))
    by lia.
  rewrite (decide_True (P := 0 ≤ p < 0 + length texts2 `max` length texts1))
    by lia.
  unfold spec_page_changes.
  rewrite Hl1, Hl2.
  destruct (splitlines t) as [|ln lns] eqn:Hsl.
  - rewrite get_opcodes_both_empty. rewrite !decide_True by reflexivity.
    done.
  - rewrite get_opcodes_left_empty, get_opcodes_right_empty by done.
    rewrite !bind_one.
    unfold spec_opcode_changes. cbn [op_tag op_i1 op_i2 op_j1 op_j2].
    rewrite !slice_full. done.
Qed.

(** *** A turn of the worker, then the download *)

(** X25.  The download after the turn of a job of MERGE, SPLIT, ROTATE,
    DELETE, EXTRACT, REORDER, PDF_TO_TEXT or SPLIT_BY_RANGE, with the job
    in the store under its id: when the route serves a file, the job is
    completed, the file served is the one at the output path of the job,
    it is there, and it goes out under the download name of the job; a
    failed job is answered with status 400; the only other answer is the
    uncaught error of [quote] on a completed job whose download name
    holds a code point UTF-8 cannot encode. *)
Theorem download_after_turn `{Runtime} {page} (e : env page)
    (fs : gmap str (file page)) (j : job) (JOB_STORE : store) :
  job_type j ∈ page_jobs →
  validate_job_id (job_id j) = true →
  let st' := worker_turn e (fs, j) in
  match download (<[job_id j := st'.2]> JOB_STORE) (job_id j) with
  | Served r =>
    status st'.2 = COMPLETED ∧
    fr_path r = output_path st'.2 ∧
    is_Some (st'.1 !! fr_path r) ∧
    output_filename st'.2 = Some (fr_filename r) ∧
    fr_media_type r = media_type_get (download_ext (fr_filename r))
  | HttpError code =>
    (code = 400 ∧ status st'.2 = FAILED) ∨
    (code = 500 ∧ status st'.2 = COMPLETED ∧
     ∃ name c, output_filename st'.2 = Some name ∧ c ∈ name ∧
               utf8 c = None)
  end.
Proof.
  intros Ht Hid st'. unfold download, get_completed_job_response.
  rewrite Hid. cbn [negb]. rewrite lookup_insert_eq.
  assert (status st'.2 = FAILED ∨
          status st'.2 = COMPLETED ∧
          is_Some (st'.1 !! output_path st'.2) ∧
          ∃ base suffix ext,
            output_filename st'.2 = Some (base ++ suffix ++ ext) ∧
            ext ≠ []) as Hst.
  { unfold st'. rewrite worker_turn_run.
    destruct (branch_outcome e (default no_params (job_params j))
                (job_type j) fs (set_status PROCESSING j) Ht)
      as [[x ->]|(fs' & path & -> & Hfile)]; cbn [fst snd]; [by left|].
    right. split_and!; [done|done|]. simpl.
    unfold make_output_filename. eexists _, _, _. split; [done|].
    unfold output_ext.
    destruct (lower (splitext path).2) as [|c ext]; simpl;
      [|done]. by case_bool_decide. }
  destruct Hst as [Hfail|(Hok & Hfile & base & suffix & ext & Hname & Hext)].
  - rewrite Hfail. rewrite decide_False by done. left. done.
  - rewrite Hok. rewrite decide_True by done. rewrite Hname.
    assert (base ++ suffix ++ ext ≠ []) as Hne.
    { intros [_ [_ ?]%app_eq_nil]%app_eq_nil. done. }
    destruct (base ++ suffix ++ ext) as [|c name] eqn:Hn; [done|].
    pose proof (content_disposition_None (py "attachment") (c :: name))
      as Hq.
    destruct (content_disposition (py "attachment") (c :: name)) as [v|].
    + split_and!; done.
    + right. split_and!; [done..|].
      destruct Hq as (c' & ? & ?); [done|]. by exists (c :: name), c'.
Qed.

(** *** What the routes let through, and merging *)

Lemma validate_page_numbers_spec (req : list Z) :
  validate_page_numbers req = true ↔
  req ≠ [] ∧ Forall (λ q, 1 ≤ q ≤ MAX_PAGE_NUMBER)%Z req.
Proof.
  unfold validate_page_numbers.
  destruct req as [|q0 req0]; [split; [done|by intros [? _]]|].
  set (req := q0 :: req0).
  destruct (filter _ req) as [|b l] eqn:Hf.
  - split; [intros _|done]. split; [done|].
    apply Forall_forall. intros x Hx.
    destruct (decide (1 ≤ x ≤ MAX_PAGE_NUMBER)%Z) as [|Hn]; [done|].
    assert (x ∈ filter (λ p, ¬ (1 ≤ p ∧ p ≤ MAX_PAGE_NUMBER))%Z req) as Hin.
    { apply list_elem_of_filter. split; [lia|done]. }
    rewrite Hf in Hin. by apply elem_of_nil in Hin.
  - split; [done|]. intros [_ Hall].
    assert (b ∈ filter (λ p, ¬ (1 ≤ p ∧ p ≤ MAX_PAGE_NUMBER))%Z req) as Hin.
    { rewrite Hf. left. }
    apply list_elem_of_filter in Hin as [Hb Hin].
    rewrite Forall_forall in Hall. apply Hall in Hin. lia.
Qed.

Section RouteFacts.
Context `{Runtime} {page : Type}.
Implicit Types (fs : gmap str (file page)) (j : job) (e : env page).
Implicit Types (ps out reader writer : list page) (req : list Z).

(** The turn of a DELETE or EXTRACT job, in both cases of the check. *)
Lemma pages_turn e fs j ps req :
  job_type j = DELETE ∨ job_type j = EXTRACT →
  param p_pages j = Some req →
  input_pdf (fs, j) = Some ps →
  if decide (Forall (page_number (length ps)) req)
  then ∃ out, worker_turn e (fs, j)
              = (<[output_path j := Pdf out]> fs, completed j) ∧
              (job_type j = EXTRACT → length out = length req)
  else worker_turn e (fs, j) = (fs, failed BadPages j).
Proof.
  intros Ht Hreq Hin. rewrite worker_turn_run.
  destruct Ht as [Ht|Ht]; rewrite Ht; cbn [branch].
  - unfold delete_branch. rewrite (read_input _ _ _ ps) by done.
    rewrite (lift_Some _ _ req) by done. rewrite bind_run, check_pages_run.
    case_decide as Hvalid.
    + rewrite decide_True by (by apply Forall_elements_list_to_set).
      eexists. split; done.
    + rewrite decide_False by (by rewrite Forall_elements_list_to_set).
      done.
  - unfold extract_branch. rewrite (read_input _ _ _ ps) by done.
    rewrite (lift_Some _ _ req) by done. rewrite bind_run, check_pages_run.
    case_decide as Hvalid; [|done].
    destruct (add_pages_run ps [] req (fs, set_status PROCESSING j) Hvalid)
      as (out & Hrun & Hout).
    exists out. rewrite bind_run, Hrun. split; [done|].
    intros _. symmetry. by apply Forall2_length in Hout.
Qed.

Lemma PdfReader_run fs j (path : str) :
  PdfReader path (fs, j)
  = match pdf_at fs path with
    | Some pages => (inr pages, (fs, j))
    | None => (inl LibraryError, (fs, j))
    end.
Proof.
  unfold PdfReader, pdf_at. cbn [fst snd].
  by destruct (fs !! path) as [[]|].
Qed.

(** The loop of MERGE over the input paths. *)
Lemma merge_loop fs j (paths : list str) writer :
  foldM (λ writer path, pages ← PdfReader path; mret (writer ++ pages))
        writer paths (fs, j)
  = match mapM (pdf_at fs) paths with
    | Some docs => (inr (writer ++ mjoin docs), (fs, j))
    | None => (inl LibraryError, (fs, j))
    end.
Proof.
  revert writer. induction paths as [|path paths IH]; intros writer.
  - simpl. by rewrite app_nil_r.
  - cbn [foldM mapM]. rewrite !bind_run, PdfReader_run.
    destruct (pdf_at fs path) as [doc|]; [|done].
    cbn. rewrite IH. destruct (mapM (pdf_at fs) paths) as [docs|]; cbn.
    + by rewrite <- app_assoc.
    + done.
Qed.

End RouteFacts.

(** X26.  What the routes let through: a page list that has passed
    [validate_page_numbers], as [POST /delete] and [POST /extract]
    require before they make the job, is not empty and holds numbers from
    1 to 50000 only.  The DELETE or EXTRACT job made from it completes
    exactly when no number is above the number of pages of the document,
    and else fails with the message about page numbers, nothing written.
    A completed EXTRACT job of such a list never has an empty
    document. *)
Theorem validated_pages `{Runtime} {page} (e : env page)
    (fs : gmap str (file page)) (j : job) (ps : list page) (req : list Z) :
  job_type j = DELETE ∨ job_type j = EXTRACT →
  param p_pages j = Some req →
  input_pdf (fs, j) = Some ps →
  validate_page_numbers req = true →
  let st' := worker_turn e (fs, j) in
  Forall (λ q, 1 ≤ q ≤ MAX_PAGE_NUMBER)%Z req ∧
  (status st'.2 = COMPLETED ↔
   Forall (λ q, q ≤ Z.of_nat (length ps))%Z req) ∧
  (status st'.2 ≠ COMPLETED → st' = (fs, failed BadPages j)) ∧
  (job_type j = EXTRACT → status st'.2 = COMPLETED →
   ∃ pg out, output_pdf st' = Some (pg :: out)).
Proof.
  intros Ht Hreq Hin Hval st'.
  apply validate_page_numbers_spec in Hval as [Hne Hall].
  split; [done|].
  pose proof (pages_turn e fs j ps req Ht Hreq Hin) as Hturn.
  fold st' in Hturn.
  assert (Forall (page_number (length ps)) req ↔
          Forall (λ q, q ≤ Z.of_nat (length ps))%Z req) as Hiff.
  { rewrite !Forall_forall. unfold page_number.
    rewrite Forall_forall in Hall.
    split; intros Hq q Hin'; specialize (Hq q Hin');
      specialize (Hall q Hin'); lia. }
  case_decide as Hvalid.
  - destruct Hturn as (out & -> & Hlen). split_and!.
    + split; [intros _; by apply Hiff|done].
    + done.
    + intros Hte _. cbn [fst snd]. unfold output_pdf. cbn [fst snd].
      change (output_path (completed j)) with (output_path j).
      rewrite lookup_insert_eq. specialize (Hlen Hte).
      destruct out as [|pg out]; [|by eauto].
      destruct req; [done|discriminate].
  - rewrite Hturn. split_and!.
    + split; [done|]. intros Hle. by apply Hiff in Hle.
    + done.
    + done.
Qed.

(** X27.  MERGE: when every input path holds a document, the job
    completes and the output is the pages of the inputs, document after
    document in the order of [input_paths] (an empty document when there
    is no input); when one of them does not, the job fails and nothing is
    written, also when the documents before it could be read. *)
Theorem merge_job `{Runtime} {page} (e : env page)
    (fs : gmap str (file page)) (j : job) :
  job_type j = MERGE →
  let st' := worker_turn e (fs, j) in
  match mapM (pdf_at fs) (input_paths j) with
  | Some docs =>
    st' = (<[output_path j := Pdf (mjoin docs)]> fs, completed j) ∧
    output_pdf st' = Some (mjoin docs) ∧
    length docs = length (input_paths j)
  | None => st' = (fs, failed LibraryError j)
  end.
Proof.
  intros Ht st'. unfold st'. rewrite worker_turn_run, Ht. cbn [branch].
  unfold merge_branch. rewrite bind_run. cbn.
  rewrite bind_run.
  change (input_paths (set_status PROCESSING j)) with (input_paths j).
  rewrite merge_loop.
  destruct (mapM (pdf_at fs) (input_paths j)) as [docs|] eqn:Hdocs.
  - split_and!; [done| |].
    + unfold output_pdf. cbn. by rewrite lookup_insert_eq.
    + symmetry. by apply length_mapM in Hdocs.
  - done.
Qed.

(* ===================================================================== *)
(** ** The theorems at work on a document of four pages *)
(* ===================================================================== *)

Import Examples.

#[local] Existing Instance posix_ascii.

(** X2 on a compare job: its archive goes out as [application/zip]
    whatever dots the uploaded names hold. *)
Lemma download_ext_of_output_name_witness :
  download_ext
    (make_output_filename COMPARE_PDF
       (Some [Some (py "a.v2.pdf"); Some (py "b.pdf")])
       (py "compare_result.zip"))
  = output_ext COMPARE_PDF (py "compare_result.zip") ∧
  media_type_get
    (download_ext
       (make_output_filename COMPARE_PDF
          (Some [Some (py "a.v2.pdf"); Some (py "b.pdf")])
          (py "compare_result.zip")))
  = media_type_get (output_ext COMPARE_PDF (py "compare_result.zip")).
Proof.
  apply (download_ext_of_output_name COMPARE_PDF
           (Some [Some (py "a.v2.pdf"); Some (py "b.pdf")])
           (py "compare_result.zip")).
  apply (bool_decide_unpack _). vm_compute. exact I.
Defined.

(** X5 on the pages 2 and 4, page 2 listed twice. *)
Lemma rotate_job_witness :
  ∃ out,
    worker_turn libs
      (dir, job_of ROTATE "rotated.pdf" (with_angle [2; 4; 2]%Z 90%Z))
    = (<[py "rotated.pdf" := Pdf out]> dir,
       completed (job_of ROTATE "rotated.pdf" (with_angle [2; 4; 2]%Z 90%Z)))
    ∧ length out = length doc ∧
    ∀ i pg, doc !! i = Some pg →
            out !! i = if decide (Z.of_nat (S i) ∈ [2; 4; 2]%Z)
                       then rotate libs 90%Z pg else Some pg.
Proof.
  apply (rotate_job libs dir
           (job_of ROTATE "rotated.pdf" (with_angle [2; 4; 2]%Z 90%Z))
           doc [2; 4; 2]%Z 90%Z); try reflexivity.
  - apply (bool_decide_unpack _); vm_compute; exact I.
  - intros i pg _ _. by eexists.
Defined.

(** X6 on the pages 2 and 4. *)
Lemma delete_job_witness :
  worker_turn libs (dir, job_of DELETE "deleted.pdf" (with_pages [2; 4; 2]%Z))
  = (<[py "deleted.pdf" := Pdf [10; 30]]> dir,
     completed (job_of DELETE "deleted.pdf" (with_pages [2; 4; 2]%Z))).
Proof.
  apply (delete_job libs dir
           (job_of DELETE "deleted.pdf" (with_pages [2; 4; 2]%Z))
           doc [2; 4; 2]%Z); try reflexivity.
  apply (bool_decide_unpack _); vm_compute; exact I.
Defined.

(** X7 on the pages 3, 3 and 1. *)
Lemma extract_job_witness :
  ∃ out,
    worker_turn libs
      (dir, job_of EXTRACT "extracted.pdf" (with_pages [3; 3; 1]%Z))
    = (<[py "extracted.pdf" := Pdf out]> dir,
       completed (job_of EXTRACT "extracted.pdf" (with_pages [3; 3; 1]%Z)))
    ∧ pages_numbered doc [3; 3; 1]%Z out ∧ length out = 3.
Proof.
  apply (extract_job libs dir
           (job_of EXTRACT "extracted.pdf" (with_pages [3; 3; 1]%Z))
           doc [3; 3; 1]%Z); try reflexivity.
  apply (bool_decide_unpack _); vm_compute; exact I.
Defined.

(** X8 on page 5 of four. *)
Lemma page_out_of_range_witness :
  worker_turn libs (dir, job_of DELETE "deleted.pdf" (with_pages [2; 5]%Z))
  = (dir, failed BadPages (job_of DELETE "deleted.pdf" (with_pages [2; 5]%Z))).
Proof.
  apply (page_out_of_range libs dir
           (job_of DELETE "deleted.pdf" (with_pages [2; 5]%Z))
           doc [2; 5]%Z); try reflexivity.
  apply (bool_decide_unpack _); vm_compute; exact I.
Defined.

(** X9 on the order 2, 3, 4, 1. *)
Lemma reorder_job_witness :
  status (worker_turn libs
            (dir, job_of REORDER "reordered.pdf"
                    (with_order [2; 3; 4; 1]%Z))).2 = COMPLETED
  ↔ [2; 3; 4; 1]%Z ≡ₚ range 1 (Z.of_nat (length doc) + 1).
Proof.
  apply (reorder_job libs dir
           (job_of REORDER "reordered.pdf" (with_order [2; 3; 4; 1]%Z))
           doc [2; 3; 4; 1]%Z); reflexivity.
Defined.

(** X10 on the order 2, 3, 4, 1 and its inverse 4, 1, 2, 3. *)
Lemma reorder_inverse_witness :
  status (worker_turn libs
            ({[ py "input.pdf" := Pdf [20; 30; 40; 10] ]},
             job_of REORDER "reordered.pdf"
               (with_order [4; 1; 2; 3]%Z))).2 = COMPLETED ∧
  output_pdf (worker_turn libs
                ({[ py "input.pdf" := Pdf [20; 30; 40; 10] ]},
                 job_of REORDER "reordered.pdf"
                   (with_order [4; 1; 2; 3]%Z)))
  = Some doc.
Proof.
  apply (reorder_inverse libs dir {[ py "input.pdf" := Pdf [20; 30; 40; 10] ]}
           (job_of REORDER "reordered.pdf" (with_order [2; 3; 4; 1]%Z))
           (job_of REORDER "reordered.pdf" (with_order [4; 1; 2; 3]%Z))
           doc [2; 3; 4; 1]%Z [4; 1; 2; 3]%Z); try reflexivity.
  - apply order_check. split; [reflexivity|].
    apply (bool_decide_unpack _); vm_compute; exact I.
  - intros k q Hk.
    do 4 (destruct k as [|k]; [injection Hk as <-; split; [lia|reflexivity]|]).
    done.
Defined.

(** X11 on the pages 2 and 4: to delete them is to extract 1 and 3. *)
Lemma delete_is_extract_witness :
  (worker_turn libs (dir, job_of DELETE "out.pdf" (with_pages [2; 4]%Z))).1
  = (worker_turn libs (dir, job_of EXTRACT "out.pdf" (with_pages [1; 3]%Z))).1
  ∧ output_pdf (worker_turn libs
                  (dir, job_of EXTRACT "out.pdf" (with_pages [1; 3]%Z)))
    = Some (kept_pages doc [2; 4]%Z).
Proof.
  apply (delete_is_extract libs dir
           (job_of DELETE "out.pdf" (with_pages [2; 4]%Z))
           (job_of EXTRACT "out.pdf" (with_pages [1; 3]%Z))
           doc [2; 4]%Z); try reflexivity.
  apply (bool_decide_unpack _); vm_compute; exact I.
Defined.

(** X12 on the four pages. *)
Lemma split_job_witness :
  (worker_turn libs (dir, job_of SPLIT "split_page_1.pdf" no_params)).1
    !! py "split_page_3.pdf"
  = Some (Pdf [30]).
Proof.
  pose proof (split_job libs dir (job_of SPLIT "split_page_1.pdf" no_params)
                doc eq_refl eq_refl) as (_ & Hpage & _).
  apply (Hpage 2 30 eq_refl).
Defined.

(** X13 on the four pages. *)
Lemma split_then_merge_witness :
  output_pdf
    (worker_turn libs
       ((worker_turn libs
           (dir, job_of SPLIT "split_page_1.pdf" no_params)).1,
        Job uuid MERGE PENDING
            (split_page_name <$> [1; 2; 3; 4]) (py "merged.pdf")
            None None None))
  = Some doc.
Proof.
  apply (split_then_merge libs dir
           (job_of SPLIT "split_page_1.pdf" no_params)
           (Job uuid MERGE PENDING
                (split_page_name <$> [1; 2; 3; 4]) (py "merged.pdf")
                None None None)
           doc); reflexivity.
Defined.

(** X14 on the ranges 1-2 and 4-4. *)
Lemma split_by_range_job_witness :
  (worker_turn libs
     (dir, job_of SPLIT_BY_RANGE "split_1.pdf"
             (with_ranges [(1, 2); (4, 4)]%Z))).1 !! split_output_zip
  = Some (Zip [(py "split_1.pdf", [10; 20]); (py "split_2.pdf", [40])]).
Proof.
  assert (Forall (page_range (length doc)) [(1, 2); (4, 4)]%Z) as Hvalid.
  { apply (bool_decide_unpack _). vm_compute. exact I. }
  pose proof (split_by_range_job libs dir
                (job_of SPLIT_BY_RANGE "split_1.pdf"
                   (with_ranges [(1, 2); (4, 4)]%Z))
                doc [(1, 2); (4, 4)]%Z eq_refl eq_refl eq_refl Hvalid)
    as (Hst & _).
  cbv zeta in Hst. rewrite Hst. vm_compute. reflexivity.
Defined.

(** X15 on the ranges 1-2 and 4-5 of four pages. *)
Lemma bad_range_fails_witness :
  worker_turn libs
    (dir, job_of SPLIT_BY_RANGE "split_1.pdf"
            (with_ranges [(1, 2); (4, 5)]%Z))
  = (dir, failed (BadRange 4 5)
            (job_of SPLIT_BY_RANGE "split_1.pdf"
               (with_ranges [(1, 2); (4, 5)]%Z))).
Proof.
  apply (bad_range_fails libs dir
           (job_of SPLIT_BY_RANGE "split_1.pdf"
              (with_ranges [(1, 2); (4, 5)]%Z))
           doc [(1, 2)]%Z [] 4%Z 5%Z); try reflexivity.
  - apply (bool_decide_unpack _); vm_compute; exact I.
  - apply (bool_decide_unpack _); vm_compute; exact I.
Defined.

(** X16 on the ranges 1-1 and 2-4. *)
Lemma ranges_then_merge_witness :
  output_pdf
    (worker_turn libs
       ((worker_turn libs
           (dir, job_of SPLIT_BY_RANGE "split_1.pdf"
                   (with_ranges [(1, 1); (2, 4)]%Z))).1,
        Job uuid MERGE PENDING (split_name <$> [1; 2]) (py "merged.pdf")
            None None None))
  = Some doc.
Proof.
  apply (ranges_then_merge libs dir
           (job_of SPLIT_BY_RANGE "split_1.pdf"
              (with_ranges [(1, 1); (2, 4)]%Z))
           (Job uuid MERGE PENDING (split_name <$> [1; 2]) (py "merged.pdf")
                None None None)
           doc [(1, 1); (2, 4)]%Z); try reflexivity.
  simpl. lia.
Defined.

(** X17 on an extraction. *)
Lemma completed_job_has_output_witness :
  status (worker_turn libs
            (dir, job_of EXTRACT "extracted.pdf"
                    (with_pages [3; 3; 1]%Z))).2 = COMPLETED ∨
  status (worker_turn libs
            (dir, job_of EXTRACT "extracted.pdf"
                    (with_pages [3; 3; 1]%Z))).2 = FAILED.
Proof.
  apply (completed_job_has_output libs dir
           (job_of EXTRACT "extracted.pdf" (with_pages [3; 3; 1]%Z))).
  apply (bool_decide_unpack _); vm_compute; exact I.
Defined.


(** X19 in the markdown format. *)
Lemma pdf_to_text_job_witness :
  worker_turn libs
    (dir, job_of PDF_TO_TEXT "output.txt"
            (Params None None None None (Some (py "markdown")) None))
  = (<[py "output.txt" :=
         Text (join [LF; LF]
                 (imap (λ k pg, text_part (py "markdown") k
                                          (Some (str_of_nat pg))) doc))]>
       dir,
     completed (job_of PDF_TO_TEXT "output.txt"
                  (Params None None None None (Some (py "markdown")) None))).
Proof.
  apply (pdf_to_text_job libs dir
           (job_of PDF_TO_TEXT "output.txt"
              (Params None None None None (Some (py "markdown")) None))
           doc); reflexivity.
Defined.

(** X20 on a job of [POST /edit-pdf/prepare]. *)
Lemma edit_jobs_unsupported_witness :
  worker_turn libs (dir, job_of EDIT_PDF_PREPARE "output.pdf" no_params)
  = (dir, failed Unsupported (job_of EDIT_PDF_PREPARE "output.pdf" no_params))
  ∧ status (worker_turn libs
              (dir, job_of EDIT_PDF_PREPARE "output.pdf" no_params)).2
    ≠ COMPLETED.
Proof.
  apply (edit_jobs_unsupported libs dir
           (job_of EDIT_PDF_PREPARE "output.pdf" no_params)).
  apply (bool_decide_unpack _); vm_compute; exact I.
Defined.


(** X24 on a second document of one page against an empty one. *)
Lemma page_on_one_side_witness :
  filter (λ c, c_page c = 0 + 1) (line_diff [] [py "A"])
  = [Change 1 Add (py "A")] ∧
  filter (λ c, c_page c = 0 + 1) (line_diff [py "A"] [])
  = [Change 1 Remove (py "A")].
Proof.
  apply (page_on_one_side [] [py "A"] 0 (py "A")); [simpl; lia|reflexivity].
Defined.

(** X25 on a deletion of page 2: what the route answers after the turn. *)
Lemma download_after_turn_witness :
  let j := job_of DELETE "deleted.pdf" (with_pages [2]%Z) in
  let st' := worker_turn libs (dir, j) in
  match download (<[job_id j := st'.2]> ∅) (job_id j) with
  | Served r =>
    status st'.2 = COMPLETED ∧
    fr_path r = output_path st'.2 ∧
    is_Some (st'.1 !! fr_path r) ∧
    output_filename st'.2 = Some (fr_filename r) ∧
    fr_media_type r = media_type_get (download_ext (fr_filename r))
  | HttpError code =>
    (code = 400 ∧ status st'.2 = FAILED) ∨
    (code = 500 ∧ status st'.2 = COMPLETED ∧
     ∃ name c, output_filename st'.2 = Some name ∧ c ∈ name ∧
               utf8 c = None)
  end.
Proof.
  apply (download_after_turn libs dir
           (job_of DELETE "deleted.pdf" (with_pages [2]%Z)) ∅).
  - apply (bool_decide_unpack _); vm_compute; exact I.
  - reflexivity.
Defined.

(** X26 on the extraction of the pages 3, 3 and 1 of four. *)
Lemma validated_pages_witness :
  let j := job_of EXTRACT "extracted.pdf" (with_pages [3; 3; 1]%Z) in
  let st' := worker_turn libs (dir, j) in
  Forall (λ q, 1 ≤ q ≤ MAX_PAGE_NUMBER)%Z [3; 3; 1]%Z ∧
  (status st'.2 = COMPLETED ↔
   Forall (λ q, q ≤ Z.of_nat (length doc))%Z [3; 3; 1]%Z) ∧
  (status st'.2 ≠ COMPLETED → st' = (dir, failed BadPages j)) ∧
  (job_type j = EXTRACT → status st'.2 = COMPLETED →
   ∃ pg out, output_pdf st' = Some (pg :: out)).
Proof.
  apply (validated_pages libs dir
           (job_of EXTRACT "extracted.pdf" (with_pages [3; 3; 1]%Z))
           doc [3; 3; 1]%Z).
  - by right.
  - reflexivity.
  - reflexivity.
  - vm_compute. reflexivity.
Defined.

(** X27 on two documents, the second one first. *)
Lemma merge_job_witness :
  output_pdf
    (worker_turn libs
       ({[ py "a.pdf" := Pdf [1; 2]; py "b.pdf" := Pdf [3] ]},
        Job uuid MERGE PENDING [py "b.pdf"; py "a.pdf"] (py "merged.pdf")
            None None None))
  = Some [3; 1; 2].
Proof.
  pose proof (merge_job libs
                {[ py "a.pdf" := Pdf [1; 2]; py "b.pdf" := Pdf [3] ]}
                (Job uuid MERGE PENDING [py "b.pdf"; py "a.pdf"]
                     (py "merged.pdf") None None None)
                eq_refl) as Hm.
  cbv zeta in Hm.
  change (mapM _ _) with (Some [[3]; [1; 2]]) in Hm.
  destruct Hm as (_ & Hout & _). exact Hout.
Defined.
